(** * history-in-your-pocket: browser helpers (main.js, bookmarks.js, quiz.js)

  A shallow embedding of the three scripts under [static/js] and the
  properties of their specification.

  Conventions of the embedding.
  - A JavaScript string is a [string]; its characters are the code units
    0..255.  Code units above 255 are outside the model.
  - A JavaScript number is an integer [Z] that stands for the binary64
    number nearest to it: itself when it is a safe integer, of magnitude
    at most 2^53 - 1, and an infinity when it is too large for binary64.
    Numerals of safe integers and of integers that overflow are read;
    fractions, exponents, other large integers and the negative zero are
    outside the model.
  - [null]/[undefined] arguments and results are [None] of an [option].
  - A call that may throw returns a [completion]: [Normal v] or [Throw e],
    or [Unmodelled] when its input holds something the embedding does
    not interpret; nothing is stated about such a call.
  - [localStorage] is a finite map from keys to strings.
  - The page is a tree of nodes; the document is the list of its roots. *)

From Stdlib Require Import ZArith List Bool Ascii String Lia.
From Stdlib Require Import DecimalFacts DecimalPos DecimalN.
From stdpp Require Import base option list strings gmap.
Import ListNotations.

Local Open Scope string_scope.
Local Open Scope list_scope.

(* ===================================================================== *)
(** ** Completions: normal results and thrown exceptions                  *)
(* ===================================================================== *)

Module Js.

Inductive exn :=
| TypeError        (* property access on null, call of a non-function *)
| SyntaxError      (* JSON.parse on malformed text, querySelector on a
                      text that is not a selector *)
| NetworkError.    (* fetch rejected *)

Inductive completion (A : Type) :=
| Normal (a : A)
| Throw (e : exn)
| Unmodelled.      (* the input is outside the model *)
Arguments Normal {A} a.
Arguments Throw {A} e.
Arguments Unmodelled {A}.

Definition bind {A B} (k : A -> completion B) (c : completion A) : completion B :=
  match c with
  | Normal a => k a
  | Throw e => Throw e
  | Unmodelled => Unmodelled
  end.

(** [try { c } catch (e) { h }] *)
Definition try_catch {A} (c : completion A) (h : exn -> completion A) : completion A :=
  match c with
  | Normal a => Normal a
  | Throw e => h e
  | Unmodelled => Unmodelled
  end.

End Js.
Import Js.

(** Sequencing is written [x ← c; k]. *)
#[global] Instance completion_bind : MBind completion := @Js.bind.
#[global] Instance completion_ret : MRet completion := @Js.Normal.

(* ===================================================================== *)
(** ** Strings: the built-in methods the scripts call                     *)
(* ===================================================================== *)

Module Str.

Definition chars (s : string) : list ascii := list_ascii_of_string s.
Definition of_chars (l : list ascii) : string := string_of_list_ascii l.

(** [s.split(sep)] for a one-character separator: one part more than
    there are separators, empty parts kept. *)
Fixpoint split (sep : ascii) (s : string) : list string :=
  match s with
  | EmptyString => [EmptyString]
  | String c rest =>
      if Ascii.eqb c sep then EmptyString :: split sep rest
      else match split sep rest with
           | p :: ps => String c p :: ps
           | [] => [String c EmptyString]
           end
  end.

(** The first [n] characters of [pad] repeated for ever; empty when [pad]
    is empty. *)
Definition filler (n : nat) (pad : string) : list ascii :=
  firstn n (concat (repeat (chars pad) n)).

(** [s.padStart(target, pad)] *)
Definition padStart (target : nat) (pad : string) (s : string) : string :=
  if Nat.leb target (String.length s) then s
  else of_chars (filler (target - String.length s) pad) +:+ s.

(** [s.slice(0, n)] *)
Fixpoint slice0 (n : nat) (s : string) : string :=
  match n, s with
  | S n', String c rest => String c (slice0 n' rest)
  | _, _ => EmptyString
  end.

(** [s.replace(/[xy]/g, by)] for a class of single characters. *)
Fixpoint replace_class (cls : ascii -> bool) (by_ : string) (s : string) : string :=
  match s with
  | EmptyString => EmptyString
  | String c rest =>
      if cls c then by_ +:+ replace_class cls by_ rest
      else String c (replace_class cls by_ rest)
  end.

End Str.

(* ===================================================================== *)
(** ** main.js: date helper                                               *)
(* ===================================================================== *)

Module DateUtil.

(** [mmddFromDateInput(dateVal)].  [None] as argument is [null] or
    [undefined]; [None] as result is [null].  [!dateVal] holds for
    [null], [undefined] and the empty string. *)
Definition mmddFromDateInput (dateVal : option string) : option string :=
  match dateVal with
  | None => None
  | Some EmptyString => None
  | Some s =>
      let parts := Str.split "-"%char s in
      if Nat.leb 3 (List.length parts) then
        Some (Str.padStart 2 "0" (nth 1 parts EmptyString)
              +:+ "-" +:+ Str.padStart 2 "0" (nth 2 parts EmptyString))
      else None
  end.

End DateUtil.

(* ===================================================================== *)
(** ** JSON values, [JSON.stringify] and [JSON.parse]                     *)
(* ===================================================================== *)

Module Json.

(** A value that JSON text denotes.  The properties of an object are kept
    in the order in which JavaScript enumerates them.  [JNum n] is the
    number that the integer [n] rounds to (see [binary64] below). *)
Unset Elimination Schemes.
Inductive value :=
| JNull
| JBool (b : bool)
| JNum (n : Z)
| JStr (s : string)
| JArr (items : list value)
| JObj (props : list (string * value)).
Set Elimination Schemes.

(** Induction over values, with the hypothesis for every item of an
    array and every property value of an object. *)
Definition value_ind (P : value -> Prop)
  (HNull : P JNull) (HBool : forall b, P (JBool b))
  (HNum : forall n, P (JNum n)) (HStr : forall s, P (JStr s))
  (HArr : forall items, Forall P items -> P (JArr items))
  (HObj : forall props, Forall (fun kv => P (snd kv)) props -> P (JObj props))
  : forall v, P v :=
  fix go (v : value) : P v :=
    match v with
    | JNull => HNull
    | JBool b => HBool b
    | JNum n => HNum n
    | JStr s => HStr s
    | JArr items =>
        HArr items
          ((fix all (l : list value) : Forall P l :=
              match l with
              | [] => List.Forall_nil P
              | x :: l' => List.Forall_cons P x l' (go x) (all l')
              end) items)
    | JObj props =>
        HObj props
          ((fix all (l : list (string * value)) : Forall (fun kv => P (snd kv)) l :=
              match l with
              | [] => List.Forall_nil _
              | kv :: l' => List.Forall_cons _ kv l' (go (snd kv)) (all l')
              end) props)
    end.

(** *** Characters *)

Definition code (c : ascii) : N := N_of_ascii c.

(** The double quote. *)
Definition dquote : ascii := "034"%char.

Definition is_ws (c : ascii) : bool :=
  match c with
  | " " | "009" | "010" | "013" => true
  | _ => false
  end%char.

Definition digit_of (c : ascii) : option N :=
  if (48 <=? code c)%N && (code c <=? 57)%N then Some (code c - 48)%N else None.

Definition hex_of (c : ascii) : option N :=
  let n := code c in
  if (48 <=? n)%N && (n <=? 57)%N then Some (n - 48)%N
  else if (97 <=? n)%N && (n <=? 102)%N then Some (n - 87)%N
  else if (65 <=? n)%N && (n <=? 70)%N then Some (n - 55)%N
  else None.

Definition hex_digit (n : N) : ascii :=
  if (n <? 10)%N then ascii_of_N (48 + n) else ascii_of_N (87 + n).

(** *** Decimal numerals *)

Fixpoint uint_chars (u : Decimal.uint) : list ascii :=
  match u with
  | Decimal.Nil => []
  | Decimal.D0 u' => "0"%char :: uint_chars u'
  | Decimal.D1 u' => "1"%char :: uint_chars u'
  | Decimal.D2 u' => "2"%char :: uint_chars u'
  | Decimal.D3 u' => "3"%char :: uint_chars u'
  | Decimal.D4 u' => "4"%char :: uint_chars u'
  | Decimal.D5 u' => "5"%char :: uint_chars u'
  | Decimal.D6 u' => "6"%char :: uint_chars u'
  | Decimal.D7 u' => "7"%char :: uint_chars u'
  | Decimal.D8 u' => "8"%char :: uint_chars u'
  | Decimal.D9 u' => "9"%char :: uint_chars u'
  end.

Definition decimal_N (n : N) : list ascii := uint_chars (N.to_uint n).

(** The decimal numeral of an integer: [Number.prototype.toString] of a
    safe integer. *)
Definition decimal_Z (z : Z) : list ascii :=
  match z with
  | Z0 => decimal_N 0
  | Zpos p => decimal_N (Npos p)
  | Zneg p => "-"%char :: decimal_N (Npos p)
  end.

(** [Number.isSafeInteger]: up to [Number.MAX_SAFE_INTEGER] in magnitude. *)
Definition safe_integer (n : Z) : bool := (Z.abs n <=? 9007199254740991)%Z.
Arguments safe_integer : simpl never.

(** *** Integers as binary64 numbers *)

(** The integer of at most 53 significant bits nearest to [n], the one
    with an even last bit when two are as near: the rounding of binary64,
    without its upper bound. *)
Definition round53 (n : N) : N :=
  let bits := N.size n in
  if (bits <=? 53)%N then n
  else
    let sh := (bits - 53)%N in
    let q := N.shiftr n sh in
    let r := (n - N.shiftl q sh)%N in
    let half := N.shiftl 1 (sh - 1) in
    let q' := if (half <? r)%N || ((r =? half)%N && N.odd q) then (q + 1)%N else q in
    N.shiftl q' sh.

(** The integer rounds to [Infinity] or [-Infinity]: it rounds to 2^1024
    or more in magnitude. *)
Definition infinite (z : Z) : bool := (2 ^ 1024 <=? round53 (Z.abs_N z))%N.
Arguments infinite : simpl never.

(** The number that [z] stands for: the binary64 number nearest to [z],
    with 2^1024 and -2^1024 for the infinities. *)
Definition binary64 (z : Z) : Z :=
  let m := Z.of_N (N.min (round53 (Z.abs_N z)) (2 ^ 1024)) in
  if (z <? 0)%Z then (- m)%Z else m.

(** The integer that stands for the shortest decimal numeral that rounds
    to [x]: of the numerals of [k] digits and some zeros the nearest to
    [x], for the first [k] that has one. *)
Fixpoint shortest (fuel k : nat) (x : N) (d : nat) : N :=
  match fuel with
  | O => x
  | S fuel' =>
      let p := (10 ^ N.of_nat (d - k))%N in
      let lo := ((x / p) * p)%N in
      let hi := (lo + p)%N in
      let lo_ok := N.eqb (round53 lo) x in
      let hi_ok := N.eqb (round53 hi) x in
      if lo_ok && hi_ok then
        if (x - lo <? hi - x)%N then lo
        else if (hi - x <? x - lo)%N then hi
        else if N.even (x / p) then lo else hi
      else if lo_ok then lo
      else if hi_ok then hi
      else shortest fuel' (S k) x d
  end.

Fixpoint drop_zeros (cs : list ascii) : list ascii :=
  match cs with
  | "0"%char :: cs' => drop_zeros cs'
  | _ => cs
  end.

(** [Number.prototype.toString] of a finite integer number [x] that is
    not negative: its digits up to 21 of them, and the form [d.ddde+n]
    from 10^21 on. *)
Definition magnitude_text (x : N) : list ascii :=
  let ds := decimal_N (shortest 17 1 x (List.length (decimal_N x))) in
  let n := List.length ds in
  if Nat.leb n 21 then ds
  else
    let e := Str.chars "e+" ++ decimal_N (N.of_nat (n - 1)) in
    match rev (drop_zeros (rev ds)) with
    | [] => ds
    | [d] => d :: e
    | d :: rest => d :: "."%char :: rest ++ e
    end.

(** [String(z)], the text that a number takes where a string is wanted. *)
Definition number_text (z : Z) : list ascii :=
  if safe_integer z then decimal_Z z
  else if infinite z then Str.chars (if (z <? 0)%Z then "-Infinity" else "Infinity")
  else (if (z <? 0)%Z then ["-"%char] else []) ++ magnitude_text (round53 (Z.abs_N z)).

(** The text of a number in [JSON.stringify]: [null] for an infinity. *)
Definition number_json (z : Z) : list ascii :=
  if safe_integer z then decimal_Z z
  else if infinite z then Str.chars "null"
  else number_text z.

(** The value of a string of decimal digits; [None] when the string is
    empty or holds another character. *)
Fixpoint digits_value (acc : N) (cs : list ascii) : option N :=
  match cs with
  | [] => Some acc
  | c :: cs' =>
      match digit_of c with
      | Some d => digits_value (10 * acc + d) cs'
      | None => None
      end
  end.

(** *** Property order of objects

    An own property key is an array index when it is the canonical
    numeral of an integer below 2^32 - 1.  JavaScript enumerates the
    array-index keys first, in ascending order, then the other keys in
    the order of their creation; assigning to an existing key keeps its
    place. *)
Definition array_index (k : string) : option N :=
  match Str.chars k with
  | [] => None
  | cs =>
      match digits_value 0 cs with
      | Some n =>
          if (n <? 4294967295)%N && String.eqb (Str.of_chars (decimal_N n)) k
          then Some n else None
      | None => None
      end
  end.

(** An existing key [k'] stays in front of the new key [k]. *)
Definition key_before (k' k : string) : bool :=
  match array_index k with
  | None => true
  | Some i =>
      match array_index k' with
      | Some j => (j <? i)%N
      | None => false
      end
  end.

Definition has_key (k : string) (ps : list (string * value)) : bool :=
  existsb (fun kv => String.eqb (fst kv) k) ps.

Fixpoint replace_value (k : string) (v : value) (ps : list (string * value))
  : list (string * value) :=
  match ps with
  | [] => []
  | (k', v') :: ps' =>
      if String.eqb k' k then (k', v) :: ps'
      else (k', v') :: replace_value k v ps'
  end.

Fixpoint insert_new (k : string) (v : value) (ps : list (string * value))
  : list (string * value) :=
  match ps with
  | [] => [(k, v)]
  | (k', v') :: ps' =>
      if key_before k' k then (k', v') :: insert_new k v ps'
      else (k, v) :: ps
  end.

(** [CreateDataProperty(obj, k, v)] on a plain object. *)
Definition obj_set (k : string) (v : value) (ps : list (string * value))
  : list (string * value) :=
  if has_key k ps then replace_value k v ps else insert_new k v ps.

(** The keys of an object as JavaScript can hold them: pairwise distinct,
    array indices in front and ascending. *)
Fixpoint keys_ordered (ks : list string) : bool :=
  match ks with
  | [] => true
  | k :: ks' =>
      forallb (fun k2 => negb (String.eqb k k2) && key_before k k2) ks'
      && keys_ordered ks'
  end.

(** Representation invariant of a value: every number is a safe integer,
    and the keys of every object are in the order in which JavaScript
    holds them.  Every object of a running script has its keys in that
    order, so this part limits the lists that stand for objects, not the
    objects. *)
Fixpoint wf (v : value) : bool :=
  match v with
  | JNum n => safe_integer n
  | JArr items => forallb wf items
  | JObj props =>
      keys_ordered (map fst props) && forallb (fun kv => wf (snd kv)) props
  | _ => true
  end.

(** A number that [JSON.parse] of the model returns: a safe integer or an
    infinity. *)
Definition js_number (n : Z) : bool := safe_integer n || infinite n.

(** A value that [JSON.parse] of the model returns: as [wf], with the
    infinities. *)
Fixpoint js_value (v : value) : bool :=
  match v with
  | JNum n => js_number n
  | JArr items => forallb js_value items
  | JObj props =>
      keys_ordered (map fst props) && forallb (fun kv => js_value (snd kv)) props
  | _ => true
  end.

(** No number of the value is an infinity. *)
Fixpoint all_finite (v : value) : bool :=
  match v with
  | JNum n => negb (infinite n)
  | JArr items => forallb all_finite items
  | JObj props => forallb (fun kv => all_finite (snd kv)) props
  | _ => true
  end.

(** The value with [null] for every infinity: what is left of it in JSON
    text. *)
Fixpoint nullify (v : value) : value :=
  match v with
  | JNum n => if infinite n then JNull else v
  | JArr items => JArr (map nullify items)
  | JObj props => JObj (map (fun kv => (fst kv, nullify (snd kv))) props)
  | _ => v
  end.

(** [obj.name]: the own property, [None] for [undefined]. *)
Fixpoint lookup_prop (k : string) (ps : list (string * value)) : option value :=
  match ps with
  | [] => None
  | (k', v) :: ps' => if String.eqb k' k then Some v else lookup_prop k ps'
  end.

(** *** JSON.stringify *)

(** [QuoteJSONString]: the escapes of one character. *)
Definition escape_char (c : ascii) : list ascii :=
  match c with
  | "034" => ["\"; "034"]
  | "\" => ["\"; "\"]
  | "008" => ["\"; "b"]
  | "009" => ["\"; "t"]
  | "010" => ["\"; "n"]
  | "012" => ["\"; "f"]
  | "013" => ["\"; "r"]
  | _ =>
      if (code c <? 32)%N
      then ["\"; "u"; "0"; "0"; hex_digit (code c / 16); hex_digit (code c mod 16)]
      else [c]
  end%char.

Definition quote (s : string) : list ascii :=
  dquote :: flat_map escape_char (Str.chars s) ++ [dquote].

Fixpoint join {A} (sep : list A) (parts : list (list A)) : list A :=
  match parts with
  | [] => []
  | [p] => p
  | p :: ps => p ++ sep ++ join sep ps
  end.

Definition newline : ascii := "010"%char.

(** Brackets around the already serialised members of a container.
    With an empty [gap] the members are separated by commas only; else
    every member is on a line of its own, indented by [ind ++ gap]. *)
Definition wrap (opening closing : ascii) (ind gap : list ascii)
  (members : list (list ascii)) : list ascii :=
  match members with
  | [] => [opening; closing]
  | _ =>
      match gap with
      | [] => opening :: join [","%char] members ++ [closing]
      | _ =>
          opening :: newline :: (ind ++ gap)
          ++ join (","%char :: newline :: ind ++ gap) members
          ++ newline :: ind ++ [closing]
      end
  end.

Definition colon (gap : list ascii) : list ascii :=
  match gap with
  | [] => [":"%char]
  | _ => [":"%char; " "%char]
  end.

(** [SerializeJSONProperty] at indentation [ind]. *)
Fixpoint ser (ind gap : list ascii) (v : value) : list ascii :=
  match v with
  | JNull => Str.chars "null"
  | JBool true => Str.chars "true"
  | JBool false => Str.chars "false"
  | JNum n => number_json n
  | JStr s => quote s
  | JArr items =>
      wrap "[" "]" ind gap (map (ser (ind ++ gap) gap) items)
  | JObj props =>
      wrap "{" "}" ind gap
        (map (fun kv => quote (fst kv) ++ colon gap ++ ser (ind ++ gap) gap (snd kv))
           props)
  end.

(** [JSON.stringify(value, null, space)] for a number [space]; [0]
    stands for the call without the third argument. *)
Definition JSON_stringify (v : value) (space : nat) : string :=
  Str.of_chars (ser [] (repeat " "%char (Nat.min space 10)) v).

(** *** JSON.parse: tokens *)

(** [TOtherString] is a string with an escape of a code unit above 255,
    [TOtherNumber] a number that is neither a safe integer nor an integer
    that overflows (one with a fraction or an exponent, another large
    integer, the negative zero): tokens of JSON text that the model does
    not interpret. *)
Inductive token :=
| TLBracket | TRBracket | TLBrace | TRBrace | TComma | TColon
| TString (s : string)
| TNumber (n : Z)
| TTrue | TFalse | TNull
| TOtherString | TOtherNumber.

Definition is_other (t : token) : bool :=
  match t with
  | TOtherString | TOtherNumber => true
  | _ => false
  end.

(** In a string, [ok] tells that every character so far is in the model
    and [acc] holds the characters, the last one first. *)
Inductive lex_state :=
| LIdle                                   (* between tokens *)
| LString (ok : bool) (acc : list ascii)  (* in a string *)
| LEscape (ok : bool) (acc : list ascii)  (* after a backslash *)
| LUnicode (ok : bool) (acc : list ascii) (k : nat) (v : N)
                                          (* [k] hex digits of \u read *)
| LMinus                                  (* after the sign of a number *)
| LZero (neg : bool)                      (* after a leading zero *)
| LDigits (neg : bool) (n : N)            (* in the digits of a number *)
| LFracDot                                (* after the point *)
| LFrac                                   (* in the digits of the fraction *)
| LExpMark                                (* after e or E *)
| LExpSign                                (* after the sign of the exponent *)
| LExp                                    (* in the digits of the exponent *)
| LWord (expect : list ascii) (t : token). (* in true, false or null *)

Definition signed (neg : bool) (n : N) : Z :=
  if neg then (- Z.of_N n)%Z else Z.of_N n.

(** The token of the integer with sign [neg] and magnitude [n]. *)
Definition number_token (neg : bool) (n : N) : token :=
  if (neg && N.eqb n 0) || negb (js_number (signed neg n))
  then TOtherNumber else TNumber (signed neg n).

(** A character that continues a number with a fraction or an exponent. *)
Definition frac_or_exp (c : ascii) : bool :=
  match c with
  | "." | "e" | "E" => true
  | _ => false
  end%char.

Definition idle_step (c : ascii) : option (list token * lex_state) :=
  if is_ws c then Some ([], LIdle) else
  match c with
  | "[" => Some ([TLBracket], LIdle)
  | "]" => Some ([TRBracket], LIdle)
  | "{" => Some ([TLBrace], LIdle)
  | "}" => Some ([TRBrace], LIdle)
  | "," => Some ([TComma], LIdle)
  | ":" => Some ([TColon], LIdle)
  | "034" => Some ([], LString true [])
  | "-" => Some ([], LMinus)
  | "t" => Some ([], LWord (Str.chars "rue") TTrue)
  | "f" => Some ([], LWord (Str.chars "alse") TFalse)
  | "n" => Some ([], LWord (Str.chars "ull") TNull)
  | _ =>
      match digit_of c with
      | Some 0%N => Some ([], LZero false)
      | Some d => Some ([], LDigits false d)
      | None => None
      end
  end%char.

Definition unescape (c : ascii) : option ascii :=
  match c with
  | "034" => Some "034"
  | "\" => Some "\"
  | "/" => Some "/"
  | "b" => Some "008"
  | "f" => Some "012"
  | "n" => Some "010"
  | "r" => Some "013"
  | "t" => Some "009"
  | _ => None
  end%char.

(** The token [t] ends in front of the character [c]. *)
Definition end_token (t : token) (c : ascii) : option (list token * lex_state) :=
  match idle_step c with
  | Some (toks, st) => Some (t :: toks, st)
  | None => None
  end.

(** After the digits of the integer with the token [t]. *)
Definition after_number (t : token) (c : ascii) : option (list token * lex_state) :=
  match c with
  | "." => Some ([], LFracDot)
  | "e" | "E" => Some ([], LExpMark)
  | _ => end_token t c
  end%char.

Definition lex_step (st : lex_state) (c : ascii) : option (list token * lex_state) :=
  match st with
  | LIdle => idle_step c
  | LString ok acc =>
      if Ascii.eqb c dquote then
        Some ([if ok then TString (Str.of_chars (rev acc)) else TOtherString], LIdle)
      else if Ascii.eqb c "\" then Some ([], LEscape ok acc)
      else if (code c <? 32)%N then None
      else Some ([], LString ok (c :: acc))
  | LEscape ok acc =>
      match unescape c with
      | Some c' => Some ([], LString ok (c' :: acc))
      | None => if Ascii.eqb c "u" then Some ([], LUnicode ok acc 0 0%N) else None
      end
  | LUnicode ok acc k v =>
      match hex_of c with
      | None => None
      | Some h =>
          let v' := (16 * v + h)%N in
          if Nat.eqb k 3 then
            if (v' <? 256)%N then Some ([], LString ok (ascii_of_N v' :: acc))
            else Some ([], LString false acc)
          else Some ([], LUnicode ok acc (S k) v')
      end
  | LMinus =>
      match digit_of c with
      | Some 0%N => Some ([], LZero true)
      | Some d => Some ([], LDigits true d)
      | None => None
      end
  | LZero neg =>
      match digit_of c with
      | Some _ => None
      | None => after_number (number_token neg 0) c
      end
  | LDigits neg n =>
      match digit_of c with
      | Some d => Some ([], LDigits neg (10 * n + d)%N)
      | None => after_number (number_token neg n) c
      end
  | LFracDot =>
      match digit_of c with
      | Some _ => Some ([], LFrac)
      | None => None
      end
  | LFrac =>
      match digit_of c with
      | Some _ => Some ([], LFrac)
      | None =>
          if Ascii.eqb c "e" || Ascii.eqb c "E" then Some ([], LExpMark)
          else end_token TOtherNumber c
      end
  | LExpMark =>
      match digit_of c with
      | Some _ => Some ([], LExp)
      | None =>
          if Ascii.eqb c "+" || Ascii.eqb c "-" then Some ([], LExpSign) else None
      end
  | LExpSign =>
      match digit_of c with
      | Some _ => Some ([], LExp)
      | None => None
      end
  | LExp =>
      match digit_of c with
      | Some _ => Some ([], LExp)
      | None => end_token TOtherNumber c
      end
  | LWord expect t =>
      match expect with
      | [] => None
      | x :: rest =>
          if Ascii.eqb c x then
            match rest with
            | [] => Some ([t], LIdle)
            | _ => Some ([], LWord rest t)
            end
          else None
      end
  end.

Definition lex_end (st : lex_state) : option (list token) :=
  match st with
  | LIdle => Some []
  | LZero neg => Some [number_token neg 0]
  | LDigits neg n => Some [number_token neg n]
  | LFrac | LExp => Some [TOtherNumber]
  | _ => None
  end.

(** The tokens [toks] in front of the tokens of the rest, if any. *)
Definition prepend (toks : list token) (rest : option (list token))
  : option (list token) :=
  match toks with
  | [] => rest
  | _ =>
      match rest with
      | Some more => Some (toks ++ more)
      | None => None
      end
  end.

Fixpoint lex_run (st : lex_state) (cs : list ascii) : option (list token) :=
  match cs with
  | [] => lex_end st
  | c :: cs' =>
      match lex_step st c with
      | Some (toks, st') => prepend toks (lex_run st' cs')
      | None => None
      end
  end.

(** *** JSON.parse: grammar

    One frame for every array or object that is open: what was read of
    it so far. *)

Inductive frame :=
| FArr (seen : list value)                          (* in an array *)
| FObj (seen : list (string * value)) (key : string). (* in an object, at the value of [key] *)

Inductive parse_state :=
| PValue (stk : list frame)              (* a value must follow *)
| PFirstItem (stk : list frame)          (* after "[": a value or "]" *)
| PAfterItem (seen : list value) (stk : list frame)   (* "," or "]" *)
| PFirstKey (stk : list frame)           (* after "{": a key or "}" *)
| PKey (seen : list (string * value)) (stk : list frame)  (* after ",": a key *)
| PColon (seen : list (string * value)) (key : string) (stk : list frame)
| PAfterMember (seen : list (string * value)) (stk : list frame) (* "," or "}" *)
| PDone (v : value).

(** A complete value goes to the container that waits for it. *)
Definition deliver (v : value) (stk : list frame) : parse_state :=
  match stk with
  | [] => PDone v
  | FArr seen :: stk' => PAfterItem (seen ++ [v]) stk'
  | FObj seen key :: stk' => PAfterMember (obj_set key v seen) stk'
  end.

Definition value_step (stk : list frame) (t : token) : option parse_state :=
  match t with
  | TNull => Some (deliver JNull stk)
  | TTrue => Some (deliver (JBool true) stk)
  | TFalse => Some (deliver (JBool false) stk)
  | TNumber n => Some (deliver (JNum n) stk)
  | TString s => Some (deliver (JStr s) stk)
  | TLBracket => Some (PFirstItem stk)
  | TLBrace => Some (PFirstKey stk)
  | TOtherString | TOtherNumber => Some (deliver JNull stk)
  | _ => None
  end.

Definition parse_step (st : parse_state) (t : token) : option parse_state :=
  match st with
  | PValue stk => value_step stk t
  | PFirstItem stk =>
      match t with
      | TRBracket => Some (deliver (JArr []) stk)
      | _ => value_step (FArr [] :: stk) t
      end
  | PAfterItem seen stk =>
      match t with
      | TComma => Some (PValue (FArr seen :: stk))
      | TRBracket => Some (deliver (JArr seen) stk)
      | _ => None
      end
  | PFirstKey stk =>
      match t with
      | TRBrace => Some (deliver (JObj []) stk)
      | TString k => Some (PColon [] k stk)
      | TOtherString => Some (PColon [] EmptyString stk)
      | _ => None
      end
  | PKey seen stk =>
      match t with
      | TString k => Some (PColon seen k stk)
      | TOtherString => Some (PColon seen EmptyString stk)
      | _ => None
      end
  | PColon seen k stk =>
      match t with
      | TColon => Some (PValue (FObj seen k :: stk))
      | _ => None
      end
  | PAfterMember seen stk =>
      match t with
      | TComma => Some (PKey seen stk)
      | TRBrace => Some (deliver (JObj seen) stk)
      | _ => None
      end
  | PDone _ => None
  end.

Fixpoint parse_run (st : parse_state) (ts : list token) : option parse_state :=
  match ts with
  | [] => Some st
  | t :: ts' =>
      match parse_step st t with
      | Some st' => parse_run st' ts'
      | None => None
      end
  end.

(** [JSON.parse(text)]: a value, or a thrown [SyntaxError].  The text is
    cut into tokens, and the tokens are read with a stack of the open
    arrays and objects.  Text that is JSON text but holds a token that the
    model does not interpret is outside the model; the grammar is checked
    for it all the same, with [null] in the place of such a token. *)
Definition JSON_parse (text : string) : completion value :=
  match lex_run LIdle (Str.chars text) with
  | Some ts =>
      match parse_run (PValue []) ts with
      | Some (PDone v) => if existsb is_other ts then Unmodelled else Normal v
      | _ => Throw SyntaxError
      end
  | None => Throw SyntaxError
  end.

(** *** The tokens of a value and the end of a number *)

(** The tokens that the text of a value consists of. *)
Fixpoint tokens (v : value) : list token :=
  match v with
  | JNull => [TNull]
  | JBool true => [TTrue]
  | JBool false => [TFalse]
  | JNum n => [TNumber n]
  | JStr s => [TString s]
  | JArr items => TLBracket :: join [TComma] (map tokens items) ++ [TRBracket]
  | JObj props =>
      TLBrace
      :: join [TComma]
           (map (fun kv => TString (fst kv) :: TColon :: tokens (snd kv)) props)
      ++ [TRBrace]
  end.

(** Text in front of which a number ends: the end of the input, or a
    character that is neither a digit nor the start of a fraction or an
    exponent. *)
Definition delimited (rest : list ascii) : Prop :=
  match rest with
  | [] => True
  | c :: _ => digit_of c = None /\ frac_or_exp c = false
  end.

(** The value of a decimal numeral read from the left, after [acc]. *)
Fixpoint uint_value (acc : N) (u : Decimal.uint) : N :=
  match u with
  | Decimal.Nil => acc
  | Decimal.D0 u' => uint_value (10 * acc) u'
  | Decimal.D1 u' => uint_value (10 * acc + 1) u'
  | Decimal.D2 u' => uint_value (10 * acc + 2) u'
  | Decimal.D3 u' => uint_value (10 * acc + 3) u'
  | Decimal.D4 u' => uint_value (10 * acc + 4) u'
  | Decimal.D5 u' => uint_value (10 * acc + 5) u'
  | Decimal.D6 u' => uint_value (10 * acc + 6) u'
  | Decimal.D7 u' => uint_value (10 * acc + 7) u'
  | Decimal.D8 u' => uint_value (10 * acc + 8) u'
  | Decimal.D9 u' => uint_value (10 * acc + 9) u'
  end%N.

(** The tokens of the tokenizer: a number token is a safe integer or an
    infinity. *)
Definition token_ok (t : token) : bool :=
  match t with
  | TNumber n => js_number n
  | _ => true
  end.

Definition lex_state_ok (st : lex_state) : bool :=
  match st with
  | LWord _ t => token_ok t
  | _ => true
  end.

(** The invariant of the parser: every value it holds is a value of the
    model, with its keys in order. *)
Definition js_props (ps : list (string * value)) : bool :=
  keys_ordered (map fst ps) && forallb (fun kv => js_value (snd kv)) ps.

Definition js_frame (f : frame) : bool :=
  match f with
  | FArr seen => forallb js_value seen
  | FObj seen _ => js_props seen
  end.

Definition js_state (st : parse_state) : bool :=
  match st with
  | PValue stk | PFirstItem stk | PFirstKey stk => forallb js_frame stk
  | PAfterItem seen stk => forallb js_value seen && forallb js_frame stk
  | PKey seen stk | PColon seen _ stk | PAfterMember seen stk =>
      js_props seen && forallb js_frame stk
  | PDone v => js_value v
  end.

End Json.

(* ===================================================================== *)
(** ** bookmarks.js: bookmarks kept in localStorage                        *)
(* ===================================================================== *)

Module Bookmarks.
Import Json.

Definition BOOKMARK_KEY : string := "hip_bookmarks_v1".

(** [loadBookmarks()].  [!raw] holds for [null] (no item under the key)
    and for the empty string. *)
Definition loadBookmarks (localStorage : gmap string string) : completion value :=
  match localStorage !! BOOKMARK_KEY with
  | None => Normal (JArr [])
  | Some EmptyString => Normal (JArr [])
  | Some raw => try_catch (JSON_parse raw) (fun _ => Normal (JArr []))
  end.

(** [saveBookmarks(list)] *)
Definition saveBookmarks (list : value) (localStorage : gmap string string)
  : gmap string string :=
  <[BOOKMARK_KEY := JSON_stringify list 0]> localStorage.

(** [v.title] and [v.date]: reading a property of [null] throws; an
    object yields its own property; a boolean, number, string or array
    has no property of these names. *)
Definition get_prop (name : string) (v : value) : completion (option value) :=
  match v with
  | JNull => Throw TypeError
  | JObj props => Normal (lookup_prop name props)
  | _ => Normal None
  end.

(** [a === b] for a property [a] of a freshly parsed record and a
    property [b] of the caller's record: primitives by value, numbers as
    the binary64 numbers they stand for; an array or object of the one is
    never the same reference as one of the other. *)
Definition strict_eq (a b : option value) : bool :=
  match a, b with
  | None, None => true
  | Some JNull, Some JNull => true
  | Some (JBool x), Some (JBool y) => Bool.eqb x y
  | Some (JNum x), Some (JNum y) => Z.eqb (binary64 x) (binary64 y)
  | Some (JStr x), Some (JStr y) => String.eqb x y
  | _, _ => false
  end.

(** [b => b.title === eventObj.title && b.date === eventObj.date] *)
Definition same_bookmark (eventObj b : value) : completion bool :=
  bt ← get_prop "title" b;
  et ← get_prop "title" eventObj;
  if strict_eq bt et then
    bd ← get_prop "date" b;
    ed ← get_prop "date" eventObj;
    Normal (strict_eq bd ed)
  else Normal false.

(** [Array.prototype.some] *)
Fixpoint array_some (f : value -> completion bool) (items : list value)
  : completion bool :=
  match items with
  | [] => Normal false
  | x :: rest =>
      r ← f x;
      if r : bool then Normal true else array_some f rest
  end.

(** [addBookmark(eventObj)]: the outcome and the storage afterwards. *)
Definition addBookmark (eventObj : value) (localStorage : gmap string string)
  : completion bool * gmap string string :=
  match loadBookmarks localStorage with
  | Throw e => (Throw e, localStorage)
  | Unmodelled => (Unmodelled, localStorage)
  | Normal (JArr items) =>
      match array_some (same_bookmark eventObj) items with
      | Throw e => (Throw e, localStorage)
      | Unmodelled => (Unmodelled, localStorage)
      | Normal true => (Normal false, localStorage)
      | Normal false =>
          (Normal true, saveBookmarks (JArr (eventObj :: items)) localStorage)
      end
  | Normal _ => (Throw TypeError, localStorage)   (* list.some is not a function *)
  end.

(** [clearBookmarks()] *)
Definition clearBookmarks (localStorage : gmap string string) : gmap string string :=
  delete BOOKMARK_KEY localStorage.

(** The file offered to the user by the click on the temporary link. *)
Record download := { filename : string; content : string; mime : string }.

Definition colon_or_T (c : ascii) : bool :=
  match c with
  | ":" | "T" => true
  | _ => false
  end%char.

(** [exportBookmarks()]; [now] is [new Date().toISOString()]. *)
Definition exportBookmarks (now : string) (localStorage : gmap string string)
  : completion download :=
  list ← loadBookmarks localStorage;
  let ts := Str.replace_class colon_or_T "-" (Str.slice0 19 now) in
  let filename := "bookmarks-" +:+ ts +:+ ".json" in
  let content := JSON_stringify list 2 in
  Normal {| filename := filename; content := content; mime := "application/json" |}.

(** *** Notions of the specification *)

(** The (title, date) pair of a bookmark record: an object whose
    [title] and [date] are strings. *)
Definition pair_of (v : value) : option (string * string) :=
  match v with
  | JObj props =>
      match lookup_prop "title" props, lookup_prop "date" props with
      | Some (JStr t), Some (JStr d) => Some (t, d)
      | _, _ => None
      end
  | _ => None
  end.

Definition is_null (v : value) : bool :=
  match v with
  | JNull => true
  | _ => false
  end.

(** The storage holds a list without null entries and without
    infinities (no item under the key, and an item that is not JSON text,
    count as the empty list). *)
Definition holds_list (localStorage : gmap string string) : Prop :=
  exists items,
    loadBookmarks localStorage = Normal (JArr items)
    /\ Forall (fun b => is_null b = false) items
    /\ all_finite (JArr items) = true.

End Bookmarks.

(* ===================================================================== *)
(** ** quiz.js: the quiz on the page                                       *)
(* ===================================================================== *)

Module Quiz.
Import Json.

(** *** Data of the quiz API *)

Record QuizQuestion := {
  id : string;
  question : string;
  description : option string;
  options : list string;
  correct : Z
}.

Record QuizResponse := { questions : option (list QuizQuestion) }.

(** *** The page *)

(** [() => gradeQuiz(questions)] *)
Inductive handler := GradeOnClick (qs : list QuizQuestion).

Unset Elimination Schemes.
Inductive node :=
| Text (data : string)
| Element (tag : string) (props : list (string * string)) (checked : bool)
    (onclick : option handler) (children : list node).
Set Elimination Schemes.

Definition node_ind (P : node -> Prop)
  (HText : forall data, P (Text data))
  (HElement : forall tag props checked onclick children,
      Forall P children -> P (Element tag props checked onclick children))
  : forall n, P n :=
  fix go (n : node) : P n :=
    match n with
    | Text data => HText data
    | Element tag props checked onclick children =>
        HElement tag props checked onclick children
          ((fix all (l : list node) : Forall P l :=
              match l with
              | [] => List.Forall_nil P
              | x :: l' => List.Forall_cons P x l' (go x) (all l')
              end) children)
    end.

(** The document: its root nodes in tree order. *)
Definition document := list node.

Fixpoint lookup_attr (name : string) (ps : list (string * string)) : option string :=
  match ps with
  | [] => None
  | (k, v) :: ps' => if String.eqb k name then Some v else lookup_attr name ps'
  end.

Fixpoint assign (name v : string) (ps : list (string * string)) : list (string * string) :=
  match ps with
  | [] => [(name, v)]
  | (k, v') :: ps' =>
      if String.eqb k name then (k, v) :: ps' else (k, v') :: assign name v ps'
  end.

Definition prop (name : string) (n : node) : option string :=
  match n with
  | Text _ => None
  | Element _ ps _ _ _ => lookup_attr name ps
  end.

Definition tag_of (n : node) : option string :=
  match n with
  | Text _ => None
  | Element t _ _ _ _ => Some t
  end.

Definition children_of (n : node) : list node :=
  match n with
  | Text _ => []
  | Element _ _ _ _ cs => cs
  end.

Definition is_checked (n : node) : bool :=
  match n with
  | Text _ => false
  | Element _ _ ck _ _ => ck
  end.

(** [document.createElement(tag)] *)
Definition createElement (tag : string) : node := Element tag [] false None [].

(** [el.name = v] for a reflected property or a style or data entry. *)
Definition set_prop (name v : string) (n : node) : node :=
  match n with
  | Text _ => n
  | Element t ps ck h cs => Element t (assign name v ps) ck h cs
  end.

Definition set_onclick (h : handler) (n : node) : node :=
  match n with
  | Text _ => n
  | Element t ps ck _ cs => Element t ps ck (Some h) cs
  end.

Definition set_children (cs : list node) (n : node) : node :=
  match n with
  | Text _ => n
  | Element t ps ck h _ => Element t ps ck h cs
  end.

(** [parent.appendChild(child)] for a new child. *)
Definition appendChild (child : node) (parent : node) : node :=
  set_children (children_of parent ++ [child]) parent.

Definition br : node := createElement "br".

Definition flush_run (run : list ascii) : list node :=
  match run with
  | [] => []
  | _ => [Text (Str.of_chars (rev run))]
  end.

(** The nodes the [innerText] setter makes of a string: a line break
    element for every LF, CR or CRLF, text nodes for the runs between. *)
Fixpoint text_fragment (run : list ascii) (cs : list ascii) : list node :=
  match cs with
  | [] => flush_run run
  | c :: cs' =>
      if Ascii.eqb c "010" then flush_run run ++ br :: text_fragment [] cs'
      else if Ascii.eqb c "013" then
        match cs' with
        | c2 :: cs'' =>
            if Ascii.eqb c2 "010" then flush_run run ++ br :: text_fragment [] cs''
            else flush_run run ++ br :: text_fragment [] cs'
        | [] => flush_run run ++ [br]
        end
      else text_fragment (c :: run) cs'
  end.

(** [el.innerText = s] *)
Definition set_innerText (s : string) (n : node) : node :=
  set_children (text_fragment [] (Str.chars s)) n.

(** [textContent]: the text of the node and its descendants. *)
Fixpoint textContent (n : node) : string :=
  match n with
  | Text data => data
  | Element _ _ _ _ cs => String.concat "" (map textContent cs)
  end.

Section first.
Context {A B : Type} (g : A -> option B).

(** The first success of [g] along a list. *)
Fixpoint first_some (l : list A) : option B :=
  match l with
  | [] => None
  | x :: l' =>
      match g x with
      | Some r => Some r
      | None => first_some l'
      end
  end.
End first.

Section update.
Context {A : Type} (g : A -> option A).

(** Replace the first element on which [g] succeeds by its result. *)
Fixpoint update_in (l : list A) : option (list A) :=
  match l with
  | [] => None
  | x :: l' =>
      match g x with
      | Some x' => Some (x' :: l')
      | None =>
          match update_in l' with
          | Some l'' => Some (x :: l'')
          | None => None
          end
      end
  end.
End update.

(** The first node in tree order that satisfies [p]. *)
Fixpoint find_node (p : node -> bool) (n : node) : option node :=
  if p n then Some n
  else match n with
       | Text _ => None
       | Element _ _ _ _ cs => first_some (find_node p) cs
       end.

(** The tree with [f] applied to the first node in tree order that
    satisfies [p]: the mutation of an element through its reference. *)
Fixpoint update_node (p : node -> bool) (f : node -> node) (n : node) : option node :=
  if p n then Some (f n)
  else match n with
       | Text _ => None
       | Element t ps ck h cs =>
           match update_in (update_node p f) cs with
           | Some cs' => Some (Element t ps ck h cs')
           | None => None
           end
       end.

Definition has_id (i : string) (n : node) : bool :=
  match prop "id" n with
  | Some v => String.eqb v i
  | None => false
  end.

(** [document.getElementById(i)]; [None] is [null]. *)
Definition getElementById (i : string) (doc : document) : option node :=
  first_some (find_node (has_id i)) doc.

(** The document after the mutation [f] of the element
    [document.getElementById(i)]; [None] when there is no such element. *)
Definition mutateById (i : string) (f : node -> node) (doc : document)
  : option document :=
  update_in (update_node (has_id i) f) doc.

(** All nodes in tree order. *)
Fixpoint nodes (n : node) : list node :=
  n :: match n with
       | Text _ => []
       | Element _ _ _ _ cs => flat_map nodes cs
       end.

Definition all_nodes (doc : document) : list node := flat_map nodes doc.

(** *** Selectors *)

Definition SELECTOR_PREFIX : string :=
  "input[name=" +:+ String dquote EmptyString.
Definition SELECTOR_SUFFIX : string :=
  String dquote EmptyString +:+ "]:checked".

Fixpoint strip_prefix (pre s : list ascii) : option (list ascii) :=
  match pre, s with
  | [], _ => Some s
  | p :: pre', c :: s' => if Ascii.eqb p c then strip_prefix pre' s' else None
  | _ :: _, [] => None
  end.

(** The characters up to the closing quote of a CSS string and the rest
    from that quote on; [None] when a backslash or a line break comes
    first, or when there is no closing quote. *)
Fixpoint css_string_body (s : list ascii) : option (list ascii * list ascii) :=
  match s with
  | [] => None
  | c :: s' =>
      if Ascii.eqb c dquote then Some ([], s)
      else if Ascii.eqb c "\" || Ascii.eqb c "010" || Ascii.eqb c "012"
              || Ascii.eqb c "013" then None
      else match css_string_body s' with
           | Some (body, rest) => Some (c :: body, rest)
           | None => None
           end
  end.

(** What the model makes of a selector text.  The CSS parser reads the
    character U+0000 as U+FFFD, so a quoted name that holds it is the name
    of no element of the page of the model, whose names have code units
    below 256. *)
Inductive selector :=
| CheckedInputNamed (name : string)   (* input[name="N"]:checked *)
| CheckedInputReplaced                (* the same, with U+0000 in N *)
| InvalidSelector                     (* not a selector: [querySelector] throws *)
| OtherSelector.                      (* a text that the model does not read *)

Definition is_nul (c : ascii) : bool := Ascii.eqb c "000".

Definition is_letter (c : ascii) : bool :=
  ((65 <=? code c)%N && (code c <=? 90)%N) || ((97 <=? code c)%N && (code c <=? 122)%N).

(** The letters of the modifiers [i] and [s] of an attribute selector. *)
Definition modifier_letter (c : ascii) : bool :=
  match c with
  | "i" | "I" | "s" | "S" => true
  | _ => false
  end%char.

(** After the closing quote of the value of an attribute selector only a
    modifier, [i] or [s], or the closing bracket may follow: with another
    letter there the text is not a selector. *)
Definition after_value (rest : list ascii) : selector :=
  match rest with
  | q :: c :: _ =>
      if Ascii.eqb q dquote && is_letter c && negb (modifier_letter c)
      then InvalidSelector else OtherSelector
  | _ => OtherSelector
  end.

(** The selector texts of the form [input[name="N"]:checked] are read,
    and some texts that are not selectors are recognised as such. *)
Definition read_selector (sel : string) : selector :=
  match strip_prefix (Str.chars SELECTOR_PREFIX) (Str.chars sel) with
  | Some s =>
      match css_string_body s with
      | Some (body, rest) =>
          if String.eqb (Str.of_chars rest) SELECTOR_SUFFIX
          then if existsb is_nul body then CheckedInputReplaced
               else CheckedInputNamed (Str.of_chars body)
          else after_value rest
      | None => OtherSelector
      end
  | None => OtherSelector
  end.

(** An [input] element that [:checked] matches (a checked radio button
    or checkbox) whose [name] attribute is [name]. *)
Definition checked_input_named (name : string) (n : node) : bool :=
  match n with
  | Text _ => false
  | Element t ps ck _ _ =>
      String.eqb t "input"
      && match lookup_attr "type" ps with
         | Some ty => String.eqb ty "radio" || String.eqb ty "checkbox"
         | None => false
         end
      && ck
      && match lookup_attr "name" ps with
         | Some v => String.eqb v name
         | None => false
         end
  end.

(** [document.querySelector(sel)] for the form of selector that quiz.js
    builds: the first checked input of the name in tree order, and none
    for a name with U+0000.  For a text that is not a selector the call
    throws; a text that the model does not read is outside the model. *)
Definition querySelector (sel : string) (doc : document) : completion (option node) :=
  match read_selector sel with
  | CheckedInputNamed name =>
      Normal (first_some (find_node (checked_input_named name)) doc)
  | CheckedInputReplaced => Normal None
  | InvalidSelector => Throw SyntaxError
  | OtherSelector => Unmodelled
  end.

(** [el.value] of a radio button or checkbox: the attribute, or "on". *)
Definition input_value (n : node) : string :=
  match prop "value" n with
  | Some v => v
  | None => "on"
  end.

(** *** parseInt *)

(** White space that [parseInt] skips. *)
Definition is_str_ws (c : ascii) : bool :=
  match c with
  | "009" | "010" | "011" | "012" | "013" | " " | "160" => true
  | _ => false
  end%char.

Fixpoint skip_ws (cs : list ascii) : list ascii :=
  match cs with
  | c :: cs' => if is_str_ws c then skip_ws cs' else cs
  | [] => []
  end.

(** The value of the longest prefix of digits of the radix; [None] when
    that prefix is empty. *)
Fixpoint radix_digits (radix : N) (acc : option N) (cs : list ascii) : option N :=
  match cs with
  | [] => acc
  | c :: cs' =>
      match hex_of c with
      | Some d =>
          if (d <? radix)%N
          then radix_digits radix (Some (radix * default 0%N acc + d)%N) cs'
          else acc
      | None => acc
      end
  end.

Definition parse_magnitude (cs : list ascii) : option N :=
  match cs with
  | "0"%char :: x :: cs' =>
      if Ascii.eqb x "x" || Ascii.eqb x "X" then radix_digits 16 None cs'
      else radix_digits 10 None cs
  | _ => radix_digits 10 None cs
  end.

(** [parseInt(s)]; [None] is [NaN]. *)
Definition parseInt (s : string) : option Z :=
  match skip_ws (Str.chars s) with
  | "-"%char :: cs => option_map (fun n => (- Z.of_N n)%Z) (parse_magnitude cs)
  | "+"%char :: cs => option_map Z.of_N (parse_magnitude cs)
  | cs => option_map Z.of_N (parse_magnitude cs)
  end.

(** *** The scripts *)

Definition QUIZ_AREA : string := "quiz-area".

Definition decimal_nat (n : nat) : string := Str.of_chars (decimal_N (N.of_nat n)).

(** The nodes of
    [<div class='small'>No quiz questions found for this selection.</div>]. *)
Definition NO_QUESTIONS : list node :=
  [Element "div" [("className", "small")] false None
     [Text "No quiz questions found for this selection."]].

(** The label of one option of a question. *)
Definition render_option (q : QuizQuestion) (opt : string) : node :=
  let i := id q +:+ "-" +:+ opt in
  let label := createElement "label" in
  let label := set_prop "style.display" "block" label in
  let label := set_prop "style.marginBottom" "6px" label in
  let inp := createElement "input" in
  let inp := set_prop "type" "radio" inp in
  let inp := set_prop "name" (id q) inp in
  let inp := set_prop "value" opt inp in
  let inp := set_prop "id" i inp in
  let label := appendChild inp label in
  let span := createElement "span" in
  let span := set_prop "style.marginLeft" "8px" span in
  let span := set_innerText opt span in
  appendChild span label.

(** The card of the question at index [idx]. *)
Definition render_question (idx : nat) (q : QuizQuestion) : node :=
  let qbox := createElement "div" in
  let qbox := set_prop "className" "card" qbox in
  let qtitle := createElement "div" in
  let qtitle := set_prop "className" "title" qtitle in
  let qtitle := set_innerText (decimal_nat (idx + 1) +:+ ". " +:+ question q) qtitle in
  let qbox := appendChild qtitle qbox in
  let desc := createElement "div" in
  let desc := set_prop "className" "small" desc in
  let desc := set_prop "style.marginBottom" "8px" desc in
  let desc := set_innerText (default "" (description q)) desc in
  let qbox := appendChild desc qbox in
  let qbox := fold_left (fun qbox opt => appendChild (render_option q opt) qbox)
                (options q) qbox in
  set_prop "dataset.correct" (Str.of_chars (number_text (correct q))) qbox.

Definition render_form (qs : list QuizQuestion) : node :=
  let form := createElement "form" in
  let form := set_prop "id" "quizForm" form in
  let form := fold_left (fun form iq => appendChild (render_question (fst iq) (snd iq)) form)
                (imap (fun i q => (i, q)) qs) form in
  let submit := createElement "button" in
  let submit := set_prop "type" "button" submit in
  let submit := set_prop "className" "primary" submit in
  let submit := set_innerText "Submit Quiz" submit in
  let submit := set_onclick (GradeOnClick qs) submit in
  appendChild submit form.

(** [renderQuiz(questions)] *)
Definition renderQuiz (qs : list QuizQuestion) (doc : document) : document :=
  let render container :=
    let container := set_children [] container in
    if Nat.eqb (List.length qs) 0 then set_children NO_QUESTIONS container
    else appendChild (render_form qs) container in
  match mutateById QUIZ_AREA render doc with
  | Some doc' => doc'
  | None => doc
  end.

(** The body of the loop of [gradeQuiz]: the score after question [q],
    with [document.querySelector] as [query].  The test
    [parseInt(sel.value) === q.correct] is the equality of integers when
    [q.correct] is a safe integer: digits that read as a larger number do
    not round to a safe one.  With another [q.correct] the test is outside
    the model. *)
Definition grade_step_with (query : string -> document -> completion (option node))
  (doc : document) (score : nat) (q : QuizQuestion) : completion nat :=
  sel ← query (SELECTOR_PREFIX +:+ id q +:+ SELECTOR_SUFFIX) doc;
  match sel with
  | Some el =>
      match parseInt (input_value el) with
      | Some n =>
          if safe_integer (correct q) then
            if Z.eqb n (correct q) then Normal (score + 1) else Normal score
          else Unmodelled
      | None => Normal score
      end
  | None => Normal score
  end.

Definition grade_step : document -> nat -> QuizQuestion -> completion nat :=
  grade_step_with querySelector.

(** [forEach] with the variables the body assigns as state. *)
Fixpoint forEach {S A} (body : S -> A -> completion S) (s : S) (l : list A)
  : completion S :=
  match l with
  | [] => Normal s
  | x :: l' => s' ← body s x; forEach body s' l'
  end.

(** The nodes of the markup of the result card. *)
Definition score_card (score total : nat) : list node :=
  [Element "div" [("className", "title")] false None
     [Text ("Your score: " +:+ decimal_nat score +:+ " / " +:+ decimal_nat total)];
   Text (String newline "                   ");
   Element "div" [("className", "small")] false None
     [Text "You can try again or export results."]].

Definition result_card (score total : nat) : node :=
  let out := createElement "div" in
  let out := set_prop "className" "card" out in
  set_children (score_card score total) out.

(** [gradeQuiz(questions)], with [document.querySelector] as [query]. *)
Definition gradeQuiz_with (query : string -> document -> completion (option node))
  (qs : list QuizQuestion) (doc : document) : completion document :=
  score ← forEach (grade_step_with query doc) 0 qs;
  let out := result_card score (List.length qs) in
  match mutateById QUIZ_AREA (appendChild out) doc with
  | Some doc' => Normal doc'
  | None => Throw TypeError      (* container is null *)
  end.

Definition gradeQuiz : list QuizQuestion -> document -> completion document :=
  gradeQuiz_with querySelector.

(** What [fetch] resolves to, and what [res.json()] resolves to. *)
Record response := { ok : bool; json : completion QuizResponse }.

Record request := { path : string; searchParams : list (string * string) }.

(** The request of [loadQuiz(mmdd, count)]; [None] for an argument left
    out. *)
Definition quiz_request (mmdd : option string) (count : option Z) : request :=
  let count := default 5%Z count in
  let params := [] in
  let params :=
    match mmdd with
    | Some (String _ _ as m) => assign "mmdd" m params
    | _ => params
    end in
  let params := assign "count" (Str.of_chars (number_text count)) params in
  {| path := "/api/quiz"; searchParams := params |}.

Definition COULD_NOT_LOAD : string := "Could not load quiz.".

(** [loadQuiz(mmdd, count)] on a page [doc], with the network as the
    function [fetch]. *)
Definition loadQuiz (fetch : request -> completion response)
  (mmdd : option string) (count : option Z) (doc : document)
  : completion document :=
  res ← fetch (quiz_request mmdd count);
  if negb (ok res) then
    match mutateById QUIZ_AREA (set_innerText COULD_NOT_LOAD) doc with
    | Some doc' => Normal doc'
    | None => Throw TypeError
    end
  else
    data ← json res;
    Normal (renderQuiz (default [] (questions data)) doc).

(** *** Notions of the specification *)

(** A question of the model: its [correct] is a safe integer. *)
Definition modelled (q : QuizQuestion) : bool := safe_integer (correct q).

(** A name that the selector of [gradeQuiz] can quote: no double quote,
    backslash or line break. *)
Definition plain_char (c : ascii) : bool :=
  negb (Ascii.eqb c dquote || Ascii.eqb c "\" || Ascii.eqb c "010"
        || Ascii.eqb c "012" || Ascii.eqb c "013").

Definition plain_name (s : string) : bool := forallb plain_char (Str.chars s).

(** A name that the selector of [gradeQuiz] quotes as it is: one that it
    can quote and that holds no U+0000. *)
Definition quotable (s : string) : bool :=
  plain_name s && negb (existsb is_nul (Str.chars s)).

(** The group of a checked radio button or checkbox: its name. *)
Definition checked_name (n : node) : option string :=
  match n with
  | Text _ => None
  | Element t ps ck _ _ =>
      if String.eqb t "input"
         && match lookup_attr "type" ps with
            | Some ty => String.eqb ty "radio" || String.eqb ty "checkbox"
            | None => false
            end
         && ck
      then lookup_attr "name" ps else None
  end.

(** Exclusive choice: no two checked inputs of the page share a name. *)
Definition exclusive (doc : document) : Prop :=
  NoDup (omap checked_name (all_nodes doc)).

(** The page holds a checked input of the group of [q] whose value reads
    as the correct answer of [q]. *)
Definition selected_correct (doc : document) (q : QuizQuestion) : bool :=
  existsb (fun n => checked_input_named (id q) n
                    && bool_decide (parseInt (input_value n) = Some (correct q)))
    (all_nodes doc).

(** The same, for a question whose selector can name an element of the
    page: one whose id holds no U+0000. *)
Definition counted (doc : document) (q : QuizQuestion) : bool :=
  negb (existsb is_nul (Str.chars (id q))) && selected_correct doc q.


(** A test that looks at the tag, the properties and the state of a node
    only, not at its children. *)
Definition shallow (p : node -> bool) : Prop :=
  forall t ps ck h cs cs', p (Element t ps ck h cs) = p (Element t ps ck h cs').

(** Neither an input, nor a button, nor a node with a click handler. *)
Definition inert (n : node) : bool :=
  match n with
  | Text _ => true
  | Element t _ _ h _ =>
      negb (String.eqb t "input") && negb (String.eqb t "button")
      && match h with None => true | Some _ => false end
  end.

End Quiz.

(* ===================================================================== *)
(** ** main.js: the date field                                            *)
(* ===================================================================== *)

Module Today.
Import Quiz.

(** An element that the test [matches] accepts: a selector matches
    elements, never a text node. *)
Definition element_matching (matches : node -> bool) (n : node) : bool :=
  match n with
  | Text _ => false
  | Element _ _ _ _ _ => matches n
  end.

Definition all_digits (s : string) : bool :=
  match Str.chars s with
  | [] => false
  | cs => forallb (fun c => match Json.digit_of c with Some _ => true | None => false end) cs
  end.

Definition number_of (s : string) : N :=
  default 0%N (Json.digits_value 0 (Str.chars s)).

Definition days_in_month (year month : N) : N :=
  match month with
  | 2 => if ((year mod 4 =? 0) && negb (year mod 100 =? 0)) || (year mod 400 =? 0)
         then 29 else 28
  | 4 | 6 | 9 | 11 => 30
  | _ => 31
  end%N.

(** A valid date string of HTML: a year of four or more digits that is
    not 0, a month of two digits and a day of two digits of that month. *)
Definition valid_date_string (s : string) : bool :=
  match Str.split "-" s with
  | [y; m; d] =>
      all_digits y && Nat.leb 4 (String.length y) && (0 <? number_of y)%N
      && all_digits m && Nat.eqb (String.length m) 2
      && (1 <=? number_of m)%N && (number_of m <=? 12)%N
      && all_digits d && Nat.eqb (String.length d) 2
      && (1 <=? number_of d)%N
      && (number_of d <=? days_in_month (number_of y) (number_of m))%N
  | _ => false
  end.

Definition is_line_break (c : ascii) : bool :=
  Ascii.eqb c "010" || Ascii.eqb c "013".

Definition strip_line_breaks (s : string) : string :=
  Str.of_chars (List.filter (fun c => negb (is_line_break c)) (Str.chars s)).

(** [el.value = v] and the value that [el.value] reads afterwards.  A
    date field keeps a valid date string and takes the empty string for
    another text; a text field, which an input without a type is, keeps
    the text without its line breaks.  What another element makes of the
    assignment is outside the model. *)
Definition assign_value (v : string) (el : node) : completion node :=
  match el with
  | Text _ => Unmodelled
  | Element t ps _ _ _ =>
      if String.eqb t "input" then
        match lookup_attr "type" ps with
        | None => Normal (set_prop "value" (strip_line_breaks v) el)
        | Some ty =>
            if String.eqb ty "date"
            then Normal (set_prop "value" (if valid_date_string v then v else "") el)
            else if String.eqb ty "text"
            then Normal (set_prop "value" (strip_line_breaks v) el)
            else Unmodelled
        end
      else Unmodelled
  end.

(** [setDateToTodayInput(selector)].  [css] reads a selector text as the
    test of a single element that it denotes (a type, id, class or
    attribute selector), [None] for a text that is no selector, with which
    [document.querySelector] throws; [now] is [new Date().toISOString()].
    The element found is the first in tree order. *)
Definition setDateToTodayInput (css : string -> option (node -> bool))
  (selector now : string) (doc : document) : completion document :=
  match css selector with
  | None => Throw SyntaxError
  | Some matches =>
      match first_some (find_node (element_matching matches)) doc with
      | None => Normal doc
      | Some el =>
          let today := Str.slice0 10 now in
          el' ← assign_value today el;
          match update_in (update_node (element_matching matches) (fun _ => el')) doc with
          | Some doc' => Normal doc'
          | None => Normal doc
          end
      end
  end.

End Today.

(* ===================================================================== *)
(** ** Notions for the statements about the page and the store           *)
(* ===================================================================== *)

Module Page.
Import Quiz.

(** A node without its children: its tag, properties, state and handler. *)
Definition shell (n : node) : node := set_children [] n.

(** The nodes [after] are the nodes [before] with the subtree of [x], the
    first node that satisfies [p], replaced by the subtree of [y]: before
    it and behind it the same nodes stand in the same order. *)
Definition subtree_replaced (p : node -> bool) (x y : node)
  (before after : list node) : Prop :=
  exists pre post,
    map shell before = pre ++ map shell (nodes x) ++ post
    /\ map shell after = pre ++ map shell (nodes y) ++ post
    /\ Forall (fun n => p n = false) pre.

(** The content that [renderQuiz] gives the quiz area. *)
Definition quiz_content (qs : list QuizQuestion) : list node :=
  if Nat.eqb (List.length qs) 0 then NO_QUESTIONS else [render_form qs].

(** The radio button of an option, as [renderQuiz] makes it. *)
Definition option_input (q : QuizQuestion) (opt : string) : node :=
  Element "input"
    [("type", "radio"); ("name", id q); ("value", opt); ("id", id q +:+ "-" +:+ opt)]
    false None [].

(** The submit button, as [renderQuiz] makes it. *)
Definition submit_button (qs : list QuizQuestion) : node :=
  Element "button" [("type", "button"); ("className", "primary")] false
    (Some (GradeOnClick qs)) [Text "Submit Quiz"].

Definition active (n : node) : bool := negb (inert n).

(** An input element of type date. *)
Definition date_input (el : node) : bool :=
  match el with
  | Text _ => false
  | Element t ps _ _ _ =>
      String.eqb t "input"
      && match lookup_attr "type" ps with
         | Some ty => String.eqb ty "date"
         | None => false
         end
  end.

End Page.

Module Store.
Import Json Bookmarks.

(** The storage after calls of [addBookmark] with the records, one after
    the other. *)
Definition add_all (records : list value) (localStorage : gmap string string)
  : gmap string string :=
  fold_left (fun st e => snd (addBookmark e st)) records localStorage.

(** What [replace(/[xy]/g, "-")] makes of a character. *)
Definition hyphen_for (cls : ascii -> bool) (c : ascii) : ascii :=
  if cls c then "-"%char else c.

End Store.

(* ===================================================================== *)
(** ** Sample data                                                        *)
(* ===================================================================== *)

Module Examples.
Import Json Bookmarks Quiz.

Definition year_question : QuizQuestion :=
  {| id := "q1"; question := "Year?"; description := None;
     options := ["1"; "2"]; correct := 2 |}.

Definition radio (name value : string) (checked : bool) : node :=
  Element "input" [("type", "radio"); ("name", name); ("value", value)]
    checked None [].

(** A quiz area in which the second option of question q1 is chosen. *)
Definition answered_area : node :=
  Element "div" [("id", "quiz-area")] false None
    [radio "q1" "1" false; radio "q1" "2" true].

Definition stale_area : node :=
  Element "div" [("id", "quiz-area")] false None [Text "old"].

Definition failed_response : response :=
  {| ok := false; json := Normal {| questions := None |} |}.




(** A question whose id holds U+0000, and a page on which its correct
    option is chosen. *)
Definition nul_id : string := String "a" (String "000" "b").

Definition nul_question : QuizQuestion :=
  {| id := nul_id; question := "Year?"; description := None;
     options := ["1"; "2"]; correct := 2 |}.

Definition nul_area : node :=
  Element "div" [("id", "quiz-area")] false None
    [radio nul_id "1" false; radio nul_id "2" true].

(** A quiz area with two checked boxes of the name q1. *)
Definition checkbox (name value : string) (checked : bool) : node :=
  Element "input" [("type", "checkbox"); ("name", name); ("value", value)]
    checked None [].

Definition two_checked_area : node :=
  Element "div" [("id", "quiz-area")] false None
    [checkbox "q1" "1" true; checkbox "q1" "2" true].

Definition moon : value :=
  JObj [("title", JStr "Moon landing"); ("date", JStr "07-20")].

Definition moon_again : value :=
  JObj [("title", JStr "Moon landing"); ("date", JStr "07-20"); ("year", JNum 1969)].

Definition sputnik : value :=
  JObj [("title", JStr "Sputnik"); ("date", JStr "10-04")].

(** A storage that holds the list with the one record [moon]. *)
Definition moon_stored : gmap string string := saveBookmarks (JArr [moon]) ∅.

(** A storage whose list holds a null entry, and one that holds a number. *)
Definition null_stored : gmap string string := saveBookmarks (JArr [moon; JNull]) ∅.



(** The numeral of 10^400, a number that is too large for binary64, and
    a record that holds it: as it is read, and as it is written. *)
Definition huge : string := Str.of_chars ("1"%char :: repeat "0"%char 400).





(** A storage whose list holds the number 10^400. *)
Definition huge_stored : gmap string string :=
  {[ BOOKMARK_KEY := "[" +:+ huge +:+ "]" ]}.

Definition number_stored : gmap string string := {[ BOOKMARK_KEY := "5" ]}.

(** The page of a quiz of one question, as rendered. *)
Definition rendered_page : document := renderQuiz [year_question] [stale_area].

(** A date field, and the reading of the selectors [#id]. *)
Definition date_field : node :=
  Element "input" [("type", "date"); ("id", "date")] false None [].

Definition by_id (selector : string) : option (node -> bool) :=
  match selector with
  | String "#" i => Some (has_id i)
  | _ => None
  end.

End Examples.

(* ===================================================================== *)
(** * Properties                                                          *)
(* ===================================================================== *)

Import Json Bookmarks Quiz DateUtil Examples.
Import Today Page Store.

(** ** Strings *)

Section StringFacts.

Lemma of_chars_chars (s : string) : Str.of_chars (Str.chars s) = s.
Proof. apply string_of_list_ascii_of_string. Qed.

Lemma chars_of_chars (l : list ascii) : Str.chars (Str.of_chars l) = l.
Proof. apply list_ascii_of_string_of_list_ascii. Qed.

Lemma chars_app (s t : string) : Str.chars (s +:+ t) = Str.chars s ++ Str.chars t.
Proof. induction s as [|c s IH]; simpl; [done | by rewrite <- IH]. Qed.

Lemma of_chars_app (l m : list ascii) :
  Str.of_chars (l ++ m) = Str.of_chars l +:+ Str.of_chars m.
Proof. induction l as [|c l IH]; simpl; [done | by rewrite IH]. Qed.

Lemma length_of_chars (l : list ascii) : String.length (Str.of_chars l) = length l.
Proof. induction l as [|c l IH]; simpl; [done | by rewrite IH]. Qed.

Lemma length_append (s t : string) :
  String.length (s +:+ t) = String.length s + String.length t.
Proof. induction s as [|c s IH]; simpl; [done | by rewrite IH]. Qed.

Lemma split_nonempty (sep : ascii) (s : string) : Str.split sep s <> [].
Proof.
  destruct s as [|c s]; simpl; [done |].
  destruct (Ascii.eqb c sep); [done |]. by destruct (Str.split sep s).
Qed.

(** [split] undoes [join]: the parts, put together again with the
    separator, are the string. *)
Lemma split_concat (sep : ascii) (s : string) :
  String.concat (String sep EmptyString) (Str.split sep s) = s.
Proof.
  induction s as [|c s IH]; [done |].
  pose proof (split_nonempty sep s) as Hne.
  cbn [Str.split]. destruct (Ascii.eqb_spec c sep) as [-> | Hc].
  - destruct (Str.split sep s) as [|p ps]; [done |].
    cbn [String.concat]. cbn [String.concat] in IH. by rewrite IH.
  - destruct (Str.split sep s) as [|p ps]; [done |].
    cbn [String.concat] in *. destruct ps; simpl; by rewrite <- IH.
Qed.

(** No part holds the separator. *)
Lemma split_parts (sep : ascii) (s : string) :
  Forall (fun p => ~ In sep (Str.chars p)) (Str.split sep s).
Proof.
  induction s as [|c s IH]; simpl.
  - repeat constructor. simpl. tauto.
  - destruct (Ascii.eqb_spec c sep) as [-> | Hne].
    + constructor; [simpl; tauto | done].
    + destruct (Str.split sep s) as [|p ps]; [repeat constructor; simpl; intuition |].
      inversion IH; subst. constructor; [|done]. simpl. intuition.
Qed.

Lemma filler_zero (n : nat) : Str.filler n "0" = repeat "0"%char n.
Proof.
  unfold Str.filler. simpl.
  assert (H : concat (repeat ["0"%char] n) = repeat "0"%char n).
  { induction n as [|n IH]; simpl; [done | by rewrite IH]. }
  rewrite H. apply firstn_all2. by rewrite repeat_length.
Qed.

(** Padding with zeros to width 2: nothing for two characters or more,
    one zero for one character, two zeros for none. *)
Lemma padStart_zero (s : string) :
  Str.padStart 2 "0" s = Str.of_chars (repeat "0"%char (2 - String.length s)) +:+ s.
Proof.
  unfold Str.padStart. destruct (Nat.leb_spec 2 (String.length s)) as [H | H].
  - by replace (2 - String.length s) with 0 by lia.
  - by rewrite filler_zero.
Qed.

Lemma padStart_zero_length (s : string) :
  String.length (Str.padStart 2 "0" s) = Nat.max 2 (String.length s).
Proof.
  rewrite padStart_zero, length_append, length_of_chars, repeat_length. lia.
Qed.

End StringFacts.

(** ** main.js *)

Section DateUtilFacts.

(** C2, as the code has it.  [mmddFromDateInput] returns null for null
    and for the empty string, and for a string of fewer than three
    hyphen-separated parts.  For a string of at least three parts it
    returns the second and the third part, each padded with zeros at the
    front to width 2 and never shortened, with a hyphen between them:
    five characters exactly when both parts have at most two. *)
Theorem mmddFromDateInput_spec (dateVal : option string) :
  (dateVal = None \/ dateVal = Some EmptyString -> mmddFromDateInput dateVal = None)
  /\ (forall s, dateVal = Some s -> length (Str.split "-" s) < 3 ->
      mmddFromDateInput dateVal = None)
  /\ (forall s yyyy mm dd rest,
        dateVal = Some s -> Str.split "-" s = yyyy :: mm :: dd :: rest ->
        mmddFromDateInput dateVal
        = Some (Str.padStart 2 "0" mm +:+ "-" +:+ Str.padStart 2 "0" dd)
        /\ Str.padStart 2 "0" mm
           = Str.of_chars (repeat "0"%char (2 - String.length mm)) +:+ mm
        /\ Str.padStart 2 "0" dd
           = Str.of_chars (repeat "0"%char (2 - String.length dd)) +:+ dd
        /\ String.length (Str.padStart 2 "0" mm +:+ "-" +:+ Str.padStart 2 "0" dd)
           = Nat.max 2 (String.length mm) + 1 + Nat.max 2 (String.length dd)
        /\ (String.length (Str.padStart 2 "0" mm +:+ "-" +:+ Str.padStart 2 "0" dd) = 5
            <-> String.length mm <= 2 /\ String.length dd <= 2)).
Proof.
  split; [|split].
  - by intros [-> | ->].
  - intros s -> Hlen. destruct s as [|c s]; [done |].
    unfold mmddFromDateInput.
    destruct (Nat.leb_spec 3 (length (Str.split "-" (String c s)))); [lia | done].
  - intros s yyyy mm dd rest -> Hsplit.
    assert (Hlen : String.length (Str.padStart 2 "0" mm +:+ "-"
                                  +:+ Str.padStart 2 "0" dd)
                   = Nat.max 2 (String.length mm) + 1 + Nat.max 2 (String.length dd)).
    { rewrite !length_append, !padStart_zero_length. simpl. lia. }
    split; [|split; [|split; [|split]]]; try apply padStart_zero; [|done | lia].
    destruct s as [|c s]; [done |].
    unfold mmddFromDateInput. by rewrite Hsplit.
Qed.

Lemma mmddFromDateInput_spec_witness :
  mmddFromDateInput (Some "2024-3-7") = Some "03-07"
  /\ mmddFromDateInput (Some "2024-03") = None
  /\ mmddFromDateInput (Some EmptyString) = None.
Proof.
  destruct (mmddFromDateInput_spec (Some "2024-3-7")) as (_ & _ & H3).
  destruct (H3 "2024-3-7" "2024" "3" "7" [] eq_refl eq_refl) as (H & _).
  destruct (mmddFromDateInput_spec (Some "2024-03")) as (_ & H2 & _).
  destruct (mmddFromDateInput_spec (Some EmptyString)) as (H1 & _ & _).
  split; [exact H | split].
  - apply (H2 "2024-03" eq_refl). simpl. lia.
  - apply H1. by right.
Defined.

(** C2, as stated, fails: "2024-123-07" splits into three parts, and
    the result is neither a string of five characters nor null. *)
Lemma mmddFromDateInput_long_part :
  3 <= length (Str.split "-" "2024-123-07")
  /\ mmddFromDateInput (Some "2024-123-07") = Some "123-07"
  /\ String.length "123-07" <> 5
  /\ mmddFromDateInput (Some "2024-123-07") <> None.
Proof. repeat split; [simpl; lia | done | done]. Qed.

End DateUtilFacts.

(** ** The page: search and mutation *)

Section DomFacts.

Lemma shallow_has_id (i : string) : shallow (has_id i).
Proof. by intros t ps ck h cs cs'. Qed.

Lemma find_app_first {A} (p : A -> bool) (l m : list A) :
  List.find p (l ++ m)
  = match List.find p l with Some x => Some x | None => List.find p m end.
Proof. induction l as [|a l IH]; simpl; [done |]. by destruct (p a). Qed.

(** Searching the tree is searching the list of its nodes in tree order. *)
Lemma find_node_nodes (p : node -> bool) (n : node) :
  find_node p n = List.find p (nodes n).
Proof.
  induction n as [data | t ps ck h cs IH] using node_ind.
  - simpl. by destruct (p (Text data)).
  - cbn [find_node nodes List.find]. destruct (p (Element t ps ck h cs)); [done |].
    induction IH as [|c cs Hc _ IHcs]; [done |].
    cbn [first_some flat_map]. rewrite find_app_first, <- Hc, <- IHcs.
    by destruct (find_node p c).
Qed.

Lemma first_some_all_nodes (p : node -> bool) (doc : document) :
  first_some (find_node p) doc = List.find p (all_nodes doc).
Proof.
  unfold all_nodes. induction doc as [|c cs IH]; [done |].
  cbn [first_some flat_map]. rewrite find_app_first, <- find_node_nodes, <- IH.
  by destruct (find_node p c).
Qed.

(** The mutated list: the first success of [g] is replaced, and a
    search [s] that agrees with [g] on failure finds the new element. *)
Lemma update_in_first {A B} (g : A -> option A) (s : A -> option B)
  (R : B -> B -> Prop) (l : list A) :
  Forall (fun a => match g a with
                   | Some a' => exists x, s a = Some x /\ exists y, s a' = Some y /\ R x y
                   | None => s a = None
                   end) l ->
  match update_in g l with
  | Some l' => exists x, first_some s l = Some x
                         /\ exists y, first_some s l' = Some y /\ R x y
  | None => first_some s l = None
  end.
Proof.
  induction 1 as [|a l Ha _ IH]; [done |].
  cbn [update_in first_some]. destruct (g a) as [a'|].
  - destruct Ha as (x & -> & y & Hy & HR). exists x. split; [done |].
    exists y. cbn [first_some]. by rewrite Hy.
  - rewrite Ha. destruct (update_in g l) as [l'|]; [|done].
    destruct IH as (x & Hx & y & Hy & HR). exists x. split; [done |].
    exists y. cbn [first_some]. by rewrite Ha.
Qed.

Lemma find_node_self (p : node -> bool) (n : node) :
  p n = true -> find_node p n = Some n.
Proof. intros H. destruct n; cbn [find_node]; by rewrite H. Qed.

Lemma update_node_find (p : node -> bool) (f : node -> node) (n : node) :
  shallow p -> (forall x, p x = true -> p (f x) = true) ->
  match update_node p f n with
  | Some n' => exists x, find_node p n = Some x
                         /\ exists y, find_node p n' = Some y /\ y = f x
  | None => find_node p n = None
  end.
Proof.
  intros Hsh Hf. induction n as [data | t ps ck h cs IH] using node_ind.
  - cbn [update_node find_node]. destruct (p (Text data)) eqn:E; [|done].
    exists (Text data). split; [done |]. exists (f (Text data)).
    split; [|done]. by apply find_node_self, Hf.
  - cbn [update_node find_node]. destruct (p (Element t ps ck h cs)) eqn:E.
    + exists (Element t ps ck h cs). split; [done |].
      exists (f (Element t ps ck h cs)). split; [|done].
      by apply find_node_self, Hf.
    + pose proof (update_in_first (update_node p f) (find_node p)
                    (fun x y => y = f x) cs IH) as H.
      destruct (update_in (update_node p f) cs) as [cs'|]; [|done].
      destruct H as (x & Hx & y & Hy & ->). exists x. split; [done |].
      exists (f x). split; [|done]. cbn [find_node].
      by rewrite <- (Hsh t ps ck h cs cs'), E.
Qed.

(** A mutation that keeps the id of the element: the element is found
    again, mutated; without such an element nothing is mutated. *)
Lemma mutateById_spec (i : string) (f : node -> node) (doc : document) :
  (forall x, has_id i x = true -> has_id i (f x) = true) ->
  match getElementById i doc with
  | Some x => exists doc', mutateById i f doc = Some doc'
                           /\ getElementById i doc' = Some (f x)
  | None => mutateById i f doc = None
  end.
Proof.
  intros Hf. unfold mutateById, getElementById.
  pose proof (update_in_first (update_node (has_id i) f) (find_node (has_id i))
                (fun x y => y = f x) doc) as H.
  destruct (update_in (update_node (has_id i) f) doc) as [doc'|].
  - destruct H as (x & -> & y & Hy & ->).
    + apply Forall_forall. intros n _.
      apply (update_node_find (has_id i) f n (shallow_has_id i) Hf).
    + by exists doc'.
  - rewrite H; [done |]. apply Forall_forall. intros n _.
    apply (update_node_find (has_id i) f n (shallow_has_id i) Hf).
Qed.

Lemma has_id_set_children (i : string) (cs : list node) (n : node) :
  has_id i (set_children cs n) = has_id i n.
Proof. by destruct n. Qed.

Lemma has_id_appendChild (i : string) (c n : node) :
  has_id i (appendChild c n) = has_id i n.
Proof. apply has_id_set_children. Qed.

Lemma has_id_set_innerText (i s : string) (n : node) :
  has_id i (set_innerText s n) = has_id i n.
Proof. apply has_id_set_children. Qed.

(** The element with an id is not a text node. *)
Lemma getElementById_element (i : string) (doc : document) (x : node) :
  getElementById i doc = Some x -> has_id i x = true /\ exists t ps ck h cs, x = Element t ps ck h cs.
Proof.
  unfold getElementById. rewrite first_some_all_nodes. intros H.
  apply find_some in H as [_ H]. split; [done |].
  destruct x as [|t ps ck h cs]; [done | by eauto 6].
Qed.

End DomFacts.

(** ** quiz.js *)

Section QuizFacts.

(** *** Loading and rendering *)

(** C7.  When the quiz API answers with a status that is not a success,
    [loadQuiz] replaces the content of the quiz area by the one text
    "Could not load quiz." and ends there: nothing of the body of the
    response is read, and no question is rendered. *)
Theorem loadQuiz_failed (fetch : request -> completion response)
  (mmdd : option string) (count : option Z) (doc : document)
  (res : response) (container : node) :
  fetch (quiz_request mmdd count) = Normal res ->
  ok res = false ->
  getElementById QUIZ_AREA doc = Some container ->
  exists doc',
    loadQuiz fetch mmdd count doc = Normal doc'
    /\ mutateById QUIZ_AREA (set_innerText COULD_NOT_LOAD) doc = Some doc'
    /\ getElementById QUIZ_AREA doc'
       = Some (set_children [Text "Could not load quiz."] container)
    /\ textContent (set_children [Text "Could not load quiz."] container)
       = "Could not load quiz."
    /\ forallb inert (flat_map nodes [Text "Could not load quiz."]) = true.
Proof.
  intros Hfetch Hok Hc.
  pose proof (mutateById_spec QUIZ_AREA (set_innerText COULD_NOT_LOAD) doc) as H.
  rewrite Hc in H. destruct H as (doc' & Hm & Hg).
  { intros x. by rewrite has_id_set_innerText. }
  exists doc'. unfold loadQuiz. rewrite Hfetch. cbn [mbind completion_bind Js.bind].
  rewrite Hok. cbn [negb]. rewrite Hm. repeat split; try done.
  apply getElementById_element in Hc as (_ & t & ps & ck & h & cs & ->). done.
Qed.

Lemma loadQuiz_failed_witness :
  exists doc',
    loadQuiz (fun _ => Normal failed_response) None None [stale_area] = Normal doc'
    /\ getElementById QUIZ_AREA doc'
       = Some (Element "div" [("id", "quiz-area")] false None
                 [Text "Could not load quiz."]).
Proof.
  destruct (loadQuiz_failed (fun _ => Normal failed_response) None None
              [stale_area] failed_response stale_area eq_refl eq_refl eq_refl)
    as (doc' & H1 & _ & H3 & _).
  exists doc'. split; [exact H1 | exact H3].
Defined.

(** C8.  For an empty sequence of questions [renderQuiz] replaces the
    content of the quiz area by the one notice "No quiz questions
    found for this selection."; the new content holds no input, no
    button and no click handler.  A response whose [questions] is the
    empty sequence is rendered so by [loadQuiz]. *)
Theorem renderQuiz_empty (doc : document) (container : node) :
  getElementById QUIZ_AREA doc = Some container ->
  getElementById QUIZ_AREA (renderQuiz [] doc)
  = Some (set_children
            [Element "div" [("className", "small")] false None
               [Text "No quiz questions found for this selection."]]
            container)
  /\ forallb inert (flat_map nodes NO_QUESTIONS) = true
  /\ (forall fetch mmdd count res,
        fetch (quiz_request mmdd count) = Normal res -> ok res = true ->
        json res = Normal {| questions := Some [] |} ->
        loadQuiz fetch mmdd count doc = Normal (renderQuiz [] doc)).
Proof.
  intros Hc. split; [|split; [done |]].
  - unfold renderQuiz. cbn [length Nat.eqb].
    pose proof (mutateById_spec QUIZ_AREA
                  (fun c => set_children NO_QUESTIONS (set_children [] c)) doc) as H.
    rewrite Hc in H. destruct H as (doc' & -> & ->).
    { intros x. by rewrite !has_id_set_children. }
    apply getElementById_element in Hc as (_ & t & ps & ck & h & cs & ->). done.
  - intros fetch mmdd count res Hfetch Hok Hjson. unfold loadQuiz.
    rewrite Hfetch. cbn [mbind completion_bind Js.bind]. rewrite Hok, Hjson. done.
Qed.

Lemma renderQuiz_empty_witness :
  getElementById QUIZ_AREA (renderQuiz [] [stale_area])
  = Some (Element "div" [("id", "quiz-area")] false None
            [Element "div" [("className", "small")] false None
               [Text "No quiz questions found for this selection."]]).
Proof. exact (proj1 (renderQuiz_empty [stale_area] stale_area eq_refl)). Defined.

(** Without a quiz area [renderQuiz] leaves the page as it is. *)
Lemma renderQuiz_no_container (qs : list QuizQuestion) (doc : document) :
  getElementById QUIZ_AREA doc = None -> renderQuiz qs doc = doc.
Proof.
  intros Hc. unfold renderQuiz.
  match goal with |- context [mutateById _ ?f _] =>
    pose proof (mutateById_spec QUIZ_AREA f doc) as H end.
  rewrite Hc in H. rewrite H; [done |].
  intros x. destruct (Nat.eqb (length qs) 0);
    by rewrite ?has_id_appendChild, !has_id_set_children.
Qed.

(** *** Grading *)

Lemma strip_prefix_app (pre rest : list ascii) :
  strip_prefix pre (pre ++ rest) = Some rest.
Proof.
  induction pre as [|c pre IH]; simpl; [by destruct rest |].
  by rewrite Ascii.eqb_refl.
Qed.

Lemma css_string_body_plain (body rest : list ascii) :
  forallb plain_char body = true ->
  css_string_body (body ++ dquote :: rest) = Some (body, dquote :: rest).
Proof.
  induction body as [|c body IH]; [done |].
  cbn [forallb app css_string_body]. intros [Hc Hb]%andb_true_iff.
  unfold plain_char in Hc. apply negb_true_iff in Hc.
  apply orb_false_iff in Hc as [Hc H5]. apply orb_false_iff in Hc as [Hc H4].
  apply orb_false_iff in Hc as [Hc H3]. apply orb_false_iff in Hc as [H1 H2].
  rewrite H1, H2, H3, H4, H5. cbn [orb]. by rewrite (IH Hb).
Qed.

(** The selector that [gradeQuiz] builds for a plain name selects by
    that name, and selects nothing of the page when the name holds
    U+0000. *)
Lemma read_selector_plain (name : string) :
  plain_name name = true ->
  read_selector (SELECTOR_PREFIX +:+ name +:+ SELECTOR_SUFFIX)
  = if existsb is_nul (Str.chars name) then CheckedInputReplaced
    else CheckedInputNamed name.
Proof.
  intros Hp. unfold read_selector. rewrite !chars_app, strip_prefix_app.
  change (Str.chars SELECTOR_SUFFIX) with (dquote :: Str.chars "]:checked").
  rewrite (css_string_body_plain _ _ Hp). by rewrite of_chars_chars.
Qed.

Lemma quotable_plain (name : string) :
  quotable name = true ->
  plain_name name = true /\ existsb is_nul (Str.chars name) = false.
Proof.
  unfold quotable. intros [H1 H2]%andb_true_iff. by apply negb_true_iff in H2.
Qed.

Lemma checked_input_named_name (name : string) (n : node) :
  checked_input_named name n = true <-> checked_name n = Some name.
Proof.
  destruct n as [|t ps ck h cs]; [done |]. cbn [checked_input_named checked_name].
  destruct (String.eqb t "input"
            && match lookup_attr "type" ps with
               | Some ty => String.eqb ty "radio" || String.eqb ty "checkbox"
               | None => false
               end && ck); cbn [andb]; [|done].
  destruct (lookup_attr "name" ps) as [v|]; [|done].
  rewrite String.eqb_eq. split; [by intros -> | by intros [= ->]].
Qed.

(** Under exclusive choice the first checked input of a group is the
    only one. *)
Lemma exclusive_only (l : list node) (name : string) (el n : node) :
  NoDup (omap checked_name l) ->
  List.find (checked_input_named name) l = Some el ->
  In n l -> checked_input_named name n = true -> n = el.
Proof.
  induction l as [|a l IH]; [done |].
  cbn [omap list_omap List.find]. intros Hnd Hfind Hin Hn.
  destruct (checked_input_named name a) eqn:Ha.
  - injection Hfind as <-. destruct Hin as [-> | Hin]; [done |].
    apply checked_input_named_name in Ha. rewrite Ha in Hnd.
    apply NoDup_cons in Hnd as [Hnot _]. exfalso. apply Hnot.
    apply list_elem_of_omap. exists n. split; [by apply list_elem_of_In |].
    by apply checked_input_named_name.
  - destruct Hin as [-> | Hin]; [congruence |].
    apply IH; try done. destruct (checked_name a); [|done].
    by apply NoDup_cons in Hnd as [_ Hnd].
Qed.

Lemma selected_correct_first (doc : document) (q : QuizQuestion) :
  exclusive doc ->
  selected_correct doc q
  = match List.find (checked_input_named (id q)) (all_nodes doc) with
    | Some el => bool_decide (parseInt (input_value el) = Some (correct q))
    | None => false
    end.
Proof.
  intros Hex. unfold selected_correct.
  destruct (List.find _ _) as [el|] eqn:Hfind.
  - destruct (bool_decide (parseInt (input_value el) = Some (correct q))) eqn:Hel.
    + apply existsb_exists. apply find_some in Hfind as [Hin Hc].
      exists el. by rewrite Hc, Hel.
    + apply not_true_is_false. intros (n & Hin & Hn)%existsb_exists.
      apply andb_true_iff in Hn as [Hc Hv].
      rewrite (exclusive_only _ _ _ _ Hex Hfind Hin Hc) in Hv. congruence.
  - apply not_true_is_false. intros (n & Hin & Hn)%existsb_exists.
    apply andb_true_iff in Hn as [Hc _].
    by rewrite (find_none _ _ Hfind n Hin) in Hc.
Qed.

(** One step of the loop, with the selector evaluated. *)
Lemma grade_step_plain (doc : document) (score : nat) (q : QuizQuestion) :
  plain_name (id q) = true -> modelled q = true ->
  grade_step doc score q
  = Normal (match (if existsb is_nul (Str.chars (id q)) then None
                   else List.find (checked_input_named (id q)) (all_nodes doc)) with
            | Some el =>
                if bool_decide (parseInt (input_value el) = Some (correct q))
                then score + 1 else score
            | None => score
            end).
Proof.
  intros Hp Hm. unfold grade_step, grade_step_with, querySelector.
  rewrite (read_selector_plain _ Hp).
  destruct (existsb is_nul (Str.chars (id q))); [done |].
  rewrite first_some_all_nodes.
  cbn [mbind completion_bind Js.bind].
  destruct (List.find _ _) as [el|]; [|done].
  unfold modelled in Hm. rewrite Hm.
  destruct (parseInt (input_value el)) as [n|] eqn:Hn.
  - destruct (Z.eqb_spec n (correct q)) as [-> | Hne].
    + by rewrite bool_decide_eq_true_2.
    + rewrite bool_decide_eq_false_2; [done | congruence].
  - by rewrite bool_decide_eq_false_2.
Qed.

(** Every step adds nothing or one, whatever the selector finds. *)
Lemma grade_step_adds (query : string -> document -> completion (option node))
  (doc : document) (score score' : nat) (q : QuizQuestion) :
  grade_step_with query doc score q = Normal score' ->
  score' = score \/ score' = score + 1.
Proof.
  unfold grade_step_with.
  destruct (query _ doc) as [[el|]|e|]; cbn [mbind completion_bind Js.bind];
    try naive_solver.
  destruct (parseInt (input_value el)) as [n|]; [|naive_solver].
  destruct (safe_integer (correct q)); [|done].
  destruct (Z.eqb n (correct q)); naive_solver.
Qed.

Lemma forEach_grade_bounds (query : string -> document -> completion (option node))
  (doc : document) (qs : list QuizQuestion) (s s' : nat) :
  forEach (grade_step_with query doc) s qs = Normal s' -> s <= s' <= s + length qs.
Proof.
  revert s. induction qs as [|q qs IH]; intros s.
  - cbn. intros [= <-]. lia.
  - cbn [forEach mbind completion_bind Js.bind length].
    destruct (grade_step_with query doc s q) as [s1|e|] eqn:H1; [|done..].
    intros H2%IH. apply grade_step_adds in H1. lia.
Qed.

Lemma forEach_grade_plain (doc : document) (qs : list QuizQuestion) (s : nat) :
  Forall (fun q => plain_name (id q) = true /\ modelled q = true) qs ->
  exclusive doc ->
  forEach (grade_step doc) s qs
  = Normal (s + length (List.filter (counted doc) qs)).
Proof.
  intros Hp Hex. revert s. induction Hp as [|q qs [Hq Hm] _ IH]; intros s.
  - cbn. f_equal. lia.
  - cbn [forEach List.filter]. rewrite (grade_step_plain _ _ _ Hq Hm).
    cbn [mbind completion_bind Js.bind]. rewrite IH. unfold counted at 2.
    rewrite (selected_correct_first _ _ Hex).
    destruct (existsb is_nul (Str.chars (id q))); cbn [negb andb]; [f_equal; lia |].
    destruct (List.find _ _) as [el|].
    + destruct (bool_decide _); cbn [length]; f_equal; lia.
    + f_equal; lia.
Qed.

(** For ids that the selector quotes as they are, the questions counted
    are those with the correct answer selected. *)
Lemma counted_quotable (doc : document) (qs : list QuizQuestion) :
  Forall (fun q => quotable (id q) = true /\ modelled q = true) qs ->
  List.filter (counted doc) qs = List.filter (selected_correct doc) qs
  /\ Forall (fun q => plain_name (id q) = true /\ modelled q = true) qs.
Proof.
  induction 1 as [|q qs [Hq Hm] _ [IH1 IH2]]; [done |].
  destruct (quotable_plain _ Hq) as [Hp Hn]. split; [|by constructor].
  cbn [List.filter]. unfold counted at 1. by rewrite Hn, IH1.
Qed.

Lemma forEach_grade_returns (doc : document) (qs : list QuizQuestion) (s : nat) :
  Forall (fun q => plain_name (id q) = true /\ modelled q = true) qs ->
  exists s', forEach (grade_step doc) s qs = Normal s'.
Proof.
  intros Hp. revert s. induction Hp as [|q qs [Hq Hm] _ IH]; intros s; [by exists s |].
  cbn [forEach]. rewrite (grade_step_plain _ _ _ Hq Hm).
  cbn [mbind completion_bind Js.bind]. apply IH.
Qed.




(** The other hypotheses of the score are needed as well.  With U+0000
    in the id the selector names no input of the page, and with two
    checked inputs of a name it finds the first: in both cases a checked
    input with the correct value is on the page and the score is 0. *)
Lemma gradeQuiz_nul_id :
  selected_correct [nul_area] nul_question = true
  /\ plain_name (id nul_question) = true
  /\ exclusive [nul_area]
  /\ exists doc',
       gradeQuiz [nul_question] [nul_area] = Normal doc'
       /\ getElementById QUIZ_AREA doc'
          = Some (appendChild (result_card 0 1) nul_area).
Proof.
  split; [reflexivity | split; [reflexivity | split]].
  - unfold exclusive. vm_compute. apply NoDup_singleton.
  - eexists. split; vm_compute; reflexivity.
Qed.

Lemma gradeQuiz_two_checked :
  selected_correct [two_checked_area] year_question = true
  /\ ~ exclusive [two_checked_area]
  /\ exists doc',
       gradeQuiz [year_question] [two_checked_area] = Normal doc'
       /\ getElementById QUIZ_AREA doc'
          = Some (appendChild (result_card 0 1) two_checked_area).
Proof.
  split; [reflexivity | split].
  - unfold exclusive. vm_compute. intros H. apply NoDup_cons in H as [H _].
    apply H. by left.
  - eexists. split; vm_compute; reflexivity.
Qed.

(** C10.  The score of [gradeQuiz] is at least 0 and at most the number
    of questions, for every page and whatever the selector of a question
    finds on it: every question adds 0 or 1 to the score.  For ids that
    the selector can quote the loop does return a score. *)
Theorem gradeQuiz_score_bounds
  (query : string -> document -> completion (option node))
  (qs : list QuizQuestion) (doc : document) :
  (forall score q score',
      grade_step_with query doc score q = Normal score' ->
      score' = score \/ score' = score + 1)
  /\ (forall doc',
        gradeQuiz_with query qs doc = Normal doc' ->
        exists score,
          forEach (grade_step_with query doc) 0 qs = Normal score
          /\ 0 <= score <= length qs
          /\ mutateById QUIZ_AREA (appendChild (result_card score (length qs))) doc
             = Some doc')
  /\ (Forall (fun q => plain_name (id q) = true /\ modelled q = true) qs ->
      exists score,
        forEach (grade_step doc) 0 qs = Normal score /\ 0 <= score <= length qs).
Proof.
  split; [|split].
  - intros score q score'. apply grade_step_adds.
  - intros doc'. unfold gradeQuiz_with.
    destruct (forEach (grade_step_with query doc) 0 qs) as [score|e|] eqn:Hs; [|done..].
    cbn [mbind completion_bind Js.bind].
    destruct (mutateById _ _ doc) as [d|] eqn:Hm; [|done]. intros [= <-].
    exists score. apply forEach_grade_bounds in Hs. repeat split; [lia | lia | done].
  - intros Hp. destruct (forEach_grade_returns doc qs 0 Hp) as [score Hs].
    exists score. split; [done |]. apply forEach_grade_bounds in Hs. lia.
Qed.

Lemma gradeQuiz_score_bounds_witness :
  exists score,
    forEach (grade_step [answered_area]) 0 [year_question] = Normal score
    /\ 0 <= score <= 1.
Proof.
  assert (Hp : Forall (fun q => plain_name (id q) = true /\ modelled q = true)
                 [year_question]).
  { constructor; [split; reflexivity | constructor]. }
  exact (proj2 (proj2 (gradeQuiz_score_bounds querySelector [year_question]
                         [answered_area])) Hp).
Defined.

End QuizFacts.

(** ** JSON: the text of a value is read back as the value *)

Section NumeralFacts.

Lemma uint_value_pos (u : Decimal.uint) (acc : positive) :
  N.pos (Pos.of_uint_acc u acc) = uint_value (N.pos acc) u.
Proof.
  revert acc. induction u; intros acc; cbn [Pos.of_uint_acc uint_value];
    rewrite ?IHu; try reflexivity; f_equal; lia.
Qed.

Lemma uint_value_of_uint (u : Decimal.uint) : uint_value 0 u = N.of_uint u.
Proof.
  unfold N.of_uint.
  induction u; cbn [Pos.of_uint uint_value]; try done;
    rewrite uint_value_pos; f_equal.
Qed.

Lemma to_uint_value (n : N) : uint_value 0 (N.to_uint n) = n.
Proof. rewrite uint_value_of_uint. apply DecimalN.Unsigned.of_to. Qed.

Lemma to_uint_normal (n : N) : Decimal.unorm (N.to_uint n) = N.to_uint n.
Proof.
  rewrite <- (DecimalN.Unsigned.of_to n) at 2.
  symmetry. apply DecimalN.Unsigned.to_of.
Qed.

(** The numeral of a positive number starts with a digit that is not 0. *)
Lemma to_uint_pos_head (p : positive) :
  match N.to_uint (N.pos p) with
  | Decimal.Nil | Decimal.D0 _ => False
  | _ => True
  end.
Proof.
  pose proof (to_uint_normal (N.pos p)) as Hn.
  pose proof (DecimalPos.Unsigned.to_uint_nonzero p) as Hz.
  change (N.to_uint (N.pos p)) with (Pos.to_uint p) in *.
  destruct (Pos.to_uint p) as [|u| | | | | | | | |] eqn:E; try done.
  rewrite DecimalFacts.unorm_D0 in Hn. unfold Decimal.unorm in Hn.
  destruct (Decimal.nzhead u) eqn:Eh; try done.
  injection Hn as ->. by destruct (DecimalFacts.nzhead_nonzero u u).
Qed.

(** A number of at most 53 bits is its own rounding. *)
Lemma round53_small (n : N) : (n < 2 ^ 53)%N -> round53 n = n.
Proof.
  intros Hn. unfold round53.
  destruct (N.leb_spec (N.size n) 53) as [H | H]; [done |].
  destruct n as [|p]; [done |].
  rewrite N.size_log2 in H by done.
  assert (N.log2 (N.pos p) < 53)%N; [|lia].
  by apply N.log2_lt_pow2.
Qed.

(** A safe integer is no infinity. *)
Lemma safe_not_infinite (z : Z) : safe_integer z = true -> infinite z = false.
Proof.
  unfold safe_integer, infinite. intros H%Z.leb_le.
  rewrite round53_small by lia.
  apply N.leb_gt. apply N.lt_trans with (2 ^ 53)%N; [lia |].
  by apply N.pow_lt_mono_r.
Qed.

Lemma infinite_not_safe (z : Z) : infinite z = true -> safe_integer z = false.
Proof.
  intros H. destruct (safe_integer z) eqn:E; [|done].
  by rewrite (safe_not_infinite z E) in H.
Qed.

End NumeralFacts.

Section LexerFacts.

Lemma prepend_some (xs more : list token) : prepend xs (Some more) = Some (xs ++ more).
Proof. by destruct xs. Qed.

Lemma prepend_none (xs : list token) : prepend xs None = None.
Proof. by destruct xs. Qed.

Lemma prepend_app (xs ys : list token) (o : option (list token)) :
  prepend xs (prepend ys o) = prepend (xs ++ ys) o.
Proof.
  destruct o as [more|].
  - by rewrite !prepend_some, app_assoc.
  - by rewrite !prepend_none.
Qed.

Lemma ws_delimits (c : ascii) :
  is_ws c = true -> digit_of c = None /\ frac_or_exp c = false.
Proof. destruct c as [[] [] [] [] [] [] [] []]; by intros. Qed.

Lemma lex_ws (ws rest : list ascii) :
  forallb is_ws ws = true -> lex_run LIdle (ws ++ rest) = lex_run LIdle rest.
Proof.
  induction ws as [|c ws IH]; [done |]. cbn [forallb app lex_run lex_step].
  intros [Hc Hws]%andb_true_iff. unfold idle_step. rewrite Hc. by apply IH.
Qed.

Lemma delimited_ws (ws rest : list ascii) :
  forallb is_ws ws = true -> delimited rest -> delimited (ws ++ rest).
Proof.
  destruct ws as [|c ws]; [done |]. cbn [forallb app delimited].
  intros [Hc _]%andb_true_iff _. by apply ws_delimits.
Qed.

Lemma after_number_end (t : token) (c : ascii) :
  frac_or_exp c = false -> after_number t c = end_token t c.
Proof.
  destruct c as [[] [] [] [] [] [] [] []]; intros H; try discriminate H; reflexivity.
Qed.

(** At the end of a number the lexer goes on as between tokens. *)
Lemma lex_after_number (st : lex_state) (t : token) (rest : list ascii) :
  lex_end st = Some [t] ->
  (forall c, digit_of c = None -> lex_step st c = after_number t c) ->
  delimited rest ->
  lex_run st rest = prepend [t] (lex_run LIdle rest).
Proof.
  intros Hend Hstep Hd. destruct rest as [|c rest]; [done |].
  destruct Hd as [Hdig Hfrac]. cbn [lex_run]. rewrite (Hstep c Hdig).
  rewrite (after_number_end t c Hfrac). unfold end_token. cbn [lex_step].
  destruct (idle_step c) as [[toks st']|]; [|done].
  by rewrite prepend_app.
Qed.

Lemma lex_digits (u : Decimal.uint) (neg : bool) (acc : N) (rest : list ascii) :
  delimited rest ->
  lex_run (LDigits neg acc) (uint_chars u ++ rest)
  = prepend [number_token neg (uint_value acc u)] (lex_run LIdle rest).
Proof.
  intros Hd. revert acc.
  induction u as [|u IH|u IH|u IH|u IH|u IH|u IH|u IH|u IH|u IH|u IH]; intros acc;
    cbn [uint_chars uint_value app];
    try (cbn [lex_run]; rewrite <- IH; reflexivity).
  - apply lex_after_number; [done | | done].
    intros c Hc. cbn [lex_step]. by rewrite Hc.
  - cbn [lex_run].
    change (lex_step (LDigits neg acc) "0")
      with (Some (@nil token, LDigits neg (10 * acc + 0)%N)).
    cbn [prepend]. rewrite IH. by rewrite N.add_0_r.
Qed.

Lemma lex_decimal_N (n : N) (neg : bool) (st : lex_state) (rest : list ascii) :
  (st = LIdle /\ neg = false) \/ (st = LMinus /\ neg = true /\ n <> 0%N) ->
  delimited rest ->
  lex_run st (decimal_N n ++ rest)
  = prepend [number_token neg n] (lex_run LIdle rest).
Proof.
  intros Hst Hd. unfold decimal_N.
  pose proof (to_uint_value n) as Hv. destruct n as [|p].
  - destruct Hst as [[-> ->] | (_ & _ & ?)]; [|done].
    cbn [N.to_uint uint_chars app lex_run lex_step].
    change (idle_step "0") with (Some (@nil token, LZero false)). cbn [prepend].
    apply lex_after_number; [done | | done].
    intros c Hc. cbn [lex_step]. by rewrite Hc.
  - pose proof (to_uint_pos_head p) as Hh.
    destruct (N.to_uint (N.pos p)) as [|u|u|u|u|u|u|u|u|u|u]; try done;
      cbn [uint_value] in Hv; cbn [uint_chars app lex_run];
      (destruct Hst as [[-> ->] | (-> & -> & _)];
       match goal with |- context [lex_step ?s ?c] =>
         let r := eval vm_compute in (lex_step s c) in
         change (lex_step s c) with r end;
       cbn [prepend]; rewrite lex_digits by done; by rewrite <- Hv).
Qed.

(** The token of a safe integer that is not a negative zero. *)
Lemma number_token_safe (neg : bool) (n : N) :
  safe_integer (signed neg n) = true -> (neg = true -> n <> 0%N) ->
  number_token neg n = TNumber (signed neg n).
Proof.
  intros Hs Hz. unfold number_token, js_number. rewrite Hs. cbn [negb orb].
  destruct neg; [|done]. destruct (N.eqb_spec n 0); [by destruct Hz | done].
Qed.

Lemma lex_number (z : Z) (rest : list ascii) :
  safe_integer z = true -> delimited rest ->
  lex_run LIdle (decimal_Z z ++ rest) = prepend [TNumber z] (lex_run LIdle rest).
Proof.
  intros Hs Hd. destruct z as [|p|p]; cbn [decimal_Z].
  - by rewrite (lex_decimal_N 0 false LIdle); [| left |].
  - rewrite (lex_decimal_N (N.pos p) false LIdle); [| by left | done].
    by rewrite number_token_safe.
  - cbn [app lex_run lex_step]. change (idle_step "-") with (Some (@nil token, LMinus)).
    cbn [prepend]. rewrite (lex_decimal_N (N.pos p) true LMinus); [| by right | done].
    by rewrite number_token_safe.
Qed.

(** The escapes of a character are read back as that character. *)
Lemma lex_escape (c : ascii) (acc rest : list ascii) :
  lex_run (LString true acc) (escape_char c ++ rest)
  = lex_run (LString true (c :: acc)) rest.
Proof. destruct c as [[] [] [] [] [] [] [] []]; reflexivity. Qed.

Lemma lex_string_body (cs acc rest : list ascii) :
  lex_run (LString true acc) (flat_map escape_char cs ++ dquote :: rest)
  = prepend [TString (Str.of_chars (rev acc ++ cs))] (lex_run LIdle rest).
Proof.
  revert acc. induction cs as [|c cs IH]; intros acc.
  - cbn. by rewrite app_nil_r.
  - cbn [flat_map]. rewrite <- app_assoc, lex_escape, IH.
    cbn [rev]. by rewrite <- app_assoc.
Qed.

Lemma lex_string (s : string) (rest : list ascii) :
  lex_run LIdle (quote s ++ rest) = prepend [TString s] (lex_run LIdle rest).
Proof.
  unfold quote. cbn [app lex_run lex_step].
  change (idle_step dquote) with (Some (@nil token, LString true [])). cbn [prepend].
  rewrite <- app_assoc. cbn [app]. rewrite lex_string_body. cbn [rev app].
  by rewrite string_of_list_ascii_of_string.
Qed.

(** *** The number tokens of the lexer are safe integers or infinities *)

Lemma number_token_ok (neg : bool) (n : N) : token_ok (number_token neg n) = true.
Proof.
  unfold number_token.
  destruct (neg && N.eqb n 0); cbn [orb]; [done |].
  by destruct (js_number (signed neg n)) eqn:E.
Qed.

Lemma idle_step_ok (c : ascii) (toks : list token) (st : lex_state) :
  idle_step c = Some (toks, st) ->
  forallb token_ok toks = true /\ lex_state_ok st = true.
Proof.
  destruct c as [[] [] [] [] [] [] [] []]; intros H; vm_compute in H;
    try discriminate H; injection H as <- <-; done.
Qed.

Lemma end_token_ok (t : token) (c : ascii) (toks : list token) (st : lex_state) :
  token_ok t = true -> end_token t c = Some (toks, st) ->
  forallb token_ok toks = true /\ lex_state_ok st = true.
Proof.
  intros Ht. unfold end_token.
  destruct (idle_step c) as [[toks' st']|] eqn:E; [|done]. intros [= <- <-].
  destruct (idle_step_ok _ _ _ E) as [H1 H2]. cbn [forallb]. by rewrite Ht, H1.
Qed.

Lemma after_number_ok (t : token) (c : ascii) (toks : list token) (st : lex_state) :
  token_ok t = true -> after_number t c = Some (toks, st) ->
  forallb token_ok toks = true /\ lex_state_ok st = true.
Proof.
  intros Ht. destruct (frac_or_exp c) eqn:E.
  - destruct c as [[] [] [] [] [] [] [] []]; try discriminate E;
      by intros [= <- <-].
  - rewrite (after_number_end t c E). by apply end_token_ok.
Qed.

Lemma lex_step_ok (st st' : lex_state) (c : ascii) (toks : list token) :
  lex_state_ok st = true -> lex_step st c = Some (toks, st') ->
  forallb token_ok toks = true /\ lex_state_ok st' = true.
Proof.
  intros Hst. destruct st as [|ok acc|ok acc|ok acc k v|
                              |neg|neg n| | | | | |expect t]; cbn [lex_step].
  - apply idle_step_ok.
  - destruct (Ascii.eqb c dquote); [by intros [= <- <-]; destruct ok |].
    destruct (Ascii.eqb c "\"); [by intros [= <- <-] |].
    destruct (code c <? 32)%N; [done | by intros [= <- <-]].
  - destruct (unescape c); [by intros [= <- <-] |].
    destruct (Ascii.eqb c "u"); [by intros [= <- <-] | done].
  - destruct (hex_of c); [|done]. destruct (Nat.eqb k 3); [|by intros [= <- <-]].
    destruct (_ <? 256)%N; by intros [= <- <-].
  - destruct (digit_of c) as [[|p]|]; [by intros [= <- <-].. | done].
  - destruct (digit_of c); [done |]. apply after_number_ok, number_token_ok.
  - destruct (digit_of c); [by intros [= <- <-] |].
    apply after_number_ok, number_token_ok.
  - destruct (digit_of c); [by intros [= <- <-] | done].
  - destruct (digit_of c); [by intros [= <- <-] |].
    destruct (Ascii.eqb c "e" || Ascii.eqb c "E"); [by intros [= <- <-] |].
    by apply end_token_ok.
  - destruct (digit_of c); [by intros [= <- <-] |].
    destruct (Ascii.eqb c "+" || Ascii.eqb c "-"); [by intros [= <- <-] | done].
  - destruct (digit_of c); [by intros [= <- <-] | done].
  - destruct (digit_of c); [by intros [= <- <-] |]. by apply end_token_ok.
  - destruct expect as [|x rest]; [done |]. destruct (Ascii.eqb c x); [|done].
    cbn [lex_state_ok] in Hst.
    destruct rest; intros [= <- <-]; cbn [forallb lex_state_ok]; by rewrite ?Hst.
Qed.

Lemma lex_run_ok (cs : list ascii) (st : lex_state) (ts : list token) :
  lex_state_ok st = true -> lex_run st cs = Some ts -> forallb token_ok ts = true.
Proof.
  revert st ts. induction cs as [|c cs IH]; intros st ts Hst.
  - destruct st; cbn [lex_run lex_end]; try done; intros [= <-];
      cbn [forallb]; by rewrite ?number_token_ok.
  - cbn [lex_run]. destruct (lex_step st c) as [[toks st']|] eqn:E; [|done].
    destruct (lex_step_ok _ _ _ _ Hst E) as [H1 H2].
    destruct (lex_run st' cs) as [more|] eqn:Em; [|by rewrite prepend_none].
    rewrite prepend_some. intros [= <-].
    by rewrite forallb_app, H1, (IH st' more H2 Em).
Qed.

End LexerFacts.

Section SerialiseFacts.

(** The text of a container with members: the bracket, the members
    with white space in front and commas between, white space and the
    closing bracket. *)
Lemma wrap_shape (opening closing : ascii) (ind gap : list ascii)
  (members : list (list ascii)) :
  members <> [] -> forallb is_ws ind = true -> forallb is_ws gap = true ->
  exists pre post,
    forallb is_ws pre = true /\ forallb is_ws post = true
    /\ wrap opening closing ind gap members
       = opening :: pre ++ join (","%char :: pre) members ++ post ++ [closing].
Proof.
  intros Hm Hind Hgap. destruct members as [|m ms]; [done |].
  destruct gap as [|g gap].
  - by exists [], [].
  - exists (newline :: ind ++ g :: gap), (newline :: ind).
    split; [|split].
    + cbn [forallb]. by rewrite forallb_app, Hind, Hgap.
    + cbn [forallb]. by rewrite Hind.
    + unfold wrap. cbn [app]. by rewrite <- !app_assoc.
Qed.

Lemma join_cons {A} (sep p q : list A) (ps : list (list A)) :
  join sep (p :: q :: ps) = p ++ sep ++ join sep (q :: ps).
Proof. done. Qed.

Lemma lex_idle_char (c : ascii) (toks : list token) (rest : list ascii) :
  idle_step c = Some (toks, LIdle) ->
  lex_run LIdle (c :: rest) = prepend toks (lex_run LIdle rest).
Proof. intros H. cbn [lex_run lex_step]. by rewrite H. Qed.

(** The members of a container, read one after the other. *)
Lemma lex_members (pre post : list ascii) (closing : ascii) (rest : list ascii)
  (texts : list (list ascii)) (toks : list (list token)) :
  forallb is_ws pre = true -> forallb is_ws post = true ->
  delimited (closing :: rest) ->
  Forall2 (fun text tk => forall r, delimited r ->
             lex_run LIdle (text ++ r) = prepend tk (lex_run LIdle r)) texts toks ->
  texts <> [] ->
  lex_run LIdle (pre ++ join (","%char :: pre) texts ++ post ++ closing :: rest)
  = prepend (join [TComma] toks) (lex_run LIdle (closing :: rest)).
Proof.
  intros Hpre Hpost Hd Hall _.
  induction Hall as [|text tk texts toks Hone Hall IH]; [by rewrite !lex_ws |].
  rewrite lex_ws by done. destruct Hall as [|text2 tk2 texts toks Htwo Hall].
  - cbn [join]. rewrite Hone by (by apply delimited_ws). by rewrite lex_ws.
  - rewrite !join_cons, <- !app_assoc. rewrite Hone by done.
    cbn [app]. rewrite (lex_idle_char "," [TComma]) by done.
    rewrite IH, !prepend_app. by rewrite <- app_assoc.
Qed.

Lemma lex_colon (gap rest : list ascii) :
  lex_run LIdle (colon gap ++ rest) = prepend [TColon] (lex_run LIdle rest).
Proof. by destruct gap. Qed.

(** The lexer reads the text of a well-formed value as the tokens of the
    value. *)
Lemma lex_ser (v : value) :
  wf v = true ->
  forall ind gap rest,
    forallb is_ws ind = true -> forallb is_ws gap = true -> delimited rest ->
    lex_run LIdle (ser ind gap v ++ rest) = prepend (tokens v) (lex_run LIdle rest).
Proof.
  induction v as [|b|n|s|items IH|props IH] using value_ind;
    intros Hwf ind gap rest Hind Hgap Hd.
  - done.
  - by destruct b.
  - cbn [ser tokens]. unfold number_json. cbn [wf] in Hwf. rewrite Hwf.
    by apply lex_number.
  - by apply lex_string.
  - cbn [ser tokens]. destruct items as [|x items].
    { cbn [map wrap app join].
      rewrite (lex_idle_char "[" [TLBracket]), (lex_idle_char "]" [TRBracket]) by done.
      by rewrite prepend_app. }
    destruct (wrap_shape "[" "]" ind gap (map (ser (ind ++ gap) gap) (x :: items)))
      as (pre & post & Hpre & Hpost & ->); [done | done | done |].
    cbn [app]. rewrite (lex_idle_char "[" [TLBracket]) by done.
    rewrite <- !app_assoc. cbn [app].
    rewrite (lex_members pre post "]" rest _ (map tokens (x :: items))); try done.
    + rewrite (lex_idle_char "]" [TRBracket]) by done.
      rewrite !prepend_app. by rewrite <- app_assoc.
    + apply Forall2_fmap, Forall_Forall2_diag.
      cbn [wf] in Hwf. rewrite forallb_forall in Hwf.
      rewrite Forall_forall in IH. apply Forall_forall.
      intros y Hy r Hr. apply IH; [done | | | done..].
      * apply Hwf. by apply list_elem_of_In.
      * by rewrite forallb_app, Hind, Hgap.
  - cbn [ser tokens]. destruct props as [|x props].
    { cbn [map wrap app join].
      rewrite (lex_idle_char "{" [TLBrace]), (lex_idle_char "}" [TRBrace]) by done.
      by rewrite prepend_app. }
    match goal with |- context [wrap _ _ _ _ ?ms] =>
      destruct (wrap_shape "{" "}" ind gap ms)
        as (pre & post & Hpre & Hpost & ->); [done | done | done |] end.
    cbn [app]. rewrite (lex_idle_char "{" [TLBrace]) by done.
    rewrite <- !app_assoc. cbn [app].
    rewrite (lex_members pre post "}" rest _
               (map (fun kv => TString (fst kv) :: TColon :: tokens (snd kv))
                  (x :: props))); try done.
    + rewrite (lex_idle_char "}" [TRBrace]) by done.
      rewrite !prepend_app. by rewrite <- app_assoc.
    + apply Forall2_fmap, Forall_Forall2_diag.
      cbn [wf] in Hwf. apply andb_true_iff in Hwf as [_ Hwf].
      rewrite forallb_forall in Hwf.
      rewrite Forall_forall in IH. apply Forall_forall.
      intros [k y] Hy r Hr. cbn [fst snd] in *.
      rewrite <- !app_assoc, lex_string, lex_colon.
      rewrite (IH (k, y) Hy); [by rewrite !prepend_app | | | done..].
      * apply (Hwf (k, y)). by apply list_elem_of_In.
      * by rewrite forallb_app, Hind, Hgap.
Qed.

Lemma tokens_nonempty (v : value) : tokens v <> [].
Proof. destruct v as [|[]| | | |]; done. Qed.

Lemma lex_stringify (v : value) (space : nat) :
  wf v = true ->
  lex_run LIdle (Str.chars (JSON_stringify v space)) = Some (tokens v).
Proof.
  intros Hwf. unfold JSON_stringify, Str.chars, Str.of_chars.
  rewrite list_ascii_of_string_of_list_ascii.
  rewrite <- (app_nil_r (ser _ _ v)), lex_ser; try done.
  - cbn [lex_run lex_end]. by rewrite prepend_some, app_nil_r.
  - apply forallb_forall. by intros c ->%repeat_spec.
Qed.

End SerialiseFacts.

Section ObjectFacts.

(** A key that is an array index is the numeral of its index. *)
Lemma array_index_numeral (k : string) (n : N) :
  array_index k = Some n -> k = Str.of_chars (decimal_N n).
Proof.
  unfold array_index. destruct (Str.chars k); [done |].
  destruct (digits_value 0 _) as [m|]; [|done].
  destruct (m <? 4294967295)%N; [|done]. cbn [andb].
  destruct (String.eqb_spec (Str.of_chars (decimal_N m)) k); [|done].
  by intros [= <-].
Qed.

Lemma array_index_inj (k k' : string) (n : N) :
  array_index k = Some n -> array_index k' = Some n -> k = k'.
Proof. intros ->%array_index_numeral ->%array_index_numeral. done. Qed.

Lemma has_key_false (k : string) (ps : list (string * value)) :
  has_key k ps = false <-> ~ In k (map fst ps).
Proof.
  unfold has_key. induction ps as [|[k' v'] ps IH]; cbn [existsb map fst In].
  - tauto.
  - rewrite orb_false_iff, IH, String.eqb_neq. tauto.
Qed.

Lemma keys_ordered_cons (k : string) (ks : list string) :
  keys_ordered (k :: ks) = true <->
  (forall k2, In k2 ks -> k <> k2 /\ key_before k k2 = true) /\ keys_ordered ks = true.
Proof.
  cbn [keys_ordered]. rewrite andb_true_iff, forallb_forall.
  split; intros [H1 H2]; (split; [|done]); intros k2 Hin; specialize (H1 k2 Hin).
  - apply andb_true_iff in H1 as [H1 ?]. split; [|done].
    apply negb_true_iff in H1. by apply String.eqb_neq.
  - destruct H1 as [H1 ->]. apply String.eqb_neq in H1. by rewrite H1.
Qed.

Lemma keys_ordered_app_l (ks ks' : list string) :
  keys_ordered (ks ++ ks') = true -> keys_ordered ks = true.
Proof.
  induction ks as [|k ks IH]; [done |]. cbn [app].
  rewrite !keys_ordered_cons. intros [H1 H2]. split; [|by apply IH].
  intros k2 Hin. apply H1, in_or_app. by left.
Qed.

(** A key that may stand at the end of the keys is created at the end. *)
Lemma obj_set_append (k : string) (v : value) (ps : list (string * value)) :
  keys_ordered (map fst (ps ++ [(k, v)])) = true ->
  obj_set k v ps = ps ++ [(k, v)].
Proof.
  intros Hord. unfold obj_set.
  assert (Hnew : has_key k ps = false /\ insert_new k v ps = ps ++ [(k, v)]).
  { induction ps as [|[k' v'] ps IH]; [done |].
    cbn [app map fst] in Hord. apply keys_ordered_cons in Hord as [H1 H2].
    destruct (IH H2) as [IH1 IH2].
    destruct (H1 k) as [Hne Hb].
    { rewrite map_app. apply in_or_app. right. by left. }
    apply String.eqb_neq in Hne.
    cbn [has_key existsb fst insert_new app]. rewrite Hne, Hb. cbn [orb].
    split; [exact IH1 | by rewrite IH2]. }
  destruct Hnew as [-> ->]. done.
Qed.

Lemma replace_value_keys (k : string) (v : value) (ps : list (string * value)) :
  map fst (replace_value k v ps) = map fst ps.
Proof.
  induction ps as [|[k' v'] ps IH]; [done |]. cbn [replace_value].
  destruct (String.eqb k' k); cbn [map fst]; [done | by rewrite IH].
Qed.

Lemma replace_value_all (P : value -> bool) (k : string) (v : value)
  (ps : list (string * value)) :
  P v = true -> forallb (fun kv => P (snd kv)) ps = true ->
  forallb (fun kv => P (snd kv)) (replace_value k v ps) = true.
Proof.
  intros Hv. induction ps as [|[k' v'] ps IH]; [done |].
  cbn [forallb replace_value snd]. intros [H1 H2]%andb_true_iff.
  destruct (String.eqb k' k); cbn [forallb snd].
  - by rewrite Hv, H2.
  - by rewrite H1, IH.
Qed.

Lemma insert_new_keys (k : string) (v : value) (ps : list (string * value)) (x : string) :
  In x (map fst (insert_new k v ps)) <-> x = k \/ In x (map fst ps).
Proof.
  induction ps as [|[k' v'] ps IH]; cbn [insert_new map fst In].
  - intuition.
  - destruct (key_before k' k); cbn [map fst In]; [rewrite IH |]; intuition.
Qed.

Lemma insert_new_all (P : value -> bool) (k : string) (v : value)
  (ps : list (string * value)) :
  P v = true -> forallb (fun kv => P (snd kv)) ps = true ->
  forallb (fun kv => P (snd kv)) (insert_new k v ps) = true.
Proof.
  intros Hv. induction ps as [|[k' v'] ps IH]; cbn [forallb insert_new snd].
  - by rewrite Hv.
  - intros [H1 H2]%andb_true_iff.
    destruct (key_before k' k); cbn [forallb snd].
    + by rewrite H1, IH.
    + by rewrite Hv, H1, H2.
Qed.

(** A new key in front of the first key that must not stay before it
    is in front of all keys from there on. *)
Lemma key_before_rest (k k' : string) (ks : list string) :
  key_before k' k = false -> k <> k' ->
  keys_ordered (k' :: ks) = true ->
  forall k2, In k2 (k' :: ks) -> key_before k k2 = true.
Proof.
  intros Hb Hne Hord k2 Hin. unfold key_before in *.
  destruct (array_index k) as [i|] eqn:Ei; [|done].
  destruct (array_index k2) as [j2|] eqn:E2; [|done].
  apply N.ltb_lt.
  assert (Hle : forall j, array_index k' = Some j -> (i <= j)%N).
  { intros j Ej. rewrite Ej in Hb. by apply N.ltb_ge in Hb. }
  destruct Hin as [<- | Hin].
  - specialize (Hle j2 E2). destruct (N.eq_dec i j2) as [<- | ?]; [|lia].
    by destruct Hne; apply (array_index_inj _ _ i).
  - apply keys_ordered_cons in Hord as [H1 _]. destruct (H1 k2 Hin) as [_ H2].
    unfold key_before in H2. rewrite E2 in H2.
    destruct (array_index k') as [j|]; [|done].
    apply N.ltb_lt in H2. specialize (Hle j eq_refl). lia.
Qed.

Lemma insert_new_ordered (k : string) (v : value) (ps : list (string * value)) :
  has_key k ps = false -> keys_ordered (map fst ps) = true ->
  keys_ordered (map fst (insert_new k v ps)) = true.
Proof.
  induction ps as [|[k' v'] ps IH]; [done |].
  intros Hk Hord. pose proof Hk as Hk'. apply has_key_false in Hk'.
  cbn [map fst In] in Hk'.
  cbn [has_key existsb fst] in Hk. apply orb_false_iff in Hk as [Hne Hk].
  apply String.eqb_neq in Hne. cbn [insert_new map fst] in *.
  destruct (key_before k' k) eqn:Hb; cbn [map fst].
  - pose proof Hord as Hord'. apply keys_ordered_cons in Hord' as [H1 H2].
    apply keys_ordered_cons. split; [|by apply IH].
    intros k2 [-> | Hin]%insert_new_keys; [done | by apply H1].
  - apply keys_ordered_cons. split; [|done].
    intros k2 Hin. split; [by intros <-; apply Hk' |].
    by apply (key_before_rest k k' (map fst ps)).
Qed.

(** [CreateDataProperty] keeps the keys of an object in order. *)
Lemma obj_set_js (k : string) (v : value) (ps : list (string * value)) :
  js_value v = true -> js_props ps = true -> js_props (obj_set k v ps) = true.
Proof.
  unfold js_props, obj_set. intros Hv [H1 H2]%andb_true_iff.
  destruct (has_key k ps) eqn:Hk.
  - by rewrite replace_value_keys, H1, (replace_value_all js_value).
  - by rewrite insert_new_ordered, (insert_new_all js_value).
Qed.

End ObjectFacts.

Section ParserFacts.

Lemma parse_run_app (st : parse_state) (ts ts' : list token) :
  parse_run st (ts ++ ts')
  = match parse_run st ts with
    | Some st' => parse_run st' ts'
    | None => None
    end.
Proof.
  revert st. induction ts as [|t ts IH]; intros st; [done |].
  cbn [app parse_run]. by destruct (parse_step st t).
Qed.

(** The first token of a value opens a value: after "[" it is read as
    the first item. *)
Lemma parse_first_item (v : value) (stk : list frame) (rest : list token) :
  parse_run (PFirstItem stk) (tokens v ++ rest)
  = parse_run (PValue (FArr [] :: stk)) (tokens v ++ rest).
Proof. destruct v as [|[]| | | |]; done. Qed.

(** The items of an array after the first bracket or a comma. *)
Lemma parse_items (stk : list frame) (rest : list token) (items : list value) :
  Forall (fun v => forall stk rest,
            parse_run (PValue stk) (tokens v ++ rest) = parse_run (deliver v stk) rest)
    items ->
  forall x seen,
    (forall stk rest,
        parse_run (PValue stk) (tokens x ++ rest) = parse_run (deliver x stk) rest) ->
    parse_run (PValue (FArr seen :: stk))
      (join [TComma] (map tokens (x :: items)) ++ TRBracket :: rest)
    = parse_run (deliver (JArr (seen ++ x :: items)) stk) rest.
Proof.
  induction 1 as [|y items Hy _ IH]; intros x seen Hx.
  - cbn [map join]. rewrite Hx. done.
  - cbn [map]. rewrite join_cons, <- !app_assoc. rewrite Hx.
    cbn [deliver app parse_run parse_step]. cbn [map] in IH.
    rewrite (IH y (seen ++ [x]) Hy). by rewrite <- app_assoc.
Qed.

(** The members of an object after the first brace or a comma. *)
Lemma parse_members (stk : list frame) (rest : list token)
  (props : list (string * value)) :
  Forall (fun kv => forall stk rest,
            parse_run (PValue stk) (tokens (snd kv) ++ rest)
            = parse_run (deliver (snd kv) stk) rest) props ->
  forall k x seen,
    (forall stk rest,
        parse_run (PValue stk) (tokens x ++ rest) = parse_run (deliver x stk) rest) ->
    keys_ordered (map fst (seen ++ (k, x) :: props)) = true ->
    parse_run (PColon seen k stk)
      (TColon :: tokens x
       ++ match props with
          | [] => []
          | _ => TComma :: join [TComma]
                   (map (fun kv => TString (fst kv) :: TColon :: tokens (snd kv)) props)
          end
       ++ TRBrace :: rest)
    = parse_run (deliver (JObj (seen ++ (k, x) :: props)) stk) rest.
Proof.
  induction 1 as [|[k2 y] props Hy Hall IH]; intros k x seen Hx Hord.
  - cbn [app parse_run parse_step]. rewrite Hx. cbn [deliver parse_run parse_step].
    by rewrite obj_set_append.
  - cbn [parse_run parse_step]. rewrite Hx.
    cbn [deliver app parse_run parse_step fst snd map].
    assert (Hset : obj_set k x seen = seen ++ [(k, x)]).
    { apply obj_set_append.
      replace (seen ++ (k, x) :: (k2, y) :: props)
        with ((seen ++ [(k, x)]) ++ (k2, y) :: props) in Hord
        by by rewrite <- app_assoc.
      rewrite map_app in Hord. by apply keys_ordered_app_l in Hord. }
    rewrite Hset. cbn [snd] in Hy.
    specialize (IH k2 y (seen ++ [(k, x)]) Hy).
    rewrite <- app_assoc in IH. cbn [app] in IH. rewrite <- (IH Hord).
    destruct props as [|p props]; [done |].
    cbn [map]. rewrite join_cons. by rewrite <- !app_assoc.
Qed.

(** The parser reads the tokens of a well-formed value as that value. *)
Lemma parse_tokens (v : value) :
  wf v = true ->
  forall stk rest,
    parse_run (PValue stk) (tokens v ++ rest) = parse_run (deliver v stk) rest.
Proof.
  induction v as [|b|n|s|items IH|props IH] using value_ind; intros Hwf stk rest.
  - done.
  - by destruct b.
  - done.
  - done.
  - cbn [tokens app parse_run parse_step value_step].
    destruct items as [|x items]; [done |].
    cbn [wf forallb] in Hwf. apply andb_true_iff in Hwf as [Hx Hitems].
    apply Forall_cons in IH as [IHx IH].
    rewrite <- app_assoc. cbn [app].
    assert (Hfirst : forall r,
               parse_run (PFirstItem stk) (join [TComma] (map tokens (x :: items)) ++ r)
               = parse_run (PValue (FArr [] :: stk))
                   (join [TComma] (map tokens (x :: items)) ++ r)).
    { intros r. destruct items as [|y items]; cbn [map];
        [cbn [join] | rewrite join_cons, <- !app_assoc]; apply parse_first_item. }
    rewrite Hfirst. apply (parse_items stk rest items); [|by apply IHx].
    rewrite forallb_forall in Hitems. rewrite Forall_forall in IH.
    apply Forall_forall. intros z Hz. apply IH; [done |].
    apply Hitems. by apply list_elem_of_In.
  - cbn [tokens app parse_run parse_step value_step].
    destruct props as [|[k x] props]; [done |].
    cbn [wf] in Hwf. apply andb_true_iff in Hwf as [Hord Hwf].
    cbn [forallb snd] in Hwf. apply andb_true_iff in Hwf as [Hx Hprops].
    apply Forall_cons in IH as [IHx IH]. cbn [snd] in IHx.
    assert (Hall : Forall (fun kv => forall stk rest,
                       parse_run (PValue stk) (tokens (snd kv) ++ rest)
                       = parse_run (deliver (snd kv) stk) rest) props).
    { rewrite forallb_forall in Hprops. rewrite Forall_forall in IH.
      apply Forall_forall. intros z Hz. apply IH; [done |].
      apply Hprops. by apply list_elem_of_In. }
    change (JObj ((k, x) :: props)) with (JObj ([] ++ (k, x) :: props)).
    rewrite <- (parse_members stk rest props Hall k x [] (IHx Hx) Hord).
    destruct props as [|p props].
    + cbn [map join app parse_run parse_step fst snd].
      by rewrite <- app_assoc.
    + cbn [map]. rewrite join_cons.
      cbn [app parse_run parse_step fst snd]. by rewrite <- !app_assoc.
Qed.

Lemma deliver_js (v : value) (stk : list frame) :
  js_value v = true -> forallb js_frame stk = true -> js_state (deliver v stk) = true.
Proof.
  intros Hv Hstk. destruct stk as [|[seen|seen key] stk]; [done | |];
    cbn [forallb js_frame] in Hstk; apply andb_true_iff in Hstk as [H1 H2];
    cbn [deliver js_state].
  - by rewrite forallb_app, H1, H2; cbn [forallb]; rewrite Hv.
  - by rewrite obj_set_js, H2.
Qed.

Lemma value_step_js (stk : list frame) (t : token) (st' : parse_state) :
  token_ok t = true ->
  forallb js_frame stk = true -> value_step stk t = Some st' -> js_state st' = true.
Proof.
  intros Ht Hstk. destruct t; cbn [value_step]; try done;
    intros [= <-]; try done; by apply deliver_js.
Qed.

Lemma parse_step_js (st st' : parse_state) (t : token) :
  token_ok t = true ->
  js_state st = true -> parse_step st t = Some st' -> js_state st' = true.
Proof.
  intros Ht. destruct st as [stk|stk|seen stk|stk|seen stk|seen key stk|seen stk|v];
    cbn [js_state parse_step]; intros Hwf;
    try (apply andb_true_iff in Hwf as [H1 H2]).
  - by apply value_step_js.
  - destruct t; try (by apply value_step_js); intros [= <-]; by apply deliver_js.
  - destruct t; try done; intros [= <-].
    + by apply deliver_js.
    + cbn [js_state forallb js_frame]. by rewrite H1, H2.
  - destruct t; try done; intros [= <-]; try done. by apply deliver_js.
  - destruct t; try done; intros [= <-]; cbn [js_state]; by rewrite H1, H2.
  - destruct t; try done; intros [= <-].
    cbn [js_state forallb js_frame]. by rewrite H1, H2.
  - pose proof H1 as H1'. unfold js_props in H1'.
    destruct t; try done; intros [= <-].
    + by apply deliver_js.
    + cbn [js_state]. by rewrite H1, H2.
  - done.
Qed.

Lemma parse_run_js (ts : list token) (st st' : parse_state) :
  forallb token_ok ts = true ->
  js_state st = true -> parse_run st ts = Some st' -> js_state st' = true.
Proof.
  revert st. induction ts as [|t ts IH]; intros st Hts Hwf; cbn [parse_run].
  - by intros [= <-].
  - cbn [forallb] in Hts. apply andb_true_iff in Hts as [Ht Hts].
    destruct (parse_step st t) as [st1|] eqn:E; [|done].
    apply IH; [done |]. by apply (parse_step_js st st1 t).
Qed.

(** Every value that [JSON.parse] returns is a value of the model, with the
    keys of its objects in order. *)
Theorem JSON_parse_js (text : string) (v : value) :
  JSON_parse text = Normal v -> js_value v = true.
Proof.
  unfold JSON_parse. destruct (lex_run LIdle _) as [ts|] eqn:El; [|done].
  destruct (parse_run (PValue []) ts) as [[| | | | | | |v']|] eqn:E; try done.
  destruct (existsb is_other ts); [done |].
  intros [= <-]. apply (parse_run_js ts (PValue []) (PDone v')); try done.
  by apply (lex_run_ok (Str.chars text) LIdle ts).
Qed.

Lemma existsb_join {A} (f : A -> bool) (sep : list A) (parts : list (list A)) :
  existsb f sep = false -> Forall (fun p => existsb f p = false) parts ->
  existsb f (join sep parts) = false.
Proof.
  intros Hsep. induction 1 as [|p parts Hp Hparts IH]; [done |].
  destruct parts as [|q parts]; [done |].
  rewrite join_cons, !existsb_app, Hp, Hsep, IH. done.
Qed.

(** The tokens of a value are tokens that the model interprets. *)
Lemma tokens_modelled (v : value) : existsb is_other (tokens v) = false.
Proof.
  induction v as [|b|n|s|items IH|props IH] using value_ind; try done.
  - by destruct b.
  - cbn [tokens existsb is_other orb]. rewrite existsb_app, existsb_join; try done.
    by apply Forall_fmap.
  - cbn [tokens existsb is_other orb]. rewrite existsb_app, existsb_join; try done.
    apply Forall_fmap. eapply Forall_impl; [exact IH |]. by intros [k x].
Qed.

(** Parsing the text of a well-formed value gives the value back. *)
Theorem JSON_parse_stringify (v : value) (space : nat) :
  wf v = true -> JSON_parse (JSON_stringify v space) = Normal v.
Proof.
  intros Hwf. unfold JSON_parse. rewrite lex_stringify, tokens_modelled by done.
  rewrite <- (app_nil_r (tokens v)), (parse_tokens v Hwf). done.
Qed.

(** *** Infinities *)

Lemma wf_js (v : value) : wf v = true -> js_value v = true.
Proof.
  induction v as [|b|n|s|items IH|props IH] using value_ind; try done.
  - cbn [wf js_value]. unfold js_number. by intros ->.
  - cbn [wf js_value]. rewrite !forallb_forall. rewrite Forall_forall in IH.
    intros H x Hx. apply IH; [by apply list_elem_of_In | by apply H].
  - cbn [wf js_value]. intros [-> H]%andb_true_iff. cbn [andb].
    rewrite forallb_forall in *. rewrite Forall_forall in IH.
    intros x Hx. apply IH; [by apply list_elem_of_In | by apply H].
Qed.

Lemma wf_finite (v : value) : wf v = true -> all_finite v = true.
Proof.
  induction v as [|b|n|s|items IH|props IH] using value_ind; try done.
  - cbn [wf all_finite]. by intros ->%safe_not_infinite.
  - cbn [wf all_finite]. rewrite !forallb_forall. rewrite Forall_forall in IH.
    intros H x Hx. apply IH; [by apply list_elem_of_In | by apply H].
  - cbn [wf all_finite]. intros [_ H]%andb_true_iff.
    rewrite forallb_forall in *. rewrite Forall_forall in IH.
    intros x Hx. apply IH; [by apply list_elem_of_In | by apply H].
Qed.

(** A value of the model without an infinity is well formed. *)
Lemma js_finite_wf (v : value) :
  js_value v = true -> all_finite v = true -> wf v = true.
Proof.
  induction v as [|b|n|s|items IH|props IH] using value_ind; try done.
  - cbn [wf js_value all_finite]. unfold js_number.
    intros H Hf%negb_true_iff. by rewrite Hf, orb_false_r in H.
  - cbn [wf js_value all_finite]. rewrite !forallb_forall. rewrite Forall_forall in IH.
    intros H1 H2 x Hx. apply IH; [by apply list_elem_of_In | by apply H1 | by apply H2].
  - cbn [wf js_value all_finite]. intros [-> H1]%andb_true_iff H2. cbn [andb].
    rewrite forallb_forall in *. rewrite Forall_forall in IH.
    intros x Hx. apply IH; [by apply list_elem_of_In | by apply H1 | by apply H2].
Qed.

(** Without an infinity there is nothing to replace. *)
Lemma nullify_finite (v : value) : all_finite v = true -> nullify v = v.
Proof.
  induction v as [|b|n|s|items IH|props IH] using value_ind; try done.
  - cbn [all_finite nullify]. by intros ->%negb_true_iff.
  - cbn [all_finite nullify]. intros H. f_equal.
    rewrite forallb_forall in H. rewrite Forall_forall in IH.
    rewrite <- (map_id items) at 2. apply map_ext_in.
    intros x Hx. apply IH; [by apply list_elem_of_In | by apply H].
  - cbn [all_finite nullify]. intros H. f_equal.
    rewrite forallb_forall in H. rewrite Forall_forall in IH.
    rewrite <- (map_id props) at 2. apply map_ext_in.
    intros [k x] Hx. cbn [fst snd]. f_equal.
    apply (IH (k, x)); [by apply list_elem_of_In | by apply (H (k, x))].
Qed.

Lemma forallb_fmap {A B} (f : B -> bool) (g : A -> B) (l : list A) :
  forallb f (map g l) = forallb (fun x => f (g x)) l.
Proof. induction l as [|x l IH]; [done |]. cbn [map forallb]. by rewrite IH. Qed.

Lemma nullify_keys (props : list (string * value)) :
  map fst (map (fun kv => (fst kv, nullify (snd kv))) props) = map fst props.
Proof. induction props as [|kv props IH]; [done |]. cbn [map fst]. by rewrite IH. Qed.

(** With [null] for the infinities a value of the model is well formed. *)
Lemma nullify_wf (v : value) : js_value v = true -> wf (nullify v) = true.
Proof.
  induction v as [|b|n|s|items IH|props IH] using value_ind; try done.
  - cbn [js_value nullify]. unfold js_number.
    destruct (infinite n); [done |]. by rewrite orb_false_r.
  - cbn [js_value nullify wf]. rewrite forallb_fmap, !forallb_forall.
    rewrite Forall_forall in IH.
    intros H x Hx. apply IH; [by apply list_elem_of_In | by apply H].
  - cbn [js_value nullify wf]. intros [Hk H]%andb_true_iff.
    rewrite nullify_keys, Hk. cbn [andb].
    rewrite forallb_fmap, forallb_forall. rewrite forallb_forall in H.
    rewrite Forall_forall in IH.
    intros x Hx. cbn [snd]. apply IH; [by apply list_elem_of_In | by apply H].
Qed.

(** The text of a value is the text of the value with [null] for its
    infinities. *)
Lemma ser_nullify (v : value) :
  forall ind gap, ser ind gap (nullify v) = ser ind gap v.
Proof.
  induction v as [|b|n|s|items IH|props IH] using value_ind; intros ind gap; try done.
  - cbn [nullify]. destruct (infinite n) eqn:E; [|done].
    cbn [ser]. unfold number_json. by rewrite (infinite_not_safe n E), E.
  - cbn [nullify ser]. f_equal. rewrite map_map. apply map_ext_in.
    rewrite Forall_forall in IH. intros x Hx. apply IH. by apply list_elem_of_In.
  - cbn [nullify ser]. f_equal. rewrite map_map. apply map_ext_in.
    rewrite Forall_forall in IH. intros [k x] Hx. cbn [fst snd].
    by rewrite (IH (k, x)) by by apply list_elem_of_In.
Qed.


End ParserFacts.

(** ** bookmarks.js *)

Section BookmarkFacts.

Lemma stringify_nonempty (v : value) (space : nat) :
  wf v = true -> JSON_stringify v space <> EmptyString.
Proof.
  intros Hwf H. pose proof (lex_stringify v space Hwf) as Hlex. rewrite H in Hlex.
  cbn in Hlex. injection Hlex as Hlex. by apply (tokens_nonempty v).
Qed.

(** What was saved is what is loaded. *)
Lemma load_saved (list : value) (localStorage : gmap string string) :
  wf list = true ->
  loadBookmarks (saveBookmarks list localStorage) = Normal list.
Proof.
  intros Hwf. unfold loadBookmarks, saveBookmarks. rewrite lookup_insert_eq.
  pose proof (stringify_nonempty list 0 Hwf) as Hne.
  destruct (JSON_stringify list 0) as [|c s] eqn:E; [done |].
  rewrite <- E, (JSON_parse_stringify list 0 Hwf). done.
Qed.

Lemma stringify_nullify (v : value) (space : nat) :
  JSON_stringify (nullify v) space = JSON_stringify v space.
Proof. unfold JSON_stringify. by rewrite ser_nullify. Qed.

(** What was saved is loaded with [null] for every infinity. *)
Lemma load_saved_js (list : value) (localStorage : gmap string string) :
  js_value list = true ->
  loadBookmarks (saveBookmarks list localStorage) = Normal (nullify list).
Proof.
  intros Hjs. rewrite <- (load_saved (nullify list) localStorage (nullify_wf _ Hjs)).
  unfold saveBookmarks. by rewrite stringify_nullify.
Qed.

(** What [loadBookmarks] returns is a value of the model. *)
Lemma loaded_js (localStorage : gmap string string) (v : value) :
  loadBookmarks localStorage = Normal v -> js_value v = true.
Proof.
  unfold loadBookmarks. destruct (localStorage !! BOOKMARK_KEY) as [[|c raw]|].
  - by intros [= <-].
  - destruct (JSON_parse (String c raw)) as [v'|e|] eqn:E; cbn [try_catch].
    + intros [= <-]. by apply (JSON_parse_js _ _ E).
    + by intros [= <-].
    + done.
  - by intros [= <-].
Qed.

(** The list with a record of the caller in front is a value of the
    model. *)
Lemma loaded_cons_js (localStorage : gmap string string) (eventObj : value)
  (items : list value) :
  loadBookmarks localStorage = Normal (JArr items) -> wf eventObj = true ->
  js_value (JArr (eventObj :: items)) = true
  /\ nullify (JArr (eventObj :: items)) = JArr (eventObj :: map nullify items).
Proof.
  intros Hload Hwf. pose proof (loaded_js _ _ Hload) as Hjs. split.
  - cbn [js_value forallb] in *. by rewrite (wf_js _ Hwf), Hjs.
  - cbn [nullify map]. by rewrite (nullify_finite _ (wf_finite _ Hwf)).
Qed.

Lemma nullify_items_finite (items : list value) :
  all_finite (JArr items) = true -> map nullify items = items.
Proof. intros H%nullify_finite. cbn [nullify] in H. by injection H. Qed.

Lemma loadBookmarks_no_throw (localStorage : gmap string string) (e : exn) :
  loadBookmarks localStorage <> Throw e.
Proof.
  unfold loadBookmarks. destruct (localStorage !! BOOKMARK_KEY) as [[|c raw]|]; try done.
  by destruct (JSON_parse (String c raw)).
Qed.

(** C5.  [loadBookmarks] never throws, whatever is stored.  Without an
    item under the key it returns the empty sequence, and so it does
    when the item is not JSON text; an item that is JSON text is
    returned as the value it denotes.  (The model has no answer exactly
    when the item is JSON text outside the model.) *)
Theorem loadBookmarks_total (localStorage : gmap string string) :
  (forall e, loadBookmarks localStorage <> Throw e)
  /\ (localStorage !! BOOKMARK_KEY = None ->
      loadBookmarks localStorage = Normal (JArr []))
  /\ (forall raw e,
        localStorage !! BOOKMARK_KEY = Some raw ->
        JSON_parse raw = Throw e ->
        loadBookmarks localStorage = Normal (JArr []))
  /\ (forall raw v,
        localStorage !! BOOKMARK_KEY = Some raw ->
        JSON_parse raw = Normal v ->
        loadBookmarks localStorage = Normal v)
  /\ (loadBookmarks localStorage = Unmodelled <->
      exists raw, localStorage !! BOOKMARK_KEY = Some raw
                  /\ JSON_parse raw = Unmodelled).
Proof.
  split; [intros e; apply loadBookmarks_no_throw |].
  unfold loadBookmarks. destruct (localStorage !! BOOKMARK_KEY) as [[|c raw]|].
  - repeat split; try done.
    + by intros raw v [= <-].
    + by intros (raw & [= <-] & H).
  - destruct (JSON_parse (String c raw)) as [v|e|] eqn:E; cbn [try_catch];
      repeat split; try done.
    + intros raw' e' [= <-]. by rewrite E.
    + intros raw' v' [= <-]. by rewrite E.
    + intros (raw' & [= <-] & H). by rewrite E in H.
    + intros raw' v' [= <-]. by rewrite E.
    + intros (raw' & [= <-] & H). by rewrite E in H.
    + intros raw' e' [= <-]. by rewrite E.
    + intros raw' v' [= <-]. by rewrite E.
    + intros _. by exists (String c raw).
  - repeat split; try done. by intros (raw & H & _).
Qed.

Lemma loadBookmarks_total_witness :
  loadBookmarks {[ BOOKMARK_KEY := "[{not json" ]} = Normal (JArr [])
  /\ loadBookmarks (∅ : gmap string string) = Normal (JArr []).
Proof.
  split.
  - destruct (loadBookmarks_total {[ BOOKMARK_KEY := "[{not json" ]})
      as (_ & _ & H & _).
    apply (H "[{not json" SyntaxError); [apply lookup_singleton_eq |].
    vm_compute. reflexivity.
  - destruct (loadBookmarks_total ∅) as (_ & H & _).
    apply H. apply lookup_empty.
Defined.

(** *** Adding *)

Lemma strict_eq_string (a : option value) (t : string) :
  strict_eq a (Some (JStr t))
  = match a with
    | Some (JStr x) => String.eqb x t
    | _ => false
    end.
Proof. by destruct a as [[| | |x| |]|]. Qed.

(** For a record with a (title, date) pair the test of [addBookmark]
    on a stored entry that is not null says whether the entry has the
    same pair. *)
Lemma same_bookmark_pair (eventObj b : value) (t d : string) :
  pair_of eventObj = Some (t, d) -> is_null b = false ->
  same_bookmark eventObj b = Normal (bool_decide (pair_of b = Some (t, d))).
Proof.
  intros He Hb. destruct eventObj as [| | | | |ps]; try done.
  cbn [pair_of] in He.
  destruct (lookup_prop "title" ps) as [[| | |t'| |]|] eqn:Et; try done.
  destruct (lookup_prop "date" ps) as [[| | |d'| |]|] eqn:Ed; try done.
  injection He as -> ->.
  unfold same_bookmark. cbn [get_prop]. rewrite Et, Ed.
  destruct b as [| | | | |props]; try done.
  cbn [get_prop pair_of mbind completion_bind Js.bind].
  rewrite !strict_eq_string.
  destruct (lookup_prop "title" props) as [[| | |t'| |]|]; try done.
  destruct (String.eqb_spec t' t) as [-> | Hne].
  - destruct (lookup_prop "date" props) as [[| | |d'| |]|]; try done.
    destruct (String.eqb_spec d' d) as [-> | Hne].
    + by rewrite bool_decide_eq_true_2.
    + rewrite bool_decide_eq_false_2; [done | congruence].
  - destruct (lookup_prop "date" props) as [[| | |d'| |]|];
      rewrite bool_decide_eq_false_2; congruence.
Qed.

Lemma array_some_pair (eventObj : value) (items : list value) (t d : string) :
  pair_of eventObj = Some (t, d) ->
  Forall (fun b => is_null b = false) items ->
  array_some (same_bookmark eventObj) items
  = Normal (existsb (fun b => bool_decide (pair_of b = Some (t, d))) items).
Proof.
  intros He. induction 1 as [|b items Hb _ IH]; [done |].
  cbn [array_some existsb]. rewrite (same_bookmark_pair _ _ t d He Hb).
  cbn [mbind completion_bind Js.bind]. by destruct (bool_decide _).
Qed.


Lemma addBookmark_record (eventObj : value) (localStorage : gmap string string)
  (items : list value) (t d : string) :
  loadBookmarks localStorage = Normal (JArr items) ->
  Forall (fun b => is_null b = false) items ->
  pair_of eventObj = Some (t, d) ->
  addBookmark eventObj localStorage
  = if existsb (fun b => bool_decide (pair_of b = Some (t, d))) items
    then (Normal false, localStorage)
    else (Normal true, saveBookmarks (JArr (eventObj :: items)) localStorage).
Proof.
  intros Hload Hnn He. unfold addBookmark.
  rewrite Hload, (array_some_pair _ _ t d He Hnn). by destruct (existsb _ _).
Qed.

Lemma pair_occurs (items : list value) (t d : string) :
  existsb (fun b => bool_decide (pair_of b = Some (t, d))) items = true
  <-> exists b, In b items /\ pair_of b = Some (t, d).
Proof.
  rewrite existsb_exists.
  split; intros (b & Hin & H); exists b; (split; [done |]).
  - by apply bool_decide_eq_true in H.
  - by apply bool_decide_eq_true.
Qed.













(** *** Exporting *)




Lemma exportBookmarks_no_throw (now : string) (localStorage : gmap string string)
  (e : exn) :
  exportBookmarks now localStorage <> Throw e.
Proof.
  unfold exportBookmarks. pose proof (loadBookmarks_no_throw localStorage) as H.
  destruct (loadBookmarks localStorage) as [v|e'|]; try done. by destruct (H e').
Qed.

(** *** The stored list stays a list of records *)

(** The empty storage and a cleared storage hold the empty list, and
    [addBookmark] with a record keeps a list without null entries and
    without infinities: the storage that these functions build from
    records always holds one. *)
Lemma holds_list_empty : holds_list ∅.
Proof. exists []. split; [done | split; [constructor | done]]. Qed.

Lemma holds_list_clear (localStorage : gmap string string) :
  holds_list (clearBookmarks localStorage).
Proof.
  exists []. split; [|split; [constructor | done]].
  unfold loadBookmarks, clearBookmarks. by rewrite lookup_delete_eq.
Qed.

Lemma holds_list_add (eventObj : value) (localStorage : gmap string string)
  (t d : string) :
  wf eventObj = true -> pair_of eventObj = Some (t, d) ->
  holds_list localStorage ->
  holds_list (snd (addBookmark eventObj localStorage)).
Proof.
  intros Hwf He (items & Hload & Hnn & Hfin).
  rewrite (addBookmark_record eventObj localStorage items t d Hload Hnn He).
  destruct (existsb _ items); cbn [snd]; [by exists items |].
  exists (eventObj :: items). split; [|split].
  - destruct (loaded_cons_js _ eventObj items Hload Hwf) as [Hjs Hnull].
    by rewrite (load_saved_js _ _ Hjs), Hnull, nullify_items_finite.
  - constructor; [by destruct eventObj | done].
  - cbn [all_finite forallb] in *. by rewrite (wf_finite _ Hwf), Hfin.
Qed.

End BookmarkFacts.

(* ===================================================================== *)
(** * Further properties                                                  *)
(* ===================================================================== *)

(** ** Strings, again *)

Section MoreStringFacts.

Lemma chars_slice0 (n : nat) (s : string) :
  Str.chars (Str.slice0 n s) = firstn n (Str.chars s).
Proof.
  revert s. induction n as [|n IH]; intros [|c s]; cbn; try done. by rewrite <- IH.
Qed.

Lemma chars_replace_class (cls : ascii -> bool) (s : string) :
  Str.chars (Str.replace_class cls "-" s) = map (hyphen_for cls) (Str.chars s).
Proof.
  unfold Str.chars. induction s as [|c s IH]; [done |].
  cbn [Str.replace_class list_ascii_of_string map]. unfold hyphen_for at 1.
  destruct (cls c); cbn; by rewrite <- IH.
Qed.

Lemma chars_length (s : string) : length (Str.chars s) = String.length s.
Proof. induction s as [|c s IH]; cbn; [done | by rewrite <- IH]. Qed.

Lemma chars_inj (s t : string) : Str.chars s = Str.chars t -> s = t.
Proof. intros H. by rewrite <- (of_chars_chars s), H, of_chars_chars. Qed.

Lemma hyphen_for_plain (cls : ascii -> bool) (l : list ascii) :
  forallb (fun c => negb (cls c)) l = true -> map (hyphen_for cls) l = l.
Proof.
  induction l as [|c l IH]; [done |]. cbn [forallb map]. unfold hyphen_for at 1.
  intros [Hc Hl]%andb_true_iff. destruct (cls c); [done |]. by rewrite IH.
Qed.

End MoreStringFacts.

(** ** main.js: the key of a date *)

Section MoreDateFacts.

Lemma split_plain (sep : ascii) (s : string) :
  ~ In sep (Str.chars s) -> Str.split sep s = [s].
Proof.
  induction s as [|c s IH]; [done |]. cbn [Str.split]. intros H. cbn in H.
  destruct (Ascii.eqb_spec c sep) as [-> | Hne]; [tauto |].
  rewrite IH; [done | tauto].
Qed.

Lemma split_app (sep : ascii) (a b : string) :
  ~ In sep (Str.chars a) ->
  Str.split sep (a +:+ String sep b) = a :: Str.split sep b.
Proof.
  induction a as [|c a IH].
  - intros _. change (EmptyString +:+ String sep b) with (String sep b).
    cbn [Str.split]. by rewrite Ascii.eqb_refl.
  - intros H. change (String c a +:+ String sep b) with (String c (a +:+ String sep b)).
    cbn [Str.split]. cbn in H.
    destruct (Ascii.eqb_spec c sep) as [-> | Hne]; [tauto |].
    rewrite IH; [done | tauto].
Qed.

Lemma padStart_zero_plain (p : string) :
  ~ In "-"%char (Str.chars p) -> ~ In "-"%char (Str.chars (Str.padStart 2 "0" p)).
Proof.
  intros Hp. rewrite padStart_zero, chars_app, chars_of_chars.
  intros [H | H]%in_app_or; [|done]. by apply repeat_spec in H.
Qed.

Lemma padStart_padded (p : string) :
  2 <= String.length p -> Str.padStart 2 "0" p = p.
Proof.
  intros H. unfold Str.padStart. by destruct (Nat.leb_spec 2 (String.length p)); [|lia].
Qed.

(** X1.  A result of [mmddFromDateInput] is a key of two hyphen-free
    parts of at least two characters each with one hyphen between, and it
    is a fixed point: with a year in front, it is returned as it is. *)
Theorem mmddFromDateInput_key (dateVal : option string) (key : string) :
  mmddFromDateInput dateVal = Some key ->
  exists mm dd,
    key = mm +:+ "-" +:+ dd
    /\ Str.split "-" key = [mm; dd]
    /\ 2 <= String.length mm /\ 2 <= String.length dd
    /\ (forall yyyy,
          ~ In "-"%char (Str.chars yyyy) ->
          mmddFromDateInput (Some (yyyy +:+ "-" +:+ key)) = Some key).
Proof.
  destruct dateVal as [[|c s]|]; try done. unfold mmddFromDateInput.
  pose proof (split_parts "-" (String c s)) as Hparts.
  destruct (Str.split "-" (String c s)) as [|yyyy [|m [|d rest]]]; try done.
  cbn [length Nat.leb nth]. intros [= <-].
  inversion Hparts as [|? ? _ Hparts']; subst.
  inversion Hparts' as [|? ? Hm Hparts'']; subst.
  inversion Hparts'' as [|? ? Hd _]; subst.
  apply padStart_zero_plain in Hm, Hd.
  assert (Hsplit : Str.split "-" (Str.padStart 2 "0" m +:+ "-" +:+ Str.padStart 2 "0" d)
                   = [Str.padStart 2 "0" m; Str.padStart 2 "0" d]).
  { change (Str.split "-" (Str.padStart 2 "0" m +:+ String "-"%char (Str.padStart 2 "0" d))
            = [Str.padStart 2 "0" m; Str.padStart 2 "0" d]).
    rewrite (split_app _ _ _ Hm). by rewrite (split_plain _ _ Hd). }
  assert (Hlm := padStart_zero_length m). assert (Hld := padStart_zero_length d).
  exists (Str.padStart 2 "0" m), (Str.padStart 2 "0" d).
  split; [done |]. split; [done |]. split; [lia |]. split; [lia |].
  intros y Hy.
  assert (Hs : Str.split "-" (y +:+ "-" +:+ Str.padStart 2 "0" m +:+ "-"
                              +:+ Str.padStart 2 "0" d)
               = [y; Str.padStart 2 "0" m; Str.padStart 2 "0" d]).
  { change (Str.split "-" (y +:+ String "-"%char (Str.padStart 2 "0" m +:+ "-"
                                                   +:+ Str.padStart 2 "0" d))
            = [y; Str.padStart 2 "0" m; Str.padStart 2 "0" d]).
    rewrite (split_app _ _ _ Hy). by rewrite Hsplit. }
  destruct (y +:+ "-" +:+ Str.padStart 2 "0" m +:+ "-" +:+ Str.padStart 2 "0" d)
    as [|c' s'] eqn:E; [by destruct y |].
  rewrite Hs. cbn [length Nat.leb nth].
  by rewrite (padStart_padded (Str.padStart 2 "0" m)), (padStart_padded (Str.padStart 2 "0" d)) by lia.
Qed.

Lemma mmddFromDateInput_key_witness :
  mmddFromDateInput (Some "1969-7-20") = Some "07-20"
  /\ mmddFromDateInput (Some "0000-07-20") = Some "07-20".
Proof.
  assert (H : mmddFromDateInput (Some "1969-7-20") = Some "07-20") by reflexivity.
  split; [exact H |].
  destruct (mmddFromDateInput_key (Some "1969-7-20") "07-20" H) as (mm & dd & _ & _ & _ & _ & Hfix).
  apply (Hfix "0000"). cbn. intuition discriminate.
Defined.

End MoreDateFacts.

(** ** The page: what a mutation leaves *)

Section PageFacts.

Lemma shell_shallow (p : node -> bool) (n : node) : shallow p -> p (shell n) = p n.
Proof. intros Hsh. destruct n as [|t ps ck h cs]; [done |]. apply Hsh. Qed.

Lemma find_none_shells (p : node -> bool) (n : node) :
  shallow p -> Forall (fun m => p m = false) (map shell (nodes n)) -> find_node p n = None.
Proof.
  intros Hsh H. rewrite find_node_nodes.
  destruct (List.find p (nodes n)) as [x|] eqn:E; [|done].
  apply find_some in E as [Hin Hx].
  rewrite Forall_forall in H. specialize (H (shell x)).
  rewrite (shell_shallow p x Hsh) in H. rewrite H in Hx; [done |].
  apply list_elem_of_fmap. exists x. split; [done | by apply list_elem_of_In].
Qed.

(** The nodes of a mutated list of trees. *)
Lemma update_in_nodes (p : node -> bool) (f : node -> node) (cs : list node) :
  shallow p ->
  Forall (fun c => match update_node p f c with
                   | Some c' => exists x, find_node p c = Some x
                                          /\ subtree_replaced p x (f x) (nodes c) (nodes c')
                   | None => Forall (fun m => p m = false) (map shell (nodes c))
                   end) cs ->
  match update_in (update_node p f) cs with
  | Some cs' => exists x, first_some (find_node p) cs = Some x
                          /\ subtree_replaced p x (f x)
                               (flat_map nodes cs) (flat_map nodes cs')
  | None => Forall (fun m => p m = false) (map shell (flat_map nodes cs))
  end.
Proof.
  intros Hsh. induction 1 as [|c cs Hc _ IH]; [by constructor |].
  cbn [update_in first_some flat_map].
  destruct (update_node p f c) as [c'|].
  - destruct Hc as (x & -> & pre & post & H1 & H2 & H3). exists x. split; [done |].
    exists pre, (post ++ map shell (flat_map nodes cs)).
    cbn [flat_map]. rewrite !map_app, H1, H2, <- !app_assoc. done.
  - rewrite (find_none_shells p c Hsh Hc).
    destruct (update_in (update_node p f) cs) as [cs'|].
    + destruct IH as (x & -> & pre & post & H1 & H2 & H3). exists x. split; [done |].
      exists (map shell (nodes c) ++ pre), post.
      cbn [flat_map]. rewrite !map_app, H1, H2, <- !app_assoc.
      split; [done | split; [done |]]. by apply Forall_app.
    + rewrite map_app. by apply Forall_app.
Qed.

(** The nodes of a mutated tree: those of the tree, with the subtree of
    the mutated node replaced. *)
Lemma update_node_nodes (p : node -> bool) (f : node -> node) (n : node) :
  shallow p ->
  match update_node p f n with
  | Some n' => exists x, find_node p n = Some x
                         /\ subtree_replaced p x (f x) (nodes n) (nodes n')
  | None => Forall (fun m => p m = false) (map shell (nodes n))
  end.
Proof.
  intros Hsh. induction n as [data | t ps ck h cs IH] using node_ind.
  - cbn [update_node find_node]. destruct (p (Text data)) eqn:E.
    + exists (Text data). split; [done |]. exists [], [].
      rewrite !app_nil_r. by repeat split.
    + cbn. by repeat constructor.
  - cbn [update_node find_node]. destruct (p (Element t ps ck h cs)) eqn:E.
    + exists (Element t ps ck h cs). split; [done |]. exists [], [].
      rewrite !app_nil_r. by repeat split.
    + pose proof (update_in_nodes p f cs Hsh IH) as H.
      assert (Hroot : p (shell (Element t ps ck h cs)) = false)
        by by rewrite shell_shallow.
      destruct (update_in (update_node p f) cs) as [cs'|].
      * destruct H as (x & Hx & pre & post & H1 & H2 & H3). exists x. split; [done |].
        exists (shell (Element t ps ck h cs) :: pre), post.
        cbn [nodes map app]. rewrite H1, H2. split; [done | split; [done |]].
        by constructor.
      * cbn [nodes map]. by constructor.
Qed.

(** The nodes of a page after the mutation of the element of an id. *)
Lemma mutateById_nodes (i : string) (f : node -> node) (doc doc' : document) :
  mutateById i f doc = Some doc' ->
  exists x, getElementById i doc = Some x
            /\ subtree_replaced (has_id i) x (f x) (all_nodes doc) (all_nodes doc').
Proof.
  unfold mutateById, getElementById, all_nodes. intros H.
  pose proof (update_in_nodes (has_id i) f doc (shallow_has_id i)) as Hn.
  rewrite H in Hn. apply Hn. apply Forall_forall. intros n _.
  apply update_node_nodes, shallow_has_id.
Qed.

(** Whether there is a node to mutate does not depend on the mutation. *)
Lemma update_node_none (p : node -> bool) (f g : node -> node) (n : node) :
  shallow p -> update_node p f n = None -> update_node p g n = None.
Proof.
  intros Hsh Hf. pose proof (update_node_nodes p f n Hsh) as H1. rewrite Hf in H1.
  pose proof (update_node_nodes p g n Hsh) as H2.
  destruct (update_node p g n) as [n'|]; [|done].
  destruct H2 as (x & Hx & _). by rewrite (find_none_shells p n Hsh H1) in Hx.
Qed.

Lemma update_node_self (p : node -> bool) (f : node -> node) (n : node) :
  p n = true -> update_node p f n = Some (f n).
Proof. intros H. destruct n; cbn [update_node]; by rewrite H. Qed.

(** Two mutations of the same element, one after the other, are the
    mutation by the composition. *)
Lemma update_in_twice (p : node -> bool) (f g h : node -> node) (cs cs1 : list node) :
  shallow p ->
  Forall (fun c => forall c1, update_node p f c = Some c1 ->
                   exists c2, update_node p g c1 = Some c2
                              /\ update_node p h c = Some c2) cs ->
  update_in (update_node p f) cs = Some cs1 ->
  exists cs2, update_in (update_node p g) cs1 = Some cs2
              /\ update_in (update_node p h) cs = Some cs2.
Proof.
  intros Hsh H. revert cs1. induction H as [|c cs Hc _ IH]; intros cs1; [done |].
  cbn [update_in]. destruct (update_node p f c) as [c1|] eqn:E.
  - intros [= <-]. destruct (Hc c1 eq_refl) as (c2 & H1 & H2).
    exists (c2 :: cs). cbn [update_in]. by rewrite H1, H2.
  - destruct (update_in (update_node p f) cs) as [cs1'|]; [|done]. intros [= <-].
    destruct (IH cs1' eq_refl) as (cs2 & H1 & H2). exists (c :: cs2).
    cbn [update_in].
    by rewrite (update_node_none p f g c Hsh E), (update_node_none p f h c Hsh E), H1, H2.
Qed.

Lemma update_node_twice (p : node -> bool) (f g h : node -> node) (n n1 : node) :
  shallow p -> (forall x, p x = true -> p (f x) = true) ->
  (forall x, g (f x) = h x) ->
  update_node p f n = Some n1 ->
  exists n2, update_node p g n1 = Some n2 /\ update_node p h n = Some n2.
Proof.
  intros Hsh Hf Hgf. revert n1.
  induction n as [data | t ps ck hh cs IH] using node_ind; intros n1.
  - cbn [update_node]. destruct (p (Text data)) eqn:E; [|done]. intros [= <-].
    exists (h (Text data)). rewrite update_node_self by by apply Hf.
    by rewrite Hgf.
  - cbn [update_node]. destruct (p (Element t ps ck hh cs)) eqn:E.
    + intros [= <-]. exists (h (Element t ps ck hh cs)).
      rewrite update_node_self by by apply Hf. by rewrite Hgf.
    + destruct (update_in (update_node p f) cs) as [cs1|] eqn:E1; [|done].
      intros [= <-].
      destruct (update_in_twice p f g h cs cs1 Hsh IH E1) as (cs2 & H1 & H2).
      exists (Element t ps ck hh cs2). cbn [update_node].
      by rewrite <- (Hsh t ps ck hh cs cs1), E, H1, H2.
Qed.

Lemma mutateById_twice (i : string) (f g h : node -> node) (doc doc1 : document) :
  (forall x, has_id i x = true -> has_id i (f x) = true) ->
  (forall x, g (f x) = h x) ->
  mutateById i f doc = Some doc1 ->
  exists doc2, mutateById i g doc1 = Some doc2 /\ mutateById i h doc = Some doc2.
Proof.
  intros Hf Hgf H. unfold mutateById in *.
  apply (update_in_twice (has_id i) f g h doc doc1 (shallow_has_id i)); [|done].
  apply Forall_forall. intros n _ n1.
  by apply update_node_twice; [apply shallow_has_id | |].
Qed.

End PageFacts.

(** ** main.js: the date field *)

Section TodayFacts.

Lemma lookup_assign (name v : string) (ps : list (string * string)) :
  lookup_attr name (assign name v ps) = Some v.
Proof.
  induction ps as [|[k v'] ps IH]; cbn [assign lookup_attr].
  - by rewrite String.eqb_refl.
  - destruct (String.eqb k name) eqn:E; cbn [lookup_attr]; by rewrite E.
Qed.

Lemma append_assoc (s t u : string) : (s +:+ t) +:+ u = s +:+ (t +:+ u).
Proof.
  induction s as [|c s IH]; [done |].
  change (String c ((s +:+ t) +:+ u) = String c (s +:+ (t +:+ u))). by rewrite IH.
Qed.

Lemma slice0_app (s rest : string) :
  Str.slice0 (String.length s) (s +:+ rest) = s.
Proof.
  apply chars_inj. rewrite chars_slice0, chars_app, <- chars_length.
  by rewrite firstn_app, Nat.sub_diag, firstn_all, firstn_O, app_nil_r.
Qed.

Lemma find_none_shells_list (p : node -> bool) (l : list node) :
  shallow p -> Forall (fun m => p m = false) (map shell l) -> List.find p l = None.
Proof.
  intros Hsh H. destruct (List.find p l) as [x|] eqn:E; [|done].
  apply find_some in E as [Hin Hx].
  rewrite Forall_forall in H. specialize (H (shell x)).
  rewrite (shell_shallow p x Hsh) in H. rewrite H in Hx; [done |].
  apply list_elem_of_fmap. exists x. split; [done | by apply list_elem_of_In].
Qed.

Lemma shallow_element_matching (matches : node -> bool) :
  shallow matches -> shallow (element_matching matches).
Proof. intros H t ps ck h cs cs'. apply H. Qed.

(** X2.  For a time whose first ten characters are a valid date string
    YYYY-MM-DD, [setDateToTodayInput] gives the first element that the
    selector matches, when that is an input of type date, that date as
    its value, of which [mmddFromDateInput] makes the key MM-DD, and
    changes nothing else on the page; without an element that the
    selector matches it changes nothing. *)
Theorem setDateToTodayInput_today (css : string -> option (node -> bool))
  (selector : string) (matches : node -> bool)
  (yyyy mm dd rest : string) (doc : document) :
  css selector = Some matches -> shallow matches ->
  String.length yyyy = 4 -> String.length mm = 2 -> String.length dd = 2 ->
  ~ In "-"%char (Str.chars yyyy) -> ~ In "-"%char (Str.chars mm) ->
  ~ In "-"%char (Str.chars dd) ->
  valid_date_string (yyyy +:+ "-" +:+ mm +:+ "-" +:+ dd) = true ->
  match first_some (find_node (element_matching matches)) doc with
  | Some el =>
      date_input el = true ->
      exists doc',
        setDateToTodayInput css selector
          (yyyy +:+ "-" +:+ mm +:+ "-" +:+ dd +:+ rest) doc = Normal doc'
        /\ subtree_replaced (element_matching matches) el
             (set_prop "value" (yyyy +:+ "-" +:+ mm +:+ "-" +:+ dd) el)
             (all_nodes doc) (all_nodes doc')
        /\ mmddFromDateInput
             (prop "value" (set_prop "value" (yyyy +:+ "-" +:+ mm +:+ "-" +:+ dd) el))
           = Some (mm +:+ "-" +:+ dd)
  | None =>
      setDateToTodayInput css selector
        (yyyy +:+ "-" +:+ mm +:+ "-" +:+ dd +:+ rest) doc = Normal doc
  end.
Proof.
  intros Hcss Hsh Hy Hm Hd Hpy Hpm Hpd Hvalid.
  assert (Hslice : Str.slice0 10 (yyyy +:+ "-" +:+ mm +:+ "-" +:+ dd +:+ rest)
                   = yyyy +:+ "-" +:+ mm +:+ "-" +:+ dd).
  { replace 10 with (String.length (yyyy +:+ "-" +:+ mm +:+ "-" +:+ dd))
      by (rewrite !length_append, Hy, Hm, Hd; reflexivity).
    rewrite <- (slice0_app (yyyy +:+ "-" +:+ mm +:+ "-" +:+ dd) rest) at 2.
    f_equal. by rewrite !append_assoc. }
  unfold setDateToTodayInput. rewrite Hcss, Hslice.
  destruct (first_some (find_node (element_matching matches)) doc) as [el|] eqn:Hfind;
    [|done].
  intros Hdate.
  assert (Hassign : assign_value (yyyy +:+ "-" +:+ mm +:+ "-" +:+ dd) el
                    = Normal (set_prop "value" (yyyy +:+ "-" +:+ mm +:+ "-" +:+ dd) el)).
  { destruct el as [|t ps ck h cs]; [done |]. unfold assign_value.
    cbn [date_input] in Hdate. apply andb_true_iff in Hdate as [-> Hty].
    destruct (lookup_attr "type" ps) as [ty|]; [|done]. by rewrite Hty, Hvalid. }
  rewrite Hassign. cbn [mbind completion_bind Js.bind].
  pose proof (update_in_nodes (element_matching matches)
                (fun _ => set_prop "value" (yyyy +:+ "-" +:+ mm +:+ "-" +:+ dd) el) doc
                (shallow_element_matching _ Hsh)) as H.
  specialize (H ltac:(apply Forall_forall; intros n _;
                      apply update_node_nodes, shallow_element_matching, Hsh)).
  destruct (update_in _ doc) as [doc'|].
  - destruct H as (el0 & Hfind0 & Hrep). rewrite Hfind in Hfind0.
    injection Hfind0 as <-.
    exists doc'. split; [done |]. split; [done |].
    destruct el as [|t ps ck h cs]; [done |]. cbn [set_prop prop].
    rewrite lookup_assign.
    assert (Hsplit : Str.split "-" (yyyy +:+ "-" +:+ mm +:+ "-" +:+ dd) = [yyyy; mm; dd]).
    { change (Str.split "-" (yyyy +:+ String "-"%char (mm +:+ String "-"%char dd))
              = [yyyy; mm; dd]).
      by rewrite (split_app _ _ _ Hpy), (split_app _ _ _ Hpm), (split_plain _ _ Hpd). }
    unfold mmddFromDateInput.
    destruct (yyyy +:+ "-" +:+ mm +:+ "-" +:+ dd) as [|c s] eqn:E; [by destruct yyyy |].
    rewrite Hsplit. cbn [length Nat.leb nth].
    by rewrite !padStart_padded by lia.
  - rewrite first_some_all_nodes in Hfind.
    by rewrite (find_none_shells_list _ (all_nodes doc)
                  (shallow_element_matching _ Hsh) H) in Hfind.
Qed.

Lemma setDateToTodayInput_today_witness :
  exists doc',
    setDateToTodayInput by_id "#date" "1969-07-20T20:17:40.000Z"
      [Text "When?"; date_field] = Normal doc'
    /\ all_nodes doc'
       = [Text "When?"; set_prop "value" "1969-07-20" date_field]
    /\ mmddFromDateInput (prop "value" (set_prop "value" "1969-07-20" date_field))
       = Some "07-20".
Proof.
  pose proof (setDateToTodayInput_today by_id "#date" (has_id "date")
                "1969" "07" "20" "T20:17:40.000Z" [Text "When?"; date_field]
                eq_refl (shallow_has_id "date") eq_refl eq_refl eq_refl) as H.
  assert (Hy : ~ In "-"%char (Str.chars "1969")) by (cbn; intuition discriminate).
  assert (Hm : ~ In "-"%char (Str.chars "07")) by (cbn; intuition discriminate).
  assert (Hd : ~ In "-"%char (Str.chars "20")) by (cbn; intuition discriminate).
  assert (Hv : valid_date_string "1969-07-20" = true) by (vm_compute; reflexivity).
  specialize (H Hy Hm Hd Hv).
  change (first_some (find_node (element_matching (has_id "date")))
            [Text "When?"; date_field]) with (Some date_field) in H.
  destruct (H eq_refl) as (doc' & H1 & _ & H3).
  exists doc'. split; [exact H1 |]. split; [|exact H3].
  injection H1 as <-. reflexivity.
Defined.

End TodayFacts.

(** ** quiz.js: the rendered form *)

Section RenderFacts.

Lemma fold_appendChild {A} (g : A -> node) (l : list A)
  (t : string) (ps : list (string * string)) (ck : bool) (h : option handler)
  (cs : list node) :
  fold_left (fun acc x => appendChild (g x) acc) l (Element t ps ck h cs)
  = Element t ps ck h (cs ++ map g l).
Proof.
  revert cs. induction l as [|x l IH]; intros cs; cbn [fold_left map].
  - by rewrite app_nil_r.
  - unfold appendChild at 2. cbn [children_of set_children].
    by rewrite IH, <- app_assoc.
Qed.

Lemma render_option_shape (q : QuizQuestion) (opt : string) :
  render_option q opt
  = Element "label" [("style.display", "block"); ("style.marginBottom", "6px")]
      false None
      [option_input q opt;
       Element "span" [("style.marginLeft", "8px")] false None
         (text_fragment [] (Str.chars opt))].
Proof. reflexivity. Qed.

Lemma render_question_shape (idx : nat) (q : QuizQuestion) :
  render_question idx q
  = Element "div"
      [("className", "card"); ("dataset.correct", Str.of_chars (number_text (correct q)))]
      false None
      ([Element "div" [("className", "title")] false None
          (text_fragment []
             (Str.chars (decimal_nat (idx + 1) +:+ ". " +:+ question q)));
        Element "div" [("className", "small"); ("style.marginBottom", "8px")] false None
          (text_fragment [] (Str.chars (default "" (description q))))]
       ++ map (render_option q) (options q)).
Proof.
  unfold render_question.
  cbn [createElement set_prop assign String.eqb Ascii.eqb Bool.eqb appendChild
       children_of set_children app set_innerText].
  by rewrite fold_appendChild.
Qed.

Lemma render_form_shape (qs : list QuizQuestion) :
  render_form qs
  = Element "form" [("id", "quizForm")] false None
      (map (fun iq => render_question (fst iq) (snd iq)) (imap (fun i q => (i, q)) qs)
       ++ [submit_button qs]).
Proof.
  unfold render_form.
  cbn [createElement set_prop assign String.eqb Ascii.eqb Bool.eqb].
  by rewrite fold_appendChild.
Qed.

Lemma flush_run_inert (run : list ascii) :
  forallb inert (flat_map nodes (flush_run run)) = true.
Proof. by destruct run. Qed.

(** The nodes that the [innerText] setter makes are texts and line
    breaks. *)
Lemma text_fragment_inert (cs run : list ascii) :
  forallb inert (flat_map nodes (text_fragment run cs)) = true.
Proof.
  remember (length cs) as k eqn:Hk. revert cs run Hk.
  induction k as [k IH] using lt_wf_ind. intros [|c cs] run Hk; cbn [text_fragment].
  - apply flush_run_inert.
  - cbn [length] in Hk.
    assert (Hbr : forall rest, length rest < k ->
              forallb inert (flat_map nodes (flush_run run ++ br :: text_fragment [] rest))
              = true).
    { intros rest Hlt. rewrite flat_map_app, forallb_app, flush_run_inert.
      cbn [flat_map]. rewrite forallb_app, (IH (length rest) Hlt); done. }
    destruct (Ascii.eqb c "010"); [apply Hbr; lia |].
    destruct (Ascii.eqb c "013").
    + destruct cs as [|c2 cs].
      * rewrite flat_map_app, forallb_app, flush_run_inert. done.
      * cbn [length] in Hk. destruct (Ascii.eqb c2 "010"); apply Hbr; cbn [length]; lia.
    + apply (IH (length cs)); [lia | done].
Qed.

Lemma filter_flat_map {A B} (P : B -> bool) (f : A -> list B) (l : list A) :
  List.filter P (flat_map f l) = flat_map (fun x => List.filter P (f x)) l.
Proof.
  induction l as [|x l IH]; [done |]. cbn [flat_map]. by rewrite List.filter_app, IH.
Qed.

Lemma filter_inert (l : list node) :
  forallb inert l = true -> List.filter active l = [].
Proof.
  induction l as [|n l IH]; [done |]. cbn [forallb List.filter].
  intros [Hn Hl]%andb_true_iff. unfold active at 1. rewrite Hn. by apply IH.
Qed.

Lemma active_nodes (t : string) (ps : list (string * string)) (ck : bool)
  (h : option handler) (cs : list node) :
  List.filter active (nodes (Element t ps ck h cs))
  = List.filter active [Element t ps ck h cs]
    ++ flat_map (fun c => List.filter active (nodes c)) cs.
Proof.
  cbn [nodes List.filter]. rewrite filter_flat_map.
  by destruct (active (Element t ps ck h cs)).
Qed.

(** An element that is inert and holds a text only. *)
Lemma text_element_active (t : string) (ps : list (string * string)) (s : string) :
  inert (Element t ps false None []) = true ->
  List.filter active (nodes (Element t ps false None (text_fragment [] (Str.chars s))))
  = [].
Proof.
  intros H. apply filter_inert. cbn [nodes forallb].
  rewrite text_fragment_inert. by rewrite andb_true_r.
Qed.

Lemma render_option_active (q : QuizQuestion) (opt : string) :
  List.filter active (nodes (render_option q opt)) = [option_input q opt].
Proof.
  rewrite render_option_shape, active_nodes. cbn [flat_map].
  by rewrite text_element_active.
Qed.

Lemma render_question_active (idx : nat) (q : QuizQuestion) :
  List.filter active (nodes (render_question idx q)) = map (option_input q) (options q).
Proof.
  rewrite render_question_shape, active_nodes, flat_map_app. cbn [flat_map].
  rewrite !text_element_active by done.
  change (List.filter active [Element "div" _ false None _]) with (@nil node).
  cbn [app].
  induction (options q) as [|opt opts IH]; [done |].
  cbn [map flat_map]. by rewrite render_option_active, IH.
Qed.

Lemma flat_map_imap {A B} (f : A -> list B) (l : list A) (g : nat -> nat) :
  flat_map (fun iq : nat * A => f (snd iq)) (imap (fun i q => (g i, q)) l) = flat_map f l.
Proof.
  revert g. induction l as [|x l IH]; intros g; [done |].
  cbn [imap flat_map snd]. f_equal. apply (IH (g ∘ S)).
Qed.

Lemma render_form_active (qs : list QuizQuestion) :
  List.filter active (nodes (render_form qs))
  = flat_map (fun q => map (option_input q) (options q)) qs ++ [submit_button qs].
Proof.
  rewrite render_form_shape, active_nodes, flat_map_app.
  change (List.filter active [Element "form" _ false None _]) with (@nil node).
  cbn [app flat_map]. rewrite app_nil_r. f_equal.
  rewrite flat_map_concat_map, map_map, <- flat_map_concat_map.
  rewrite <- (flat_map_imap (fun q => map (option_input q) (options q)) qs (fun i => i)).
  apply flat_map_ext. intros [i q]. apply render_question_active.
Qed.

(** A node that is inert is no checked input. *)
Lemma inert_checked_name (n : node) : inert n = true -> checked_name n = None.
Proof.
  destruct n as [|t ps ck h cs]; [done |]. cbn [inert checked_name].
  destruct (String.eqb t "input"); [done | done].
Qed.

Lemma omap_active {B} (F : node -> option B) (l : list node) :
  (forall n, inert n = true -> F n = None) ->
  omap F l = omap F (List.filter active l).
Proof.
  intros HF. induction l as [|n l IH]; [done |]. cbn [omap list_omap List.filter].
  unfold active at 1. destruct (inert n) eqn:E; cbn [negb].
  - by rewrite (HF n E).
  - cbn [omap list_omap]. by rewrite IH.
Qed.

Lemma render_form_unchecked (qs : list QuizQuestion) :
  omap checked_name (nodes (render_form qs)) = [].
Proof.
  rewrite (omap_active checked_name _ inert_checked_name), render_form_active.
  rewrite omap_app. cbn [omap list_omap checked_name submit_button String.eqb Ascii.eqb
                         Bool.eqb andb app]. rewrite app_nil_r.
  induction qs as [|q qs IH]; [done |]. cbn [flat_map]. rewrite omap_app, IH, app_nil_r.
  induction (options q) as [|opt opts IHo]; [done |]. cbn [map omap list_omap].
  cbn [checked_name option_input lookup_attr String.eqb Ascii.eqb Bool.eqb andb orb].
  done.
Qed.

Lemma quiz_content_unchecked (qs : list QuizQuestion) :
  omap checked_name (flat_map nodes (quiz_content qs)) = [].
Proof.
  unfold quiz_content. destruct (Nat.eqb (length qs) 0); [done |].
  cbn [flat_map]. by rewrite app_nil_r, render_form_unchecked.
Qed.

(** X3.  The form that [renderQuiz] builds: of its nodes, those that are
    an input, a button or carry a click handler are, in tree order, one
    radio button for every option of every question - unchecked, with the
    id of the question as name, the option as value and [id-option] as id
    - and then the one submit button, whose click grades these
    questions.  There are as many radio buttons as options. *)
Theorem render_form_controls (qs : list QuizQuestion) :
  List.filter active (nodes (render_form qs))
  = flat_map (fun q => map (option_input q) (options q)) qs ++ [submit_button qs]
  /\ omap checked_name (nodes (render_form qs)) = []
  /\ length (List.filter active (nodes (render_form qs)))
     = list_sum (map (fun q => length (options q)) qs) + 1.
Proof.
  split; [apply render_form_active | split; [apply render_form_unchecked |]].
  rewrite render_form_active, length_app. cbn [length]. f_equal.
  induction qs as [|q qs IH]; [done |].
  cbn [flat_map map list_sum]. by rewrite length_app, length_map, IH.
Qed.

End RenderFacts.

(** ** quiz.js: the quiz area *)

Section AreaFacts.

Lemma update_node_ext (p : node -> bool) (f f' : node -> node) (n : node) :
  (forall x, f x = f' x) -> update_node p f n = update_node p f' n.
Proof.
  intros Hf. induction n as [data | t ps ck h cs IH] using node_ind;
    cbn [update_node]; rewrite Hf; [done |].
  destruct (p (Element t ps ck h cs)); [done |].
  assert (H : update_in (update_node p f) cs = update_in (update_node p f') cs);
    [|by rewrite H].
  induction IH as [|c cs Hc _ IHcs]; [done |]. cbn [update_in]. by rewrite Hc, IHcs.
Qed.

Lemma mutateById_ext (i : string) (f f' : node -> node) (doc : document) :
  (forall x, f x = f' x) -> mutateById i f doc = mutateById i f' doc.
Proof.
  intros Hf. unfold mutateById. induction doc as [|c cs IH]; [done |].
  cbn [update_in]. by rewrite (update_node_ext _ f f' c Hf), IH.
Qed.

(** [renderQuiz] gives the quiz area its new content, whatever the old. *)
Lemma renderQuiz_mutate (qs : list QuizQuestion) (doc : document) :
  renderQuiz qs doc
  = match mutateById QUIZ_AREA (set_children (quiz_content qs)) doc with
    | Some doc' => doc'
    | None => doc
    end.
Proof.
  unfold renderQuiz.
  match goal with |- context [mutateById _ ?f _] =>
    rewrite (mutateById_ext QUIZ_AREA f (set_children (quiz_content qs)) doc) end;
    [done |].
  intros [|t ps ck h cs]; unfold quiz_content; by destruct (Nat.eqb (length qs) 0).
Qed.

Lemma renderQuiz_area (qs : list QuizQuestion) (doc : document) (container : node) :
  getElementById QUIZ_AREA doc = Some container ->
  mutateById QUIZ_AREA (set_children (quiz_content qs)) doc = Some (renderQuiz qs doc)
  /\ getElementById QUIZ_AREA (renderQuiz qs doc)
     = Some (set_children (quiz_content qs) container).
Proof.
  intros Hc. rewrite renderQuiz_mutate.
  pose proof (mutateById_spec QUIZ_AREA (set_children (quiz_content qs)) doc) as H.
  rewrite Hc in H. destruct H as (doc' & -> & Hg); [|done].
  intros x. by rewrite has_id_set_children.
Qed.

(** A mutation of the quiz area that changes its children only is
    forgotten by the next [renderQuiz]. *)
Lemma renderQuiz_after (qs : list QuizQuestion) (m : node -> node)
  (doc doc1 : document) :
  (forall x, exists cs, m x = set_children cs x) ->
  mutateById QUIZ_AREA m doc = Some doc1 ->
  renderQuiz qs doc1 = renderQuiz qs doc.
Proof.
  intros Hm H. rewrite !renderQuiz_mutate.
  assert (Hid : forall x, has_id QUIZ_AREA x = true -> has_id QUIZ_AREA (m x) = true).
  { intros x. destruct (Hm x) as [cs ->]. by rewrite has_id_set_children. }
  assert (Hgf : forall x, set_children (quiz_content qs) (m x)
                          = set_children (quiz_content qs) x).
  { intros x. destruct (Hm x) as [cs ->]. by destruct x. }
  by destruct (mutateById_twice QUIZ_AREA m _ _ doc doc1 Hid Hgf H) as (doc2 & -> & ->).
Qed.

Lemma gradeQuiz_with_mutate (query : string -> document -> completion (option node))
  (qs : list QuizQuestion) (doc doc' : document) :
  gradeQuiz_with query qs doc = Normal doc' ->
  exists score,
    forEach (grade_step_with query doc) 0 qs = Normal score
    /\ mutateById QUIZ_AREA (appendChild (result_card score (length qs))) doc = Some doc'.
Proof.
  unfold gradeQuiz_with.
  destruct (forEach (grade_step_with query doc) 0 qs) as [score|e|]; [|done..].
  cbn [mbind completion_bind Js.bind].
  destruct (mutateById _ _ doc) as [d|] eqn:Hm; [|done]. intros [= <-]. by exists score.
Qed.

(** X4.  [renderQuiz] replaces: the page after it does not depend on
    what the scripts of quiz.js did to the quiz area before.  Rendering
    after an earlier rendering, after a grading, or after a load, gives the
    page that rendering alone gives; rendering the same questions twice
    changes nothing the second time. *)
Theorem renderQuiz_replaces (qs : list QuizQuestion) (doc : document) :
  (forall qs', renderQuiz qs (renderQuiz qs' doc) = renderQuiz qs doc)
  /\ (forall query qs' doc',
        gradeQuiz_with query qs' doc = Normal doc' ->
        renderQuiz qs doc' = renderQuiz qs doc)
  /\ (forall fetch mmdd count doc',
        loadQuiz fetch mmdd count doc = Normal doc' ->
        renderQuiz qs doc' = renderQuiz qs doc).
Proof.
  assert (Hrender : forall qs', renderQuiz qs (renderQuiz qs' doc) = renderQuiz qs doc).
  { intros qs'. rewrite (renderQuiz_mutate qs' doc).
    destruct (mutateById QUIZ_AREA (set_children (quiz_content qs')) doc) as [doc1|] eqn:E;
      [|done].
    apply (renderQuiz_after qs (set_children (quiz_content qs')) doc doc1); [|done].
    intros x. by eexists. }
  split; [done | split].
  - intros query qs' doc' (score & _ & Hm)%gradeQuiz_with_mutate.
    apply (renderQuiz_after qs _ doc doc' ltac:(intros x; by eexists) Hm).
  - intros fetch mmdd count doc'. unfold loadQuiz.
    destruct (fetch _) as [res|e|]; [|done..]. cbn [mbind completion_bind Js.bind].
    destruct (ok res); cbn [negb].
    + destruct (json res) as [data|e|]; [|done..].
      cbn [mbind completion_bind Js.bind]. intros [= <-]. apply Hrender.
    + destruct (mutateById _ _ doc) as [d|] eqn:Hm; [|done]. intros [= <-].
      apply (renderQuiz_after qs _ doc d ltac:(intros x; by eexists) Hm).
Qed.

Lemma renderQuiz_replaces_witness :
  renderQuiz [year_question] rendered_page = rendered_page
  /\ forall doc', gradeQuiz [year_question] rendered_page = Normal doc' ->
                  renderQuiz [year_question] doc' = rendered_page.
Proof.
  destruct (renderQuiz_replaces [year_question] [stale_area]) as (H1 & _).
  split; [exact (H1 [year_question]) |].
  intros doc' H.
  destruct (renderQuiz_replaces [year_question] rendered_page) as (_ & H2 & _).
  rewrite (H2 querySelector [year_question] doc' H). exact (H1 [year_question]).
Defined.

(** X5.  The scripts of quiz.js change the quiz area and nothing else:
    after [renderQuiz], after [gradeQuiz] and after a [loadQuiz], the
    nodes of the page before the quiz area and behind it are the same, in
    the same order, with the same properties, state and handlers; in the
    quiz area [renderQuiz] has replaced the content, [gradeQuiz] has
    appended its card to the content, and a [loadQuiz] that returns has
    done the one or put its notice there. *)
Theorem quiz_area_only (doc : document) (container : node) :
  getElementById QUIZ_AREA doc = Some container ->
  (forall qs,
      subtree_replaced (has_id QUIZ_AREA) container
        (set_children (quiz_content qs) container)
        (all_nodes doc) (all_nodes (renderQuiz qs doc)))
  /\ (forall query qs doc',
        gradeQuiz_with query qs doc = Normal doc' ->
        exists score,
          score <= length qs
          /\ subtree_replaced (has_id QUIZ_AREA) container
               (set_children (children_of container ++ [result_card score (length qs)])
                  container)
               (all_nodes doc) (all_nodes doc'))
  /\ (forall fetch mmdd count doc',
        loadQuiz fetch mmdd count doc = Normal doc' ->
        exists content,
          subtree_replaced (has_id QUIZ_AREA) container (set_children content container)
            (all_nodes doc) (all_nodes doc')
          /\ (content = [Text COULD_NOT_LOAD] \/ exists qs, content = quiz_content qs)).
Proof.
  intros Hc.
  assert (Hrender : forall qs,
      subtree_replaced (has_id QUIZ_AREA) container
        (set_children (quiz_content qs) container)
        (all_nodes doc) (all_nodes (renderQuiz qs doc))).
  { intros qs. destruct (renderQuiz_area qs doc container Hc) as [Hm _].
    apply mutateById_nodes in Hm as (x & Hx & H). rewrite Hc in Hx.
    by injection Hx as <-. }
  split; [done | split].
  - intros query qs doc' (score & Hs & Hm)%gradeQuiz_with_mutate. exists score.
    apply forEach_grade_bounds in Hs. split; [lia |].
    apply mutateById_nodes in Hm as (x & Hx & H). rewrite Hc in Hx.
    by injection Hx as <-.
  - intros fetch mmdd count doc'. unfold loadQuiz.
    destruct (fetch _) as [res|e|]; [|done..]. cbn [mbind completion_bind Js.bind].
    destruct (ok res); cbn [negb].
    + destruct (json res) as [data|e|]; [|done..].
      cbn [mbind completion_bind Js.bind]. intros [= <-].
      exists (quiz_content (default [] (questions data))). split; [done |].
      right. by eexists.
    + destruct (mutateById _ _ doc) as [d|] eqn:Hm; [|done]. intros [= <-].
      exists [Text COULD_NOT_LOAD]. split; [|by left].
      apply mutateById_nodes in Hm as (x & Hx & H). rewrite Hc in Hx.
      by injection Hx as <-.
Qed.

Lemma quiz_area_only_witness :
  subtree_replaced (has_id QUIZ_AREA) stale_area
    (set_children (quiz_content [year_question]) stale_area)
    (all_nodes [Text "head"; stale_area; Text "foot"])
    (all_nodes (renderQuiz [year_question] [Text "head"; stale_area; Text "foot"])).
Proof.
  exact (proj1 (quiz_area_only [Text "head"; stale_area; Text "foot"] stale_area eq_refl)
           [year_question]).
Defined.

End AreaFacts.

(** ** quiz.js: grading a page *)

Section GradeFacts.

Lemma omap_shell {B} (F : node -> option B) (l : list node) :
  (forall n, F (shell n) = F n) -> omap F (map shell l) = omap F l.
Proof.
  intros HF. induction l as [|n l IH]; [done |].
  cbn [map omap list_omap]. by rewrite HF, IH.
Qed.

Lemma checked_name_shell (n : node) : checked_name (shell n) = checked_name n.
Proof. by destruct n. Qed.

Lemma omap_inert {B} (F : node -> option B) (l : list node) :
  (forall n, inert n = true -> F n = None) -> forallb inert l = true -> omap F l = [].
Proof.
  intros HF. induction l as [|n l IH]; [done |]. cbn [forallb omap list_omap].
  intros [Hn Hl]%andb_true_iff. by rewrite (HF n Hn), IH.
Qed.

(** What a test of single nodes sees of the page is what it saw before,
    when inert nodes have been appended to an element. *)
Lemma appended_inert {B} (F : node -> option B) (p : node -> bool)
  (c card : node) (before after : list node) :
  (forall n, F (shell n) = F n) ->
  (forall n, inert n = true -> F n = None) ->
  forallb inert (nodes card) = true ->
  subtree_replaced p c (appendChild card c) before after ->
  omap F after = omap F before.
Proof.
  intros Hsh Hin Hcard (pre & post & H1 & H2 & _).
  rewrite <- (omap_shell F after Hsh), <- (omap_shell F before Hsh), H1, H2.
  rewrite !omap_app. f_equal. f_equal.
  destruct c as [data | t ps ck h cs].
  - done.
  - cbn [appendChild children_of set_children nodes].
    rewrite flat_map_app. cbn [flat_map]. rewrite app_nil_r, !map_cons, map_app.
    change (shell (Element t ps ck h (cs ++ [card]))) with (shell (Element t ps ck h cs)).
    rewrite app_comm_cons, omap_app.
    by rewrite (omap_shell F (nodes card) Hsh), (omap_inert F _ Hin Hcard), app_nil_r.
Qed.

Lemma existsb_omap (G : node -> bool) (l : list node) :
  existsb G l
  = negb (Nat.eqb (length (omap (fun n => if G n then Some tt else None) l)) 0).
Proof.
  induction l as [|n l IH]; [done |]. cbn [existsb omap list_omap].
  destruct (G n); [done | by rewrite IH].
Qed.

Lemma unchecked_not_selected (doc : document) (q : QuizQuestion) :
  omap checked_name (all_nodes doc) = [] -> selected_correct doc q = false.
Proof.
  unfold selected_correct. induction (all_nodes doc) as [|n l IH]; [done |].
  cbn [omap list_omap existsb]. destruct (checked_name n) as [name|] eqn:E; [done |].
  intros Hl. rewrite (IH Hl), orb_false_r.
  destruct (checked_input_named (id q) n) eqn:Hn; [|done].
  apply checked_input_named_name in Hn. congruence.
Qed.

Lemma selected_shell (q : QuizQuestion) (n : node) :
  (if checked_input_named (id q) (shell n)
      && bool_decide (parseInt (input_value (shell n)) = Some (correct q))
   then Some tt else None)
  = (if checked_input_named (id q) n
        && bool_decide (parseInt (input_value n) = Some (correct q))
     then Some tt else None).
Proof. by destruct n. Qed.

Lemma selected_inert (q : QuizQuestion) (n : node) :
  inert n = true ->
  (if checked_input_named (id q) n
      && bool_decide (parseInt (input_value n) = Some (correct q))
   then Some tt else None) = None.
Proof.
  destruct n as [|t ps ck h cs]; [done |]. cbn [inert checked_input_named].
  by destruct (String.eqb t "input").
Qed.

Lemma result_card_inert (score total : nat) :
  forallb inert (nodes (result_card score total)) = true.
Proof. reflexivity. Qed.

Lemma gradeQuiz_plain (qs : list QuizQuestion) (doc : document) (container : node) :
  Forall (fun q => plain_name (id q) = true /\ modelled q = true) qs ->
  exclusive doc ->
  getElementById QUIZ_AREA doc = Some container ->
  exists doc',
    gradeQuiz qs doc = Normal doc'
    /\ mutateById QUIZ_AREA
         (appendChild (result_card (length (List.filter (counted doc) qs))
                         (length qs))) doc = Some doc'
    /\ getElementById QUIZ_AREA doc'
       = Some (appendChild
                 (result_card (length (List.filter (counted doc) qs)) (length qs))
                 container).
Proof.
  intros Hp Hex Hc. unfold gradeQuiz, gradeQuiz_with. fold grade_step.
  rewrite (forEach_grade_plain _ _ 0 Hp Hex).
  cbn [mbind completion_bind Js.bind Nat.add].
  pose proof (mutateById_spec QUIZ_AREA
                (appendChild
                   (result_card (length (List.filter (counted doc) qs))
                      (length qs))) doc) as H.
  rewrite Hc in H. destruct H as (doc' & -> & Hg).
  { intros x. by rewrite has_id_appendChild. }
  by exists doc'.
Qed.

(** X6.  A quiz that was just rendered grades to 0: on a page without a
    checked input, [renderQuiz] and then [gradeQuiz] of the same
    questions leave the quiz area with the rendered content followed by
    the card of the score 0. *)
Theorem gradeQuiz_fresh (qs : list QuizQuestion) (doc : document) (container : node) :
  Forall (fun q => plain_name (id q) = true /\ modelled q = true) qs ->
  omap checked_name (all_nodes doc) = [] ->
  getElementById QUIZ_AREA doc = Some container ->
  exists doc',
    gradeQuiz qs (renderQuiz qs doc) = Normal doc'
    /\ getElementById QUIZ_AREA doc'
       = Some (set_children (quiz_content qs ++ [result_card 0 (length qs)]) container).
Proof.
  intros Hp H0 Hc.
  destruct (renderQuiz_area qs doc container Hc) as [Hm Hg].
  assert (H1 : omap checked_name (all_nodes (renderQuiz qs doc)) = []).
  { apply mutateById_nodes in Hm as (x & Hx & pre & post & Hb & Ha & _).
    rewrite Hc in Hx. injection Hx as <-.
    rewrite <- (omap_shell checked_name _ checked_name_shell), Ha.
    rewrite <- (omap_shell checked_name _ checked_name_shell), Hb in H0.
    rewrite !omap_app in *.
    apply app_eq_nil in H0 as [-> H0]. apply app_eq_nil in H0 as [H0 ->].
    rewrite app_nil_r. cbn [app].
    apply getElementById_element in Hc as (_ & t & ps & ck & h & cs & ->).
    cbn [set_children nodes map omap list_omap] in *.
    change (shell (Element t ps ck h (quiz_content qs)))
      with (shell (Element t ps ck h cs)).
    destruct (checked_name (shell (Element t ps ck h cs))); [done |].
    by rewrite (omap_shell checked_name _ checked_name_shell), quiz_content_unchecked. }
  assert (Hex : exclusive (renderQuiz qs doc)).
  { unfold exclusive. rewrite H1. constructor. }
  destruct (gradeQuiz_plain qs (renderQuiz qs doc) _ Hp Hex Hg) as (doc' & Hgr & _ & Hg').
  exists doc'. split; [done |]. rewrite Hg'.
  assert (Hnone : List.filter (counted (renderQuiz qs doc)) qs = []).
  { generalize (renderQuiz qs doc) H1. clear. intros d H1.
    induction qs as [|q qs' IH]; [done |]. cbn [List.filter]. unfold counted at 1.
    rewrite (unchecked_not_selected _ q H1), andb_false_r. exact IH. }
  rewrite Hnone.
  apply getElementById_element in Hc as (_ & t & ps & ck & h & cs & ->). done.
Qed.

Lemma gradeQuiz_fresh_witness :
  exists doc',
    gradeQuiz [year_question] (renderQuiz [year_question] [stale_area]) = Normal doc'
    /\ getElementById QUIZ_AREA doc'
       = Some (set_children (quiz_content [year_question] ++ [result_card 0 1])
                 stale_area).
Proof.
  apply (gradeQuiz_fresh [year_question] [stale_area] stale_area).
  - constructor; [split; reflexivity | constructor].
  - reflexivity.
  - reflexivity.
Defined.

(** X7.  Grading again appends again: for questions whose ids hold no
    double quote, backslash, line break or U+0000, [gradeQuiz] twice
    leaves the quiz area with two equal result cards behind its content.
    The card of the first grading changes neither the score of the
    second nor the exclusive choice. *)
Theorem gradeQuiz_twice (qs : list QuizQuestion) (doc : document) (container : node) :
  Forall (fun q => quotable (id q) = true /\ modelled q = true) qs ->
  exclusive doc ->
  getElementById QUIZ_AREA doc = Some container ->
  exists doc1 doc2 card,
    gradeQuiz qs doc = Normal doc1
    /\ gradeQuiz qs doc1 = Normal doc2
    /\ card = result_card (length (List.filter (selected_correct doc) qs)) (length qs)
    /\ getElementById QUIZ_AREA doc2
       = Some (set_children (children_of container ++ [card; card]) container)
    /\ exclusive doc1
    /\ (forall q, selected_correct doc1 q = selected_correct doc q).
Proof.
  intros Hq Hex Hc.
  destruct (counted_quotable doc qs Hq) as [Hcount Hp].
  destruct (gradeQuiz_plain qs doc container Hp Hex Hc) as (doc1 & Hg1 & Hm & Hc1).
  rewrite Hcount in Hm, Hc1.
  apply mutateById_nodes in Hm as (x & Hx & Hrep).
  rewrite Hc in Hx. injection Hx as <-.
  assert (Hex1 : exclusive doc1).
  { unfold exclusive.
    by rewrite (appended_inert checked_name _ _ _ _ _ checked_name_shell
                  inert_checked_name (result_card_inert _ _) Hrep). }
  assert (Hsel : forall q, selected_correct doc1 q = selected_correct doc q).
  { intros q. unfold selected_correct. rewrite !existsb_omap.
    rewrite (appended_inert _ _ _ _ _ _ (selected_shell q) (selected_inert q)
               (result_card_inert _ _) Hrep). done. }
  destruct (gradeQuiz_plain qs doc1 _ Hp Hex1 Hc1) as (doc2 & Hg2 & _ & Hc2).
  rewrite (proj1 (counted_quotable doc1 qs Hq)) in Hc2.
  exists doc1, doc2, (result_card (length (List.filter (selected_correct doc) qs))
                        (length qs)).
  split; [done |]. split; [done |]. split; [done |]. split; [|done].
  rewrite Hc2, (List.filter_ext _ _ Hsel).
  apply getElementById_element in Hc as (_ & t & ps & ck & h & cs & ->).
  cbn [appendChild children_of set_children]. by rewrite <- app_assoc.
Qed.

Lemma gradeQuiz_twice_witness :
  exists doc1 doc2,
    gradeQuiz [year_question] [answered_area] = Normal doc1
    /\ gradeQuiz [year_question] doc1 = Normal doc2
    /\ getElementById QUIZ_AREA doc2
       = Some (set_children
                 (children_of answered_area ++ [result_card 1 1; result_card 1 1])
                 answered_area).
Proof.
  destruct (gradeQuiz_twice [year_question] [answered_area] answered_area)
    as (doc1 & doc2 & card & H1 & H2 & -> & H4 & _).
  - constructor; [split; reflexivity | constructor].
  - unfold exclusive. vm_compute. apply NoDup_singleton.
  - reflexivity.
  - exists doc1, doc2. split; [exact H1 | split; [exact H2 | exact H4]].
Defined.

End GradeFacts.

(** ** quiz.js: loading *)

Section LoadFacts.

(** X8.  What [loadQuiz] does with the answer of the network.  A
    rejected request and a body that cannot be read reject the load with
    the same error, and nothing is shown.  A body with a success status is
    rendered: the quiz area then holds the form of its questions, or the
    notice of no questions when [questions] is missing or empty. *)
Theorem loadQuiz_answered (fetch : request -> completion response)
  (mmdd : option string) (count : option Z) (doc : document) :
  (forall e, fetch (quiz_request mmdd count) = Throw e ->
             loadQuiz fetch mmdd count doc = Throw e)
  /\ (forall res e,
        fetch (quiz_request mmdd count) = Normal res -> ok res = true ->
        json res = Throw e ->
        loadQuiz fetch mmdd count doc = Throw e)
  /\ (forall res data container,
        fetch (quiz_request mmdd count) = Normal res -> ok res = true ->
        json res = Normal data ->
        getElementById QUIZ_AREA doc = Some container ->
        exists doc',
          loadQuiz fetch mmdd count doc = Normal doc'
          /\ getElementById QUIZ_AREA doc'
             = Some (set_children
                       match questions data with
                       | Some (q :: qs) => [render_form (q :: qs)]
                       | _ => NO_QUESTIONS
                       end container)).
Proof.
  split; [|split].
  - intros e Hf. unfold loadQuiz. by rewrite Hf.
  - intros res e Hf Hok Hj. unfold loadQuiz. rewrite Hf.
    cbn [mbind completion_bind Js.bind]. by rewrite Hok, Hj.
  - intros res data container Hf Hok Hj Hc. unfold loadQuiz. rewrite Hf.
    cbn [mbind completion_bind Js.bind]. rewrite Hok, Hj.
    cbn [negb mbind completion_bind Js.bind]. eexists. split; [done |].
    rewrite (proj2 (renderQuiz_area _ doc container Hc)).
    by destruct (questions data) as [[|q qs]|].
Qed.

Lemma loadQuiz_answered_witness :
  exists doc',
    loadQuiz (fun _ => Normal {| ok := true; json := Normal {| questions := None |} |})
      (Some "07-20") None [stale_area] = Normal doc'
    /\ getElementById QUIZ_AREA doc' = Some (set_children NO_QUESTIONS stale_area).
Proof.
  exact (proj2 (proj2 (loadQuiz_answered
                         (fun _ => Normal {| ok := true;
                                             json := Normal {| questions := None |} |})
                         (Some "07-20") None [stale_area]))
           _ _ stale_area eq_refl eq_refl eq_refl eq_refl).
Defined.

(** X9.  On a page without a quiz area [renderQuiz] does nothing, and a
    load with a success status leaves the page as it is; [gradeQuiz]
    does not return and, for ids that its selector can quote, throws a
    TypeError, and so does a load with a failure status. *)
Theorem quiz_area_missing (doc : document) :
  getElementById QUIZ_AREA doc = None ->
  (forall qs, renderQuiz qs doc = doc)
  /\ (forall query qs doc', gradeQuiz_with query qs doc <> Normal doc')
  /\ (forall qs,
        Forall (fun q => plain_name (id q) = true /\ modelled q = true) qs ->
        gradeQuiz qs doc = Throw TypeError)
  /\ (forall fetch mmdd count res,
        fetch (quiz_request mmdd count) = Normal res ->
        loadQuiz fetch mmdd count doc
        = if ok res then data ← json res; Normal doc else Throw TypeError).
Proof.
  intros Hc.
  assert (Hnone : forall f, (forall x, has_id QUIZ_AREA x = true ->
                                       has_id QUIZ_AREA (f x) = true) ->
                            mutateById QUIZ_AREA f doc = None).
  { intros f Hf. pose proof (mutateById_spec QUIZ_AREA f doc Hf) as H.
    by rewrite Hc in H. }
  assert (Hrender : forall qs, renderQuiz qs doc = doc).
  { intros qs. rewrite renderQuiz_mutate, Hnone; [done |].
    intros x. by rewrite has_id_set_children. }
  split; [done | split; [|split]].
  - intros query qs doc' (score & _ & Hm)%gradeQuiz_with_mutate.
    rewrite Hnone in Hm; [done |]. intros x. by rewrite has_id_appendChild.
  - intros qs Hp. unfold gradeQuiz, gradeQuiz_with. fold grade_step.
    destruct (forEach_grade_returns doc qs 0 Hp) as [score ->].
    cbn [mbind completion_bind Js.bind]. rewrite Hnone; [done |].
    intros x. by rewrite has_id_appendChild.
  - intros fetch mmdd count res Hf. unfold loadQuiz. rewrite Hf.
    cbn [mbind completion_bind Js.bind]. destruct (ok res); cbn [negb].
    + destruct (json res); cbn [mbind completion_bind Js.bind]; by rewrite ?Hrender.
    + rewrite Hnone; [done |]. intros x. by rewrite has_id_set_innerText.
Qed.

Lemma quiz_area_missing_witness :
  gradeQuiz [year_question] [Text "no quiz here"] = Throw TypeError
  /\ renderQuiz [year_question] [Text "no quiz here"] = [Text "no quiz here"].
Proof.
  destruct (quiz_area_missing [Text "no quiz here"] eq_refl) as (H1 & _ & H3 & _).
  split; [apply H3 | apply H1].
  constructor; [split; reflexivity | constructor].
Defined.

(** X10.  The request of a load for a date: with a result of
    [mmddFromDateInput] as first argument the request has the parameter
    [mmdd] with that result when there is one, and no such parameter when
    the result is null; it always has the parameter [count], the text
    that JavaScript makes of the number: its decimal digits when it is a
    safe integer, and 5 when the argument is left out. *)
Theorem quiz_request_of_date (dateVal : option string) (count : option Z) :
  path (quiz_request (mmddFromDateInput dateVal) count) = "/api/quiz"
  /\ lookup_attr "mmdd" (searchParams (quiz_request (mmddFromDateInput dateVal) count))
     = mmddFromDateInput dateVal
  /\ lookup_attr "count" (searchParams (quiz_request (mmddFromDateInput dateVal) count))
     = Some (Str.of_chars (number_text (default 5%Z count)))
  /\ (safe_integer (default 5%Z count) = true ->
      number_text (default 5%Z count) = decimal_Z (default 5%Z count))
  /\ lookup_attr "count" (searchParams (quiz_request (mmddFromDateInput dateVal) None))
     = Some "5"
  /\ length (searchParams (quiz_request (mmddFromDateInput dateVal) count))
     = match mmddFromDateInput dateVal with Some _ => 2 | None => 1 end.
Proof.
  assert (Hsafe : safe_integer (default 5%Z count) = true ->
                  number_text (default 5%Z count) = decimal_Z (default 5%Z count)).
  { intros H. unfold number_text. by rewrite H. }
  destruct (mmddFromDateInput dateVal) as [key|] eqn:E.
  - assert (Hne : key <> EmptyString).
    { destruct dateVal as [[|c s]|]; try done. unfold mmddFromDateInput in E.
      destruct (Nat.leb 3 _); [|done]. injection E as <-.
      intros H. apply (f_equal String.length) in H.
      rewrite length_append, padStart_zero_length in H. cbn [String.length] in H. lia. }
    destruct key as [|c key]; [done |]. repeat split; try done.
  - repeat split; try done.
Qed.

Lemma quiz_request_of_date_witness :
  number_text 20 = decimal_Z 20
  /\ lookup_attr "count"
       (searchParams (quiz_request (mmddFromDateInput (Some "1969-07-20")) (Some 20%Z)))
     = Some "20".
Proof.
  destruct (quiz_request_of_date (Some "1969-07-20") (Some 20%Z))
    as (_ & _ & H3 & H4 & _).
  split; [exact (H4 eq_refl) | exact H3].
Defined.

End LoadFacts.

(** ** bookmarks.js: the stored list *)

Section MoreBookmarkFacts.

(** X11.  After [clearBookmarks] the list is empty, whatever was stored, and
    a record added then is the whole list; clearing twice is clearing once,
    and no other item of the storage is touched. *)
Theorem clearBookmarks_empties (localStorage : gmap string string) :
  loadBookmarks (clearBookmarks localStorage) = Normal (JArr [])
  /\ clearBookmarks (clearBookmarks localStorage) = clearBookmarks localStorage
  /\ (forall k, k <> BOOKMARK_KEY -> clearBookmarks localStorage !! k = localStorage !! k)
  /\ (forall eventObj,
        wf eventObj = true ->
        exists stored,
          addBookmark eventObj (clearBookmarks localStorage) = (Normal true, stored)
          /\ loadBookmarks stored = Normal (JArr [eventObj])).
Proof.
  assert (Hload : loadBookmarks (clearBookmarks localStorage) = Normal (JArr [])).
  { unfold loadBookmarks, clearBookmarks. by rewrite lookup_delete_eq. }
  split; [done | split; [|split]].
  - unfold clearBookmarks. apply map_eq. intros k.
    destruct (decide (k = BOOKMARK_KEY)) as [-> | Hk].
    + by rewrite !lookup_delete_eq.
    + by rewrite !lookup_delete_ne.
  - intros k Hk. unfold clearBookmarks. by rewrite lookup_delete_ne.
  - intros eventObj Hwf. unfold addBookmark. rewrite Hload. cbn [array_some].
    eexists. split; [done |]. apply load_saved. cbn [wf forallb]. by rewrite Hwf.
Qed.

Lemma clearBookmarks_empties_witness :
  exists stored,
    addBookmark sputnik (clearBookmarks moon_stored) = (Normal true, stored)
    /\ loadBookmarks stored = Normal (JArr [sputnik]).
Proof.
  destruct (clearBookmarks_empties moon_stored) as (_ & _ & _ & H).
  exact (H sputnik eq_refl).
Defined.

(** X12.  What [saveBookmarks] stores, [loadBookmarks] returns: a list
    saved is the list loaded, whatever was stored before; a second save
    replaces the first, and no other item of the storage is touched. *)
Theorem saveBookmarks_then_load (list : value) (localStorage : gmap string string) :
  wf list = true ->
  loadBookmarks (saveBookmarks list localStorage) = Normal list
  /\ (forall earlier,
        saveBookmarks list (saveBookmarks earlier localStorage)
        = saveBookmarks list localStorage)
  /\ (forall k, k <> BOOKMARK_KEY ->
        saveBookmarks list localStorage !! k = localStorage !! k)
  /\ clearBookmarks (saveBookmarks list localStorage) = clearBookmarks localStorage.
Proof.
  intros Hwf. split; [by apply load_saved | split; [|split]].
  - intros earlier. unfold saveBookmarks. by rewrite insert_insert_eq.
  - intros k Hk. unfold saveBookmarks. by rewrite lookup_insert_ne.
  - unfold saveBookmarks, clearBookmarks. by rewrite delete_insert_eq.
Qed.

Lemma saveBookmarks_then_load_witness :
  loadBookmarks (saveBookmarks (JArr [sputnik; moon]) moon_stored)
  = Normal (JArr [sputnik; moon]).
Proof.
  exact (proj1 (saveBookmarks_then_load (JArr [sputnik; moon]) moon_stored eq_refl)).
Defined.

(** X13.  [addBookmark] writes only when it returns true: when it
    returns false and when it throws, the storage is what it was.  When it
    returns true it has written the text of the list with the record in
    front under the one key; no other item of the storage is touched. *)
Theorem addBookmark_writes_on_success_only (eventObj : value)
  (localStorage : gmap string string) :
  (fst (addBookmark eventObj localStorage) = Normal false
   \/ (exists e, fst (addBookmark eventObj localStorage) = Throw e) ->
   snd (addBookmark eventObj localStorage) = localStorage)
  /\ (fst (addBookmark eventObj localStorage) = Normal true ->
      exists items,
        loadBookmarks localStorage = Normal (JArr items)
        /\ snd (addBookmark eventObj localStorage) !! BOOKMARK_KEY
           = Some (JSON_stringify (JArr (eventObj :: items)) 0))
  /\ (fst (addBookmark eventObj localStorage) <> Unmodelled ->
      forall k, k <> BOOKMARK_KEY ->
                snd (addBookmark eventObj localStorage) !! k = localStorage !! k).
Proof.
  unfold addBookmark.
  destruct (loadBookmarks localStorage) as [[| | | |items|]|e|]; cbn [fst snd];
    try (split; [done | split; [done | done]]).
  destruct (array_some (same_bookmark eventObj) items) as [[]|e|]; cbn [fst snd];
    try (split; [done | split; [done | done]]).
  split; [|split].
  - intros [H | [e H]]; discriminate H.
  - intros _. exists items. split; [done |]. unfold saveBookmarks.
    by rewrite lookup_insert_eq.
  - intros _ k Hk. unfold saveBookmarks. by rewrite lookup_insert_ne.
Qed.

Lemma addBookmark_writes_on_success_only_witness :
  snd (addBookmark moon_again moon_stored) = moon_stored.
Proof.
  apply (proj1 (addBookmark_writes_on_success_only moon_again moon_stored)).
  left. vm_compute. reflexivity.
Defined.

Lemma same_bookmark_null_entry (eventObj : value) :
  same_bookmark eventObj JNull = Throw TypeError.
Proof. done. Qed.

Lemma same_bookmark_null_record (b : value) :
  same_bookmark JNull b = Throw TypeError.
Proof. by destruct b. Qed.

Lemma array_some_app (f : value -> completion bool) (pre post : list value) :
  array_some f pre = Normal false ->
  array_some f (pre ++ post) = array_some f post.
Proof.
  induction pre as [|x pre IH]; [done |]. cbn [array_some app].
  destruct (f x) as [[]|e|]; cbn [mbind completion_bind Js.bind]; try done.
Qed.

(** X14.  [addBookmark] throws a TypeError, and leaves the storage, when
    the stored text denotes a value that is no list, and when the stored
    list has a null entry that the search reaches: one with no record
    of the new record's (title, date) pair before it. *)
Theorem addBookmark_type_errors (eventObj : value) (localStorage : gmap string string) :
  (forall v,
      loadBookmarks localStorage = Normal v ->
      (forall items, v <> JArr items) ->
      addBookmark eventObj localStorage = (Throw TypeError, localStorage))
  /\ (forall pre post t d,
        loadBookmarks localStorage = Normal (JArr (pre ++ JNull :: post)) ->
        pair_of eventObj = Some (t, d) ->
        Forall (fun b => is_null b = false) pre ->
        (forall b, In b pre -> pair_of b <> Some (t, d)) ->
        addBookmark eventObj localStorage = (Throw TypeError, localStorage)).
Proof.
  split.
  - intros v Hload Hv. unfold addBookmark. rewrite Hload.
    destruct v as [| | | |items|]; try done. by destruct (Hv items).
  - intros pre post t d Hload He Hnn Hnew. unfold addBookmark. rewrite Hload.
    rewrite array_some_app; [done |].
    rewrite (array_some_pair _ _ t d He Hnn). f_equal.
    destruct (existsb _ pre) eqn:Hocc; [|done].
    apply pair_occurs in Hocc as (b & Hin & Hb). by destruct (Hnew b Hin).
Qed.

Lemma addBookmark_type_errors_witness :
  addBookmark sputnik number_stored = (Throw TypeError, number_stored)
  /\ addBookmark sputnik null_stored = (Throw TypeError, null_stored).
Proof.
  split.
  - apply (proj1 (addBookmark_type_errors sputnik number_stored) (JNum 5)).
    + vm_compute. reflexivity.
    + intros items. discriminate.
  - apply (proj2 (addBookmark_type_errors sputnik null_stored)
             [moon] [] "Sputnik" "10-04").
    + vm_compute. reflexivity.
    + reflexivity.
    + constructor; [reflexivity | constructor].
    + intros b [<- | []]. discriminate.
Defined.

(** X15.  [addBookmark(null)]: with a stored list that is not empty the
    call throws a TypeError and leaves the storage; with the empty list it
    returns true and stores the list of the one entry null, after which
    every call of [addBookmark], whatever its argument, throws a TypeError
    and leaves the storage. *)
Theorem addBookmark_null_record (localStorage : gmap string string) (items : list value) :
  loadBookmarks localStorage = Normal (JArr items) ->
  (items <> [] -> addBookmark JNull localStorage = (Throw TypeError, localStorage))
  /\ (items = [] ->
      exists stored,
        addBookmark JNull localStorage = (Normal true, stored)
        /\ loadBookmarks stored = Normal (JArr [JNull])
        /\ forall eventObj, addBookmark eventObj stored = (Throw TypeError, stored)).
Proof.
  intros Hload. split.
  - intros Hne. unfold addBookmark. rewrite Hload.
    destruct items as [|b items]; [done |]. cbn [array_some].
    by rewrite same_bookmark_null_record.
  - intros ->. unfold addBookmark at 1. rewrite Hload. cbn [array_some].
    eexists. split; [done |].
    assert (H : loadBookmarks (saveBookmarks (JArr [JNull]) localStorage)
                = Normal (JArr [JNull])) by by apply load_saved.
    split; [done |]. intros eventObj. unfold addBookmark. by rewrite H.
Qed.

Lemma addBookmark_null_record_witness :
  addBookmark JNull moon_stored = (Throw TypeError, moon_stored).
Proof.
  apply (proj1 (addBookmark_null_record moon_stored [moon] ltac:(vm_compute; reflexivity))).
  discriminate.
Defined.

(** One call with a record on a storage that holds a list without null
    entries and without infinities. *)
Lemma addBookmark_step (eventObj : value) (localStorage : gmap string string)
  (items : list value) (t d : string) :
  loadBookmarks localStorage = Normal (JArr items) ->
  Forall (fun b => is_null b = false) items ->
  all_finite (JArr items) = true ->
  wf eventObj = true -> pair_of eventObj = Some (t, d) ->
  loadBookmarks (snd (addBookmark eventObj localStorage))
  = Normal (JArr (if bool_decide (Some (t, d) ∈ map pair_of items) then items
                  else eventObj :: items)).
Proof.
  intros Hload Hnn Hfin Hwf He.
  rewrite (addBookmark_record eventObj localStorage items t d Hload Hnn He).
  destruct (existsb _ items) eqn:Hocc; cbn [snd].
  - apply pair_occurs in Hocc as (b & Hin & Hb).
    rewrite bool_decide_eq_true_2; [done |].
    apply list_elem_of_fmap. exists b. split; [done | by apply list_elem_of_In].
  - rewrite bool_decide_eq_false_2.
    + destruct (loaded_cons_js _ eventObj items Hload Hwf) as [Hjs Hnull].
      by rewrite (load_saved_js _ _ Hjs), Hnull, nullify_items_finite.
    + intros (b & Hb & Hin)%list_elem_of_fmap. apply list_elem_of_In in Hin.
      assert (existsb (fun b => bool_decide (pair_of b = Some (t, d))) items = true)
        as Hex by (apply pair_occurs; by exists b).
      congruence.
Qed.

Lemma all_finite_cons (e : value) (items : list value) :
  wf e = true -> all_finite (JArr items) = true ->
  all_finite (JArr (e :: items)) = true.
Proof. intros Hwf Hfin. cbn [all_finite forallb] in *. by rewrite (wf_finite _ Hwf). Qed.

(** X16.  No two entries with the same pair: when the stored list has
    no null entry and no number that is an infinity, and its records
    have pairwise different (title, date) pairs, all that is still so
    after any sequence of calls of [addBookmark] with records. *)
Theorem addBookmark_keeps_pairs_distinct (records : list value)
  (localStorage : gmap string string) (items : list value) :
  loadBookmarks localStorage = Normal (JArr items) ->
  Forall (fun b => is_null b = false) items ->
  all_finite (JArr items) = true ->
  NoDup (omap pair_of items) ->
  Forall (fun e => wf e = true /\ is_Some (pair_of e)) records ->
  exists items',
    loadBookmarks (add_all records localStorage) = Normal (JArr items')
    /\ Forall (fun b => is_null b = false) items'
    /\ all_finite (JArr items') = true
    /\ NoDup (omap pair_of items')
    /\ length items' <= length items + length records.
Proof.
  intros Hload Hnn Hfin Hnd Hrec. revert localStorage items Hload Hnn Hfin Hnd.
  induction Hrec as [|e records (Hwf & [[t d] He]) _ IH];
    intros ls items Hload Hnn Hfin Hnd.
  - exists items. cbn. repeat split; try done. lia.
  - cbn [add_all fold_left].
    pose proof (addBookmark_step e ls items t d Hload Hnn Hfin Hwf He) as Hstep.
    destruct (bool_decide (Some (t, d) ∈ map pair_of items)) eqn:Hocc.
    + destruct (IH _ items Hstep Hnn Hfin Hnd) as (items' & H1 & H2 & H3 & H4 & H5).
      exists items'. repeat split; try done. cbn [length]. lia.
    + apply bool_decide_eq_false in Hocc.
      destruct (IH _ (e :: items) Hstep) as (items' & H1 & H2 & H3 & H4 & H5).
      * constructor; [by destruct e | done].
      * by apply all_finite_cons.
      * cbn [omap list_omap]. rewrite He. constructor; [|done].
        intros (b & Hb & Hin)%list_elem_of_omap. apply Hocc.
        apply list_elem_of_fmap. by exists b.
      * exists items'. repeat split; try done. cbn [length] in *. lia.
Qed.

Lemma addBookmark_keeps_pairs_distinct_witness :
  exists items',
    loadBookmarks (add_all [sputnik; moon_again; sputnik] moon_stored)
    = Normal (JArr items')
    /\ NoDup (omap pair_of items').
Proof.
  destruct (addBookmark_keeps_pairs_distinct [sputnik; moon_again; sputnik]
              moon_stored [moon]) as (items' & H1 & _ & _ & H3 & _).
  - vm_compute. reflexivity.
  - constructor; [reflexivity | constructor].
  - reflexivity.
  - cbn. apply NoDup_singleton.
  - repeat constructor; by eexists.
  - exists items'. split; [exact H1 | exact H3].
Defined.

(** Why the stored list must hold no infinity: a stored number that is
    too large for binary64 is written back as null by the first call that
    adds a record, and every later call that reaches it throws. *)
Lemma addBookmark_infinity_to_null :
  loadBookmarks huge_stored = Normal (JArr [JNum (10 ^ 400)])
  /\ loadBookmarks (add_all [sputnik] huge_stored) = Normal (JArr [sputnik; JNull])
  /\ addBookmark moon (add_all [sputnik] huge_stored)
     = (Throw TypeError, add_all [sputnik] huge_stored).
Proof.
  assert (H1 : loadBookmarks huge_stored = Normal (JArr [JNum (10 ^ 400)])).
  { vm_compute. reflexivity. }
  assert (H2 : add_all [sputnik] huge_stored
               = saveBookmarks (JArr [sputnik; JNum (10 ^ 400)]) huge_stored).
  { cbn [add_all fold_left]. unfold addBookmark. rewrite H1. vm_compute. reflexivity. }
  assert (H3 : loadBookmarks (add_all [sputnik] huge_stored)
               = Normal (JArr [sputnik; JNull])).
  { rewrite H2. vm_compute. reflexivity. }
  split; [done |]. split; [done |]. unfold addBookmark. by rewrite H3.
Qed.



(** X18.  Saving what was loaded: when the stored item is read as a
    value, that value is stored and read again with null for every number
    of it that is an infinity, and so as itself when it holds none;
    saving what is read then changes the storage no more. *)
Theorem loadBookmarks_save_stable (localStorage : gmap string string) (v : value) :
  loadBookmarks localStorage = Normal v ->
  loadBookmarks (saveBookmarks v localStorage) = Normal (nullify v)
  /\ (all_finite v = true -> loadBookmarks (saveBookmarks v localStorage) = Normal v)
  /\ saveBookmarks (nullify v) (saveBookmarks v localStorage)
     = saveBookmarks v localStorage.
Proof.
  intros Hload. pose proof (loaded_js _ _ Hload) as Hjs.
  split; [by apply load_saved_js | split].
  - intros Hfin. by rewrite (load_saved_js _ _ Hjs), nullify_finite.
  - unfold saveBookmarks. by rewrite stringify_nullify, insert_insert_eq.
Qed.

Lemma loadBookmarks_save_stable_witness :
  loadBookmarks (saveBookmarks (JArr []) {[ BOOKMARK_KEY := "[{not json" ]})
  = Normal (JArr []).
Proof.
  assert (Hload : loadBookmarks {[ BOOKMARK_KEY := "[{not json" ]} = Normal (JArr [])).
  { vm_compute. reflexivity. }
  exact (proj1 (proj2 (loadBookmarks_save_stable _ _ Hload)) eq_refl).
Defined.

End MoreBookmarkFacts.

(** ** bookmarks.js: the exported file *)

Section ExportFacts.

(** X19.  The name of the exported file is [bookmarks-], a time stamp and
    [.json].  The time stamp is the first 19 characters of the ISO time
    with a hyphen for every colon and every T; it holds neither a colon
    nor a T.  For an ISO time of a date of 10 characters, a T, and hours,
    minutes and seconds of two characters with colons between, the name
    is [bookmarks-DATE-HH-MM-SS.json]. *)
Theorem exportBookmarks_filename (now : string) (localStorage : gmap string string)
  (list : value) :
  loadBookmarks localStorage = Normal list ->
  exists file ts,
    exportBookmarks now localStorage = Normal file
    /\ filename file = "bookmarks-" +:+ ts +:+ ".json"
    /\ Str.chars ts = map (hyphen_for colon_or_T) (firstn 19 (Str.chars now))
    /\ String.length ts = Nat.min 19 (String.length now)
    /\ Forall (fun c => colon_or_T c = false) (Str.chars ts)
    /\ (forall date hh mm ss rest,
          now = date +:+ "T" +:+ hh +:+ ":" +:+ mm +:+ ":" +:+ ss +:+ rest ->
          String.length date = 10 -> String.length hh = 2 ->
          String.length mm = 2 -> String.length ss = 2 ->
          forallb (fun c => negb (colon_or_T c))
            (Str.chars (date +:+ hh +:+ mm +:+ ss)) = true ->
          ts = date +:+ "-" +:+ hh +:+ "-" +:+ mm +:+ "-" +:+ ss).
Proof.
  intros Hload. unfold exportBookmarks. rewrite Hload.
  cbn [mbind completion_bind Js.bind].
  eexists. exists (Str.replace_class colon_or_T "-" (Str.slice0 19 now)).
  split; [done |]. split; [done |].
  assert (Hts : Str.chars (Str.replace_class colon_or_T "-" (Str.slice0 19 now))
                = map (hyphen_for colon_or_T) (firstn 19 (Str.chars now))).
  { by rewrite chars_replace_class, chars_slice0. }
  split; [done |]. split; [|split].
  - by rewrite <- chars_length, Hts, length_map, length_firstn, chars_length.
  - rewrite Hts. apply Forall_forall. intros c (x & -> & _)%list_elem_of_fmap.
    unfold hyphen_for. by destruct (colon_or_T x) eqn:E.
  - intros date hh mm ss rest -> Hd Hh Hm Hs Hplain. apply chars_inj. rewrite Hts.
    rewrite !chars_app in Hplain. rewrite !forallb_app in Hplain.
    apply andb_true_iff in Hplain as [Hpd Hplain].
    apply andb_true_iff in Hplain as [Hph Hplain].
    apply andb_true_iff in Hplain as [Hpm Hps].
    rewrite !chars_app.
    replace 19 with (length (Str.chars date) + (1 + (length (Str.chars hh)
                     + (1 + (length (Str.chars mm) + (1 + (length (Str.chars ss) + 0)))))))
      by (rewrite !chars_length; lia).
    cbn [Str.chars list_ascii_of_string app]. fold Str.chars.
    repeat (rewrite firstn_app_2 || (cbn [Nat.add]; rewrite firstn_cons)).
    cbn [Nat.add]. rewrite firstn_O, app_nil_r.
    repeat (rewrite map_app || rewrite map_cons).
    by rewrite !hyphen_for_plain.
Qed.

Lemma exportBookmarks_filename_witness :
  exists file,
    exportBookmarks "1969-07-20T20:17:40.000Z" moon_stored = Normal file
    /\ filename file = "bookmarks-1969-07-20-20-17-40.json".
Proof.
  destruct (exportBookmarks_filename "1969-07-20T20:17:40.000Z" moon_stored
              (JArr [moon]) ltac:(vm_compute; reflexivity))
    as (file & ts & H1 & H2 & _ & _ & _ & H6).
  exists file. split; [exact H1 |]. rewrite H2.
  by rewrite (H6 "1969-07-20" "20" "17" "40" ".000Z" eq_refl eq_refl eq_refl eq_refl
                eq_refl eq_refl).
Defined.

End ExportFacts.
